(** * storyboard-streamlit: the content submission form (src/app.py)

    A shallow embedding of the helpers and of the submit handler of
    [src/app.py], and the properties of the specification stated over it.

    Python [str] values are modelled as lists of characters; a character is
    a code point below 256 ([ascii]).  Exceptions are values of [exn] and a
    computation that may raise returns a [result]. *)

From stdpp Require Import base list strings gmap.
From Stdlib Require Import Ascii ZArith Lia DecimalString.

Open Scope Z_scope.
Open Scope nat_scope.
Open Scope list_scope.

(** ** Python strings *)

Abbreviation str := (list ascii).

(** A string literal of the source. *)
Definition lit (s : string) : str := String.list_ascii_of_string s.

Definition code (c : ascii) : nat := nat_of_ascii c.

Module Py.

(** [str(n)] for a natural number. *)
Definition str_of_nat (n : nat) : str :=
  lit (NilEmpty.string_of_uint (Nat.to_uint n)).

(** [c in s] for a one-character [c]. *)
Definition char_in (c : ascii) (s : str) : bool :=
  existsb (Ascii.eqb c) s.

(** [str.isspace] on one code point below 256. *)
Definition is_space (c : ascii) : bool :=
  let n := code c in
  ((9 <=? n) && (n <=? 13)) || ((28 <=? n) && (n <=? 32))
  || (n =? 133) || (n =? 160).

(** [str.lower] on one code point below 256: A-Z and the Latin-1 capitals.
    On these code points lowering is done character by character and
    keeps the length; beyond them it is not ([U+0130] becomes two code
    points), and such text is outside this model. *)
Definition lower_char (c : ascii) : ascii :=
  let n := code c in
  if ((65 <=? n) && (n <=? 90))
     || ((192 <=? n) && (n <=? 222) && negb (n =? 215))
  then ascii_of_nat (n + 32) else c.

Definition lower (s : str) : str := map lower_char s.

(** [s.startswith(p)]. *)
Fixpoint startswith (p s : str) : bool :=
  match p, s with
  | [], _ => true
  | _ :: _, [] => false
  | a :: p', b :: s' => Ascii.eqb a b && startswith p' s'
  end.

Fixpoint dropwhile (f : ascii -> bool) (s : str) : str :=
  match s with
  | [] => []
  | c :: s' => if f c then dropwhile f s' else s
  end.

Definition lstrip_by (f : ascii -> bool) (s : str) : str := dropwhile f s.
Definition rstrip_by (f : ascii -> bool) (s : str) : str :=
  rev (dropwhile f (rev s)).
Definition strip_by (f : ascii -> bool) (s : str) : str :=
  rstrip_by f (lstrip_by f s).

(** [s.strip()] *)
Definition strip (s : str) : str := strip_by is_space s.
(** [s.strip(chars)] *)
Definition strip_chars (chars s : str) : str :=
  strip_by (fun c => char_in c chars) s.
(** [s.lstrip(chars)] *)
Definition lstrip_chars (chars s : str) : str :=
  lstrip_by (fun c => char_in c chars) s.

(** [s.replace(old, new)]: every occurrence of [old], left to right and
    without overlap.  [skip] counts the characters of a replaced
    occurrence that are still to be passed over. *)
Fixpoint replace_go (old new : str) (skip : nat) (s : str) : str :=
  match s with
  | [] => []
  | c :: s' =>
      match skip with
      | S k => replace_go old new k s'
      | O =>
          if startswith old s
          then new ++ replace_go old new (length old - 1) s'
          else c :: replace_go old new 0 s'
      end
  end.

Definition replace (old new s : str) : str :=
  match old with
  | [] => new ++ flat_map (fun c => c :: new) s
  | _ :: _ => replace_go old new 0 s
  end.

(** [sep.join(parts)] *)
Fixpoint join (sep : str) (parts : list str) : str :=
  match parts with
  | [] => []
  | [p] => p
  | p :: ps => p ++ sep ++ join sep ps
  end.

(** [s.split(sep)] for a one-character separator. *)
Fixpoint split (sep : ascii) (s : str) : list str :=
  match s with
  | [] => [[]]
  | c :: s' =>
      if Ascii.eqb c sep then [] :: split sep s'
      else match split sep s' with
           | [] => [[c]]
           | p :: ps => (c :: p) :: ps
           end
  end.

(** [s.find(sub)]: the least index at which [sub] occurs, or -1. *)
Fixpoint find_from (sub s : str) (i : nat) : Z :=
  if startswith sub s then Z.of_nat i
  else match s with
       | [] => (-1)%Z
       | _ :: s' => find_from sub s' (S i)
       end.

Definition find (sub s : str) : Z := find_from sub s 0.

(** [s.rfind(sub)]: the greatest index at which [sub] occurs, or -1. *)
Fixpoint rfind_from (sub s : str) (i : nat) : Z :=
  match s with
  | [] => if startswith sub s then Z.of_nat i else (-1)%Z
  | _ :: s' =>
      let r := rfind_from sub s' (S i) in
      if (r =? -1)%Z
      then (if startswith sub s then Z.of_nat i else (-1)%Z)
      else r
  end.

Definition rfind (sub s : str) : Z := rfind_from sub s 0.

(** [sub in s] for strings. *)
Definition contains (sub s : str) : bool := negb (find sub s =? -1)%Z.

(** Slice bounds as Python clamps them: a negative index counts from the
    end, and both ends are brought back into [0, len]. *)
Definition clamp (len : nat) (i : Z) : nat :=
  if (i <? 0)%Z then Z.to_nat (Z.max (i + Z.of_nat len) 0)
  else Nat.min (Z.to_nat i) len.

(** [s[a:b]] *)
Definition slice {A} (a b : Z) (s : list A) : list A :=
  let lo := clamp (length s) a in
  let hi := clamp (length s) b in
  take (hi - lo) (drop lo s).

(** [s[a:]] and [s[:b]] *)
Definition slice_from {A} (a : Z) (s : list A) : list A :=
  drop (clamp (length s) a) s.
Definition slice_to {A} (b : Z) (s : list A) : list A :=
  take (clamp (length s) b) s.

(** [len(s)] as a Python integer. *)
Definition len {A} (s : list A) : Z := Z.of_nat (length s).

(** Truthiness of a string: [if s:] *)
Definition truthy {A} (s : list A) : bool :=
  match s with [] => false | _ => true end.

Definition ascii_lowercase : str := lit "abcdefghijklmnopqrstuvwxyz".
Definition ascii_uppercase : str := lit "ABCDEFGHIJKLMNOPQRSTUVWXYZ".
Definition ascii_letters : str := ascii_lowercase ++ ascii_uppercase.
Definition digits : str := lit "0123456789".

End Py.

(** ** Exceptions *)

Inductive exn : Type :=
| ValueError (msg : str)
| KeyError (key : str)
| ReError (msg : str) (pos : nat)
| OtherError (msg : str).

Inductive result (A : Type) : Type :=
| Ok (a : A)
| Raise (e : exn).
Arguments Ok {A} a.
Arguments Raise {A} e.

(** ** Identifier generator *)

(** [random.choices(population, k=k)]: the random source [rng] gives, for
    the i-th draw, a number that is reduced to an index of the population
    (the library computes [floor(random() * n)], which lies in [0, n)). *)
Definition random_choices (rng : nat -> nat) (population : str) (k : nat) : str :=
  map (fun i => nth (rng i mod length population) population "000"%char)
      (seq 0 k).

Definition slug_alphabet : str :=
  Py.ascii_lowercase ++ Py.digits ++ lit "-".

Definition nano_alphabet : str :=
  Py.ascii_letters ++ Py.digits ++ lit "_-".

(** The slug expression of [generate_slug_and_urls]. *)
Definition slug_of (title : str) : str :=
  Py.strip_chars (lit "-")
    (filter (fun c => Is_true (Py.char_in c slug_alphabet))
       (Py.replace (lit "_") (lit "-")
          (Py.replace (lit " ") (lit "-") (Py.lower title)))).

Definition nano_of (rng : nat -> nat) : str :=
  random_choices rng nano_alphabet 10 ++ lit "_G".

Definition generate_slug_and_urls (rng : nat -> nat) (title : str)
  : result (str * str * str * str) :=
  if negb (Py.truthy title) then Raise (ValueError (lit "Invalid title"))
  else
    let slug := slug_of title in
    let nano := nano_of rng in
    let slug_nano := slug ++ lit "_" ++ nano in
    Ok (nano,
        slug_nano,
        lit "https://suvichaar.org/stories/" ++ slug_nano,
        lit "https://stories.suvichaar.org/" ++ slug_nano ++ lit ".html").


(** ** Regular expressions

    The patterns of the source are written as syntax trees; [Re.m] is a
    backtracking matcher with the priorities of Python's [re] (greedy and
    lazy repetition, leftmost search).  A pattern is compiled on every call
    of [re.search] and [re.sub], and compilation of a group that opens with
    an extension the engine does not know raises [re.error]. *)

Module Re.

Record flags : Type := Flags { ignorecase : bool; dotall : bool }.

Definition no_flags : flags := Flags false false.

Inductive regex : Type :=
| Eps
| Chr (c : ascii)                       (* a literal character *)
| Any                                   (* .        *)
| NotIn (cs : str)                      (* [^cs]    *)
| Space                                 (* \s       *)
| WordB                                 (* \b       *)
| Seq (r1 r2 : regex)
| Alt (r1 r2 : regex)                   (* r1|r2    *)
| Star (greedy : bool) (r : regex)      (* r* , r*? *)
| Plus (greedy : bool) (r : regex)      (* r+ , r+? *)
| Group (n : nat) (r : regex)           (* (r), the n-th group *)
| Call (n : nat) (at_ : nat).           (* (?n), at index at_ of the pattern *)

(** The characters of [s], in sequence. *)
Fixpoint chars (s : str) : regex :=
  match s with
  | [] => Eps
  | [c] => Chr c
  | c :: s' => Seq (Chr c) (chars s')
  end.

Fixpoint seqs (rs : list regex) : regex :=
  match rs with
  | [] => Eps
  | [r] => r
  | r :: rs' => Seq r (seqs rs')
  end.

(** [re.compile]: [(?1)] is not an extension of Python's [re]; the error
    names the character after the question mark and the index of the
    question mark in the pattern. *)
Fixpoint unknown_extension (r : regex) : option (nat * nat) :=
  match r with
  | Call n p => Some (n, p)
  | Seq r1 r2 | Alt r1 r2 =>
      match unknown_extension r1 with
      | Some e => Some e
      | None => unknown_extension r2
      end
  | Star _ r1 | Plus _ r1 | Group _ r1 => unknown_extension r1
  | _ => None
  end.

Definition compile (r : regex) : result regex :=
  match unknown_extension r with
  | None => Ok r
  | Some (n, p) =>
      Raise (ReError (lit "unknown extension ?" ++ take 1 (Py.str_of_nat n))
               p)
  end.

Record mstate : Type := MState {
  pos : nat;                 (* index in the subject *)
  prev : option ascii;       (* the character before [pos] *)
  rest : str;                (* the subject from [pos] on *)
  caps : list (nat * str)    (* the groups closed so far, latest first *)
}.

(** Equality of a pattern character and a subject character; with
    [re.IGNORECASE], on code points below 256, equality after lowering.
    (Beyond them the engine also takes [U+017F] for [s] and [U+212A] for
    [k]; such text is outside this model.) *)
Definition char_eq (fl : flags) (a b : ascii) : bool :=
  if ignorecase fl then Ascii.eqb (Py.lower_char a) (Py.lower_char b)
  else Ascii.eqb a b.

(** [\w] on one code point below 256. *)
Definition is_word (c : ascii) : bool :=
  let n := code c in
  ((48 <=? n) && (n <=? 57)) || ((65 <=? n) && (n <=? 90)) || (n =? 95)
  || ((97 <=? n) && (n <=? 122))
  || (n =? 170) || (n =? 178) || (n =? 179) || (n =? 181) || (n =? 185)
  || (n =? 186) || ((188 <=? n) && (n <=? 190))
  || ((192 <=? n) && (n <=? 214)) || ((216 <=? n) && (n <=? 246))
  || (248 <=? n).

Definition word_opt (o : option ascii) : bool :=
  match o with Some c => is_word c | None => false end.

Definition at_boundary (st : mstate) : bool :=
  xorb (word_opt (prev st)) (word_opt (head (rest st))).

(** Consume one character satisfying [p]. *)
Definition one (p : ascii -> bool) (st : mstate)
    (k : mstate -> option mstate) : option mstate :=
  match rest st with
  | [] => None
  | c :: s =>
      if p c then k (MState (S (pos st)) (Some c) s (caps st)) else None
  end.

Definition orelse {A} (a b : option A) : option A :=
  match a with Some x => Some x | None => b end.

(** Repetition of [body]; an iteration that consumes nothing is refused,
    so [fuel] = remaining length + 1 is never exhausted. *)
Fixpoint iter (body : mstate -> (mstate -> option mstate) -> option mstate)
    (greedy : bool) (fuel : nat) (st : mstate)
    (k : mstate -> option mstate) : option mstate :=
  match fuel with
  | O => k st
  | S f =>
      let more :=
        body st (fun st1 =>
          if pos st1 =? pos st then None else iter body greedy f st1 k) in
      if greedy then orelse more (k st) else orelse (k st) more
  end.

Fixpoint m (fl : flags) (r : regex) (st : mstate)
    (k : mstate -> option mstate) {struct r} : option mstate :=
  match r with
  | Eps => k st
  | Chr c => one (char_eq fl c) st k
  | Any =>
      one (fun c => dotall fl || negb (Ascii.eqb c "010"%char)) st k
  | NotIn cs => one (fun c => negb (existsb (char_eq fl c) cs)) st k
  | Space => one Py.is_space st k
  | WordB => if at_boundary st then k st else None
  | Seq r1 r2 => m fl r1 st (fun st1 => m fl r2 st1 k)
  | Alt r1 r2 => orelse (m fl r1 st k) (m fl r2 st k)
  | Star g r1 => iter (m fl r1) g (S (length (rest st))) st k
  | Plus g r1 =>
      m fl r1 st (fun st1 => iter (m fl r1) g (S (length (rest st1))) st1 k)
  | Group n r1 =>
      m fl r1 st (fun st1 =>
        k (MState (pos st1) (prev st1) (rest st1)
             ((n, take (pos st1 - pos st) (rest st)) :: caps st1)))
  | Call _ _ => None
  end.

(** A match object. *)
Record mtch : Type := Match {
  m_start : nat;
  m_end : nat;
  m_groups : list (nat * str)
}.

(** [mt.group(n)] for a group that took part in the match. *)
Definition group (n : nat) (mt : mtch) : str :=
  match List.find (fun p => fst p =? n) (m_groups mt) with
  | Some p => snd p
  | None => []
  end.

(** A match that starts exactly at the position of [s]. *)
Definition match_at (fl : flags) (r : regex) (i : nat)
    (pv : option ascii) (s : str) : option mtch :=
  match m fl r (MState i pv s []) Some with
  | Some st => Some (Match i (pos st) (caps st))
  | None => None
  end.

Fixpoint search_from (fl : flags) (r : regex) (i : nat)
    (pv : option ascii) (s : str) : option mtch :=
  match match_at fl r i pv s with
  | Some mt => Some mt
  | None =>
      match s with
      | [] => None
      | c :: s' => search_from fl r (S i) (Some c) s'
      end
  end.

(** [re.search(pattern, text, flags)] *)
Definition search (fl : flags) (r : regex) (text : str)
  : result (option mtch) :=
  match compile r with
  | Raise e => Raise e
  | Ok r' => Ok (search_from fl r' 0 None text)
  end.

(** A replacement template: literal text and group references [\n]. *)
Inductive ritem : Type :=
| RLit (s : str)
| RRef (n : nat).

Definition expand (repl : list ritem) (mt : mtch) : str :=
  flat_map (fun it =>
    match it with RLit s => s | RRef n => group n mt end) repl.

(** The scan of [re.sub]: at each position outside a replaced match, try
    the pattern; a match is replaced and passed over ([skip] counts the
    characters of it still to pass), otherwise the character is kept.
    The patterns of this program never match the empty string; for one
    that does, the replacement goes before the kept character. *)
Fixpoint sub_go (fl : flags) (r : regex) (repl : list ritem)
    (i : nat) (pv : option ascii) (skip : nat) (s : str) : str :=
  match skip with
  | S k =>
      match s with
      | [] => []
      | c :: s' => sub_go fl r repl (S i) (Some c) k s'
      end
  | O =>
      match match_at fl r i pv s with
      | Some mt =>
          expand repl mt ++
          match s with
          | [] => []
          | c :: s' =>
              if m_end mt =? i
              then c :: sub_go fl r repl (S i) (Some c) 0 s'
              else sub_go fl r repl (S i) (Some c) (m_end mt - i - 1) s'
          end
      | None =>
          match s with
          | [] => []
          | c :: s' => c :: sub_go fl r repl (S i) (Some c) 0 s'
          end
      end
  end.

(** [re.sub(pattern, repl, text)] *)
Definition sub (r : regex) (repl : list ritem) (text : str) : result str :=
  match compile r with
  | Raise e => Raise e
  | Ok r' => Ok (sub_go no_flags r' repl 0 None 0 text)
  end.

End Re.

(** ** Metadata generator: extraction of the JSON block *)

(** r"```json\s*(\{.*?\})\s*```" *)
Definition fenced_pattern : Re.regex :=
  Re.seqs [Re.chars (lit "```json");
           Re.Star true Re.Space;
           Re.Group 1 (Re.seqs [Re.Chr "{"; Re.Star false Re.Any; Re.Chr "}"]);
           Re.Star true Re.Space;
           Re.chars (lit "```")].

(** r"(\{(?:[^{}]|(?1))*\})" *)
Definition object_pattern : Re.regex :=
  Re.Group 1
    (Re.seqs [Re.Chr "{";
              Re.Star true (Re.Alt (Re.NotIn (lit "{}")) (Re.Call 1 13));
              Re.Chr "}"]).

Definition extract_json_block (text : str) : result str :=
  if negb (Py.truthy text)
  then Raise (ValueError (lit "Empty generation output"))
  else
    match Re.search (Re.Flags true true) fenced_pattern text with
    | Raise e => Raise e
    | Ok (Some mt) => Ok (Py.strip (Re.group 1 mt))
    | Ok None =>
        match Re.search (Re.Flags false true) object_pattern text with
        | Raise e => Raise e
        | Ok (Some mt2) => Ok (Py.strip (Re.group 1 mt2))
        | Ok None => Ok (Py.strip text)
        end
    end.

(** ** Category enumeration *)

(** A dict literal, keyed by strings. *)
Definition category_pairs : list (str * Z) :=
  [(lit "Art", 1%Z); (lit "Travel", 2%Z); (lit "Entertainment", 3%Z);
   (lit "Literature", 4%Z); (lit "Books", 5%Z); (lit "Sports", 6%Z);
   (lit "History", 7%Z); (lit "Culture", 8%Z); (lit "Wildlife", 9%Z);
   (lit "Spiritual", 10%Z); (lit "Food", 11%Z)].

Definition category_mapping : gmap str Z := list_to_map category_pairs.

Definition category_names : list str := map fst category_pairs.

(** [d[key]]: a missing key raises [KeyError]. *)
Definition subscript {V} (d : gmap str V) (key : str) : result V :=
  match d !! key with
  | Some v => Ok v
  | None => Raise (KeyError key)
  end.

(** ** Template compositor: the pure steps *)

Definition dq : str := ["034"%char].
Definition nl : str := ["010"%char].

(** r'href="\{(https://[^}]+)\}"' and r'src="\{(https://[^}]+)\}"' *)
Definition artifact_pattern (attr : str) : Re.regex :=
  Re.seqs [Re.chars (attr ++ lit "=" ++ dq ++ lit "{");
           Re.Group 1 (Re.Seq (Re.chars (lit "https://"))
                              (Re.Plus true (Re.NotIn (lit "}"))));
           Re.chars (lit "}" ++ dq)].

(** r'href="\1"' and r'src="\1"' *)
Definition artifact_repl (attr : str) : list Re.ritem :=
  [Re.RLit (attr ++ lit "=" ++ dq); Re.RRef 1; Re.RLit dq].

(** The cleanup step that removes the brace wrapping of URLs. *)
Definition cleanup (html_template : str) : result str :=
  match Re.sub (artifact_pattern (lit "href")) (artifact_repl (lit "href"))
          html_template with
  | Raise e => Raise e
  | Ok h => Re.sub (artifact_pattern (lit "src")) (artifact_repl (lit "src")) h
  end.

(** r"(<style\s+amp-custom[^>]*>.*?</style>)" *)
Definition style_pattern : Re.regex :=
  Re.Group 1
    (Re.seqs [Re.chars (lit "<style"); Re.Plus true Re.Space;
              Re.chars (lit "amp-custom"); Re.Star true (Re.NotIn (lit ">"));
              Re.Chr ">"; Re.Star false Re.Any; Re.chars (lit "</style>")]).

(** r"<amp-story\b[^>]*>" *)
Definition amp_story_opening_pattern : Re.regex :=
  Re.seqs [Re.chars (lit "<amp-story"); Re.WordB;
           Re.Star true (Re.NotIn (lit ">")); Re.Chr ">"].

Definition amp_page_open : str := lit "<amp-story-page".
Definition amp_page_close : str := lit "</amp-story-page>".

Definition analytics_tag : str :=
  lit "<amp-story-auto-analytics gtag-id=" ++ dq ++ lit "G-2D5GXVRK1E" ++ dq
  ++ lit " class=" ++ dq ++ lit "i-amphtml-layout-container" ++ dq
  ++ lit " i-amphtml-layout=" ++ dq ++ lit "container" ++ dq
  ++ lit "></amp-story-auto-analytics>".

(** ** Effects

    What the handler does to the outside is recorded as a trace of events,
    in order; what the outside answers comes from a [world].  The
    pictographs that open some of the messages shown to the operator are
    left out of the message texts. *)

#[local] Unset Elimination Schemes.
Inductive json : Type :=
| JNull
| JBool (b : bool)
| JInt (n : Z)
| JNum (text : str)
| JStr (s : str)
| JList (l : list json)
| JObj (fields : list (str * json)).
#[local] Set Elimination Schemes.

(** The payload of an archive entry: text, or [json.dumps(v, indent=n)]. *)
Inductive payload : Type :=
| PText (s : str)
| PJsonDumps (indent : nat) (v : json).

Inductive event : Type :=
| UiError (msg : str)
| UiWarning (msg : str)
| UiInfo (msg : str)
| UiSuccess (msg : str)
| UiMarkdown (msg : str)
| UiWrite (msg : str)
| UiDownload (label : str) (archive : list (str * payload))
             (file_name : str) (mime : str)
| ChatCompletion (title : str)                       (* text generation *)
| HttpGet (url : str)                                (* requests.get     *)
| S3Put (bucket key body content_type : str)         (* put_object       *)
| ReadFile (path : str).                             (* open(...).read() *)

Record world : Type := World {
  w_rng : nat -> nat;                     (* draws of random.choices *)
  w_choice : nat;                         (* draw of random.choice *)
  w_now : nat -> str;                     (* n-th datetime.now(...).isoformat *)
  w_uuid_hex : str;                       (* uuid.uuid4().hex *)
  w_url_path : str -> result str;         (* urlparse(url).path *)
  w_http_get : str -> result (str * option str);
                                          (* body and Content-Type, after
                                             raise_for_status *)
  w_s3_put : str -> str -> result unit;   (* bucket, key *)
  w_template : result str;                (* the template file *)
  w_resize_token : str -> str -> Z -> Z -> str;
                      (* urlsafe base64 of the JSON resize descriptor *)
  w_chat : str -> result str;             (* the model's answer for a title *)
  w_json_loads : str -> result json;      (* json.loads *)
  w_py_str : json -> str;                 (* str(x) of a value not a string *)
  bucket_name : str;
  s3_prefix_secret : str;
  cdn_base_url : str
}.

Definition M (A : Type) : Type := (list event * result A)%type.

Definition ret {A} (a : A) : M A := ([], Ok a).
Definition bind {A B} (c : M A) (f : A -> M B) : M B :=
  match c with
  | (t, Ok a) => let '(t', r) := f a in (t ++ t', r)
  | (t, Raise e) => (t, Raise e)
  end.
Definition emit (e : event) : M unit := ([e], Ok tt).
Definition lift {A} (r : result A) : M A := ([], r).
(** [try: c except Exception as e: h e] *)
Definition try_except {A} (c : M A) (h : exn -> M A) : M A :=
  match c with
  | (t, Ok a) => (t, Ok a)
  | (t, Raise e) => let '(t', r) := h e in (t ++ t', r)
  end.

#[global] Instance M_ret : MRet M := @ret.
#[global] Instance M_bind : MBind M := fun A B f c => bind c f.

(** [str(e)] of an exception, as the f-strings print it: the message,
    the quoted key of a [KeyError], and for [re.error] the message
    followed by the position. *)
Definition exn_str (e : exn) : str :=
  match e with
  | ValueError m => m
  | KeyError k => lit "'" ++ k ++ lit "'"
  | ReError m p => m ++ lit " at position " ++ Py.str_of_nat p
  | OtherError m => m
  end.

Definition http_get (w : world) (url : str) : M (str * option str) :=
  emit (HttpGet url);; lift (w_http_get w url).

Definition s3_put (w : world) (bucket key body ctype : str) : M unit :=
  emit (S3Put bucket key body ctype);; lift (w_s3_put w bucket key).

Definition read_template (w : world) (path : str) : M str :=
  emit (ReadFile path);; lift (w_template w).

Definition chat_completion (w : world) (title : str) : M str :=
  emit (ChatCompletion title);; lift (w_chat w title).

(** ** Metadata generator *)

Record metadata : Type := Metadata {
  md_meta_description : str;
  md_meta_keywords_csv : str;
  md_filter_tags_csv : str
}.

(** [type(v).__name__] of a parsed value. *)
Definition type_name (v : json) : str :=
  match v with
  | JNull => lit "NoneType"
  | JBool _ => lit "bool"
  | JInt _ => lit "int"
  | JNum _ => lit "float"
  | JStr _ => lit "str"
  | JList _ => lit "list"
  | JObj _ => lit "dict"
  end.

(** [data.get(key, default)] on a parsed object; another value has no
    [get] and the call raises [AttributeError]. *)
Definition json_get (data : json) (key : str) (default : json) : result json :=
  match data with
  | JObj fields =>
      match List.find (fun p => bool_decide (fst p = key)) fields with
      | Some p => Ok (snd p)
      | None => Ok default
      end
  | _ =>
      Raise (OtherError (lit "'" ++ type_name data
                         ++ lit "' object has no attribute 'get'"))
  end.

Definition py_str (w : world) (v : json) : str :=
  match v with JStr s => s | _ => w_py_str w v end.

Definition nonblank_stripped (parts : list str) : list str :=
  map Py.strip (List.filter (fun x => Py.truthy (Py.strip x)) parts).

(** A keyword or tag value, from a comma string or from a list. *)
Definition normalize_items (w : world) (v : json) : result (list str) :=
  match v with
  | JStr s => Ok (nonblank_stripped (Py.split "," s))
  | JList l => Ok (nonblank_stripped (map (py_str w) l))
  | JObj fields => Ok (nonblank_stripped (map fst fields))
  | _ =>
      Raise (OtherError (lit "'" ++ type_name v
                         ++ lit "' object is not iterable"))
  end.

Definition generate_metadata (w : world) (title : str) : M metadata :=
  raw ← chat_completion w title;
  json_str ← lift (extract_json_block raw);
  data ← lift (w_json_loads w json_str);
  d ← lift (json_get data (lit "meta_description") (JStr []));
  let desc := Py.strip (py_str w d) in
  kws ← lift (json_get data (lit "meta_keywords") (JList []));
  tags ← lift (json_get data (lit "filter_tags") (JList []));
  kws_list ← lift (normalize_items w kws);
  tag_list ← lift (normalize_items w tags);
  ret (Metadata (Py.slice_to 160 desc)
                (Py.join (lit ", ") kws_list)
                (Py.join (lit ", ") tag_list)).

(** ** The session and the title input *)

Record session : Type := Session {
  last_title : str;
  ss_meta_description : str;
  ss_meta_keywords : str;
  generated_filter_tags : str
}.

Definition session_defaults : session := Session [] [] [] [].

(** The block that runs on every interaction after the title input:
    metadata is generated when the title is not blank and differs from the
    last one seen. *)
Definition on_title (w : world) (ss : session) (story_title : str)
  : list event * session :=
  if Py.truthy (Py.strip story_title)
     && negb (bool_decide (story_title = last_title ss))
  then
    let '(t, r) := generate_metadata w (Py.strip story_title) in
    match r with
    | Ok md =>
        (t, Session story_title (md_meta_description md)
              (md_meta_keywords_csv md) (md_filter_tags_csv md))
    | Raise e =>
        (t ++ [UiWarning (lit "Metadata generation failed: " ++ exn_str e)],
         Session story_title (ss_meta_description ss)
           (ss_meta_keywords ss) (generated_filter_tags ss))
    end
  else ([], ss).

(** ** The submit handler *)

Record form : Type := Form {
  story_title : str;
  meta_description : str;
  meta_keywords : str;
  content_type : str;
  language : str;
  image_url : str;
  html_file : option (result str);   (* the upload, read and decoded *)
  categories : str;
  tag_input : str;
  use_custom_cover : bool;
  custom_cover_url : str
}.

Definition cover_image_url (f : form) : str :=
  if use_custom_cover f then custom_cover_url f else image_url f.

Definition blank (s : str) : bool := negb (Py.truthy (Py.strip s)).

Definition missing_if (b : bool) (name : string) : list str :=
  if b then [lit name] else [].

Definition missing_fields (f : form) : list str :=
  missing_if (blank (story_title f)) "Story Title"
  ++ missing_if (blank (meta_description f)) "Meta Description"
  ++ missing_if (blank (meta_keywords f)) "Meta Keywords"
  ++ missing_if (blank (content_type f)) "Content Type"
  ++ missing_if (blank (language f)) "Language"
  ++ missing_if (blank (image_url f)) "Image URL"
  ++ missing_if (blank (tag_input f)) "Filter Tags"
  ++ missing_if (blank (categories f)) "Category"
  ++ missing_if (negb (bool_decide (is_Some (html_file f)))) "Raw HTML File".

Definition validation_report (f : form) : M unit :=
  let missing := missing_fields f in
  if Py.truthy missing
  then emit (UiError (lit "Please fill all required fields before submitting:"
                      ++ nl ++ lit "- " ++ Py.join (nl ++ lit "- ") missing))
  else
    emit (UiMarkdown (lit "### Submitted Data"));;
    emit (UiWrite (lit "**Story Title:** " ++ story_title f));;
    emit (UiWrite (lit "**Meta Description:** " ++ meta_description f));;
    emit (UiWrite (lit "**Meta Keywords:** " ++ meta_keywords f));;
    emit (UiWrite (lit "**Content Type:** " ++ content_type f));;
    emit (UiWrite (lit "**Language:** " ++ language f)).

Record identifiers : Type := Identifiers {
  nano : str; slug_nano : str; canurl : str; canurl1 : str; page_title : str
}.

Definition make_identifiers (w : world) (f : form) : M identifiers :=
  try_except
    ('(n, sn, c, c1) ← lift (generate_slug_and_urls (w_rng w) (story_title f));
     ret (Identifiers n sn c c1 (story_title f ++ lit " | Suvichaar")))
    (fun e =>
       emit (UiError (lit "Error generating canonical URLs: " ++ exn_str e));;
       ret (Identifiers [] [] [] [] [])).

(** [os.path.basename] and the extension of [os.path.splitext]. *)
Definition basename (path : str) : str :=
  List.last (Py.split "/" path) [].

Definition splitext_ext (filename : str) : str :=
  let d := Py.rfind (lit ".") filename in
  if (d >? -1)%Z
     && existsb (fun c => negb (Ascii.eqb c ".")) (Py.slice_to d filename)
  then Py.slice_from d filename else [].

Definition s3_prefix (w : world) : str :=
  let p := s3_prefix_secret w in
  if Py.truthy p && negb (Py.startswith (lit "/") (rev p))
  then p ++ lit "/" else p.

(** Image URL handling; the result is [(uploaded_url, key_path)]. *)
Definition handle_image (w : world) (f : form) : M (str * str) :=
  if Py.truthy (image_url f) then
    path ← lift (w_url_path w (image_url f));
    let filename := basename path in
    let ext0 := Py.lower (splitext_ext filename) in
    let ext :=
      if bool_decide (ext0 ∈ [lit ".jpg"; lit ".jpeg"; lit ".png"; lit ".gif"])
      then ext0 else lit ".jpg" in
    if Py.startswith (lit "https://stories.suvichaar.org/") (image_url f) then
      path2 ← lift (w_url_path w (image_url f));
      ret (image_url f,
           Py.join (lit "/") (Py.slice_from 2 (Py.split "/" path2)))
    else
      try_except
        ('(body, ctype) ← http_get w (image_url f);
         let unique_filename := w_uuid_hex w ++ ext in
         let s3_key := s3_prefix w ++ unique_filename in
         s3_put w (bucket_name w) s3_key body
           (default (lit "image/jpeg") ctype);;
         emit (UiSuccess (lit "Image uploaded successfully!"));;
         ret (cdn_base_url w ++ s3_key, s3_key))
        (fun e =>
           emit (UiWarning
                   (lit "Failed to fetch/upload image. Using fallback. Error: "
                    ++ exn_str e));;
           ret ([], lit "media/default.png"))
  else
    emit (UiInfo (lit "No Image URL provided. Using default."));;
    ret ([], lit "media/default.png").

(** [user_mapping]: the keys in insertion order, with their profile URLs. *)
Definition user_mapping : list (str * str) :=
  [(lit "Mayank",
    lit "https://www.instagram.com/iamkrmayank?igsh=eW82NW1qbjh4OXY2&utm_source=qr");
   (lit "Onip",
    lit "https://www.instagram.com/onip.mathur/profilecard/?igsh=MW5zMm5qMXhybGNmdA==");
   (lit "Naman", lit "https://njnaman.in/")].

(** [random.choice(seq)] *)
Definition random_choice {A} (draw : nat) (l : list A) (d : A) : A :=
  nth (draw mod length l) l d.

Definition cdn_prefix_media : str := lit "https://media.suvichaar.org/".

Definition resize_presets : list (str * (Z * Z)) :=
  [(lit "potraitcoverurl", (640%Z, 853%Z));
   (lit "msthumbnailcoverurl", (300%Z, 300%Z))].

Definition story_logo_link : str :=
  lit "https://media.suvichaar.org/filters:resize/96x96/media/brandasset/suvichaariconblack.png".

(** The placeholder substitutions that do not depend on the image. *)
Definition substitute_fields (w : world) (f : form) (ids : identifiers)
    (selected_user profile_url : str) (html_template : str) : str :=
  let h := Py.replace (lit "{{user}}") selected_user html_template in
  let h := Py.replace (lit "{{userprofileurl}}") profile_url h in
  let h := Py.replace (lit "{{publishedtime}}") (w_now w 0) h in
  let h := Py.replace (lit "{{modifiedtime}}") (w_now w 1) h in
  let h := Py.replace (lit "{{storytitle}}") (story_title f) h in
  let h := Py.replace (lit "{{metadescription}}") (meta_description f) h in
  let h := Py.replace (lit "{{metakeywords}}") (meta_keywords f) h in
  let h := Py.replace (lit "{{contenttype}}") (content_type f) h in
  let h := Py.replace (lit "{{lang}}") (language f) h in
  let h := Py.replace (lit "{{pagetitle}}") (page_title ids) h in
  let h := Py.replace (lit "{{canurl}}") (canurl ids) h in
  Py.replace (lit "{{canurl1}}") (canurl1 ids) h.

(** The resized variants for an image already on the media host. *)
Definition substitute_image (w : world) (f : form) (html_template : str)
  : M str :=
  if Py.startswith (lit "http://media.suvichaar.org") (image_url f)
     || Py.startswith (lit "https://media.suvichaar.org") (image_url f)
  then
    let h := Py.replace (lit "{{image0}}") (image_url f) html_template in
    path ← lift (w_url_path w (image_url f));
    let cdn_key_path := Py.lstrip_chars (lit "/") path in
    ret (foldl
           (fun h '(label, (width, height)) =>
              let encoded :=
                w_resize_token w (bucket_name w) cdn_key_path width height in
              let final_url := cdn_prefix_media ++ encoded in
              Py.replace (lit "{" ++ label ++ lit "}") final_url h)
           h resize_presets)
  else ret html_template.

(** The story pages of the uploaded document: from the first opening
    literal to the end of the last closing literal. *)
Definition extract_amp_story (raw_html : str) : M str :=
  let start := Py.find amp_page_open raw_html in
  let end_ := Py.rfind amp_page_close raw_html in
  if negb (start =? -1)%Z && negb (end_ =? -1)%Z
  then ret (Py.slice start (end_ + Py.len amp_page_close) raw_html)
  else
    emit (UiWarning
            (lit "No complete <amp-story> block found in uploaded HTML."));;
    ret [].

Definition extract_style (raw_html : str) : M str :=
  style_match ← lift (Re.search (Re.Flags true true) style_pattern raw_html);
  match style_match with
  | Some mt => ret (Re.group 1 mt)
  | None =>
      emit (UiInfo (lit "No <style amp-custom> block found in uploaded HTML."));;
      ret []
  end.

(** Both fragments of the upload; empty when there is no upload. *)
Definition extract_fragments (f : form) : M (str * str) :=
  match html_file f with
  | Some upload =>
      raw_html ← lift upload;
      extracted_style ← extract_style raw_html;
      extracted_amp_story ← extract_amp_story raw_html;
      ret (extracted_style, extracted_amp_story)
  | None => ret ([], [])
  end.

Definition insert_style (extracted_style html_template : str) : M str :=
  if Py.truthy extracted_style then
    let head_close_pos := Py.find (lit "</head>") (Py.lower html_template) in
    if negb (head_close_pos =? -1)%Z then
      ret (Py.slice_to head_close_pos html_template ++ nl ++ extracted_style
           ++ nl ++ Py.slice_from head_close_pos html_template)
    else
      emit (UiWarning
              (lit "No </head> tag found in HTML template to insert <style amp-custom>."));;
      ret html_template
  else ret html_template.

Definition insert_amp_story (extracted_amp_story html_template : str)
  : M str :=
  if Py.truthy extracted_amp_story then
    amp_story_opening_match ←
      lift (Re.search Re.no_flags amp_story_opening_pattern html_template);
    match amp_story_opening_match with
    | Some mt =>
        if Py.contains analytics_tag html_template then
          let insert_pos := Z.of_nat (Re.m_end mt) in
          ret (Py.slice_to insert_pos html_template ++ nl ++ nl
               ++ extracted_amp_story ++ nl ++ nl
               ++ Py.slice_from insert_pos html_template)
        else
          emit (UiWarning
                  (lit "Could not find insertion points in the HTML template."));;
          ret html_template
    | None =>
        emit (UiWarning
                (lit "Could not find insertion points in the HTML template."));;
        ret html_template
    end
  else ret html_template.

Definition filter_tags_list (f : form) : list str :=
  nonblank_stripped (Py.split "," (tag_input f)).

Definition metadata_dict (f : form) (ids : identifiers) (filternumber : Z)
  : list (str * json) :=
  [(lit "story_title", JStr (story_title f));
   (lit "categories", JInt filternumber);
   (lit "filterTags", JList (map JStr (filter_tags_list f)));
   (lit "story_uid", JStr (nano ids));
   (lit "story_link", JStr (canurl ids));
   (lit "storyhtmlurl", JStr (canurl1 ids));
   (lit "urlslug", JStr (slug_nano ids));
   (lit "cover_image_link", JStr (cover_image_url f));
   (lit "publisher_id", JInt 1);
   (lit "story_logo_link", JStr story_logo_link);
   (lit "keywords", JStr (meta_keywords f));
   (lit "metadescription", JStr (meta_description f));
   (lit "lang", JStr (language f))].

(** The archive offered for download: two [writestr] calls. *)
Definition build_zip (ids : identifiers) (html_template : str)
    (md : list (str * json)) : list (str * payload) :=
  [(slug_nano ids ++ lit ".html", PText html_template);
   (slug_nano ids ++ lit "_metadata.json", PJsonDumps 4 (JObj md))].

(** The body of the last [try] of the handler: compose, publish, package. *)
Definition compose_and_publish (w : world) (f : form) (ids : identifiers)
  : M unit :=
  html_template ← read_template w (lit "templates/masterregex.html");
  filternumber ← lift (subscript category_mapping (categories f));
  let selected_user := random_choice (w_choice w) (map fst user_mapping) [] in
  profile_url ← lift (subscript (list_to_map user_mapping) selected_user);
  let html_template :=
    substitute_fields w f ids selected_user profile_url html_template in
  html_template ← substitute_image w f html_template;
  html_template ← lift (cleanup html_template);
  '(extracted_style, extracted_amp_story) ← extract_fragments f;
  html_template ← insert_style extracted_style html_template;
  html_template ← insert_amp_story extracted_amp_story html_template;
  let md := metadata_dict f ids filternumber in
  let s3_key := slug_nano ids ++ lit ".html" in
  s3_put w (lit "suvichaarstories") s3_key html_template (lit "text/html");;
  let final_story_url := lit "https://suvichaar.org/stories/" ++ slug_nano ids in
  emit (UiSuccess (lit "HTML uploaded successfully to S3!"));;
  emit (UiMarkdown (lit "**Live Story URL:** [Click to view your story]("
                    ++ final_story_url ++ lit ")"));;
  emit (UiDownload (lit "Download HTML + Metadata ZIP")
          (build_zip ids html_template md)
          (story_title f ++ lit ".zip") (lit "application/zip")).

(** What runs when the form is submitted.  The statements after the
    validation report stand at the level of [if submit_button:], so they
    run whatever the report was. *)
Definition on_submit (w : world) (f : form) : M unit :=
  validation_report f;;
  ids ← make_identifiers w f;
  _ ← handle_image w f;
  try_except (compose_and_publish w f ids)
    (fun e => emit (UiError (lit "Error processing HTML: " ++ exn_str e))).

(** ** Notions used by the statements *)

(** The titles of the slug property: letters, digits, spaces, underscores
    and hyphens. *)
Definition title_alphabet : str :=
  Py.ascii_letters ++ Py.digits ++ lit " _-".

Definition hyphen (c : ascii) : bool := Py.char_in c (lit "-").

(** [sub] occurs in [s] at index [i]. *)
Definition occurs_at (sub s : str) (i : nat) : Prop :=
  exists pre post, s = pre ++ sub ++ post /\ length pre = i.

Definition first_occurrence (sub s : str) (i : nat) : Prop :=
  occurs_at sub s i /\ forall k, k < i -> ~ occurs_at sub s k.

Definition last_occurrence (sub s : str) (i : nat) : Prop :=
  occurs_at sub s i /\ forall k, i < k -> ~ occurs_at sub s k.

(** [frag] is the part of [s] from index [i] up to, not including,
    index [j]. *)
Definition spans (s frag : str) (i j : nat) : Prop :=
  exists pre post, s = pre ++ frag ++ post /\ length pre = i
                   /\ length (pre ++ frag) = j.

(** The archives offered for download in a trace. *)
Definition downloads (t : list event) : list (list (str * payload)) :=
  flat_map (fun e =>
    match e with UiDownload _ archive _ _ => [archive] | _ => [] end) t.

(** The calls to the outside in a trace: text generation, HTTP, object
    store, template file. *)
Definition is_outside_call (e : event) : bool :=
  match e with
  | ChatCompletion _ | HttpGet _ | S3Put _ _ _ _ | ReadFile _ => true
  | _ => false
  end.

(** A world for the examples: every service answers, the template is a
    small story document. *)
Definition demo_template : str :=
  lit "<html><head><title>{{pagetitle}}</title></head><body><amp-story standalone>"
  ++ analytics_tag ++ lit "</amp-story></body></html>".

Definition demo_world : world :=
  {| w_rng := fun _ => 0;
     w_choice := 0;
     w_now := fun _ => lit "2025-01-01T00:00:00+00:00";
     w_uuid_hex := lit "0123456789abcdef0123456789abcdef";
     w_url_path := fun _ => Ok (lit "/a.png");
     w_http_get := fun _ => Ok (lit "PNG", None);
     w_s3_put := fun _ _ => Ok tt;
     w_template := Ok demo_template;
     w_resize_token := fun _ _ _ _ => lit "e30=";
     w_chat := fun _ => Ok (lit "hello");
     w_json_loads := fun _ => Ok (JObj []);
     w_py_str := fun _ => [];
     bucket_name := lit "media-bucket";
     s3_prefix_secret := lit "media";
     cdn_base_url := lit "https://cdn.example/" |}.

(** A submission with every field filled except the image URL. *)
Definition form_without_image : form :=
  {| story_title := lit "Test Story";
     meta_description := lit "A story";
     meta_keywords := lit "a, b";
     content_type := lit "News";
     language := lit "en-US";
     image_url := [];
     html_file := Some (Ok (lit "<amp-story-page id=1></amp-story-page>"));
     categories := lit "Art";
     tag_input := lit "x, y";
     use_custom_cover := false;
     custom_cover_url := [] |}.

(** A computation that offers no download. *)
Definition quiet {A} (c : M A) : Prop := downloads (fst c) = [].

(** The archive offered by the example submission. *)
Definition demo_archive : list (str * payload) :=
  match downloads (fst (on_submit demo_world form_without_image)) with
  | archive :: _ => archive
  | [] => []
  end.

(** The keys of the metadata document. *)
Definition metadata_keys : list str :=
  [lit "story_title"; lit "categories"; lit "filterTags"; lit "story_uid";
   lit "story_link"; lit "storyhtmlurl"; lit "urlslug";
   lit "cover_image_link"; lit "publisher_id"; lit "story_logo_link";
   lit "keywords"; lit "metadescription"; lit "lang"].

(** ** Documents with wrapped URLs *)

Inductive attr_name : Type := Href | Src.

Definition attr_str (a : attr_name) : str :=
  match a with Href => lit "href" | Src => lit "src" end.

(** A document as a sequence of pieces: a character, or an attribute
    whose URL is wrapped in braces, [attr="{https://x}"]. *)
Inductive piece : Type :=
| Plain (c : ascii)
| Wrapped (a : attr_name) (x : str).

Definition wrapped (a : attr_name) (x : str) : str :=
  attr_str a ++ lit "=" ++ dq ++ lit "{https://" ++ x ++ lit "}" ++ dq.

Definition unwrapped (a : attr_name) (x : str) : str :=
  attr_str a ++ lit "=" ++ dq ++ lit "https://" ++ x ++ dq.

Definition render_piece (p : piece) : str :=
  match p with Plain c => [c] | Wrapped a x => wrapped a x end.

Definition cleaned_piece (p : piece) : str :=
  match p with Plain c => [c] | Wrapped a x => unwrapped a x end.

Definition render (d : list piece) : str := flat_map render_piece d.
Definition cleaned (d : list piece) : str := flat_map cleaned_piece d.

(** One pass of the cleanup, for the attribute [a]. *)
Definition pass (a : attr_name) (text : str) : str :=
  Re.sub_go Re.no_flags (artifact_pattern (attr_str a))
    (artifact_repl (attr_str a)) 0 None 0 text.

Definition same_attr (a b : attr_name) : bool :=
  match a, b with Href, Href | Src, Src => true | _, _ => false end.

(** What a pass for [a] makes of a piece. *)
Definition pass_piece (a : attr_name) (p : piece) : str :=
  match p with
  | Plain c => [c]
  | Wrapped b x => if same_attr a b then unwrapped b x else wrapped b x
  end.

(** The document after a pass for [a]: the pieces it unwrapped are now
    plain characters. *)
Definition settle_piece (a : attr_name) (p : piece) : list piece :=
  match p with
  | Plain c => [p]
  | Wrapped b x => if same_attr a b then map Plain (unwrapped b x) else [p]
  end.

Definition settle (a : attr_name) (d : list piece) : list piece :=
  flat_map (settle_piece a) d.

(** The opening of a wrapped attribute, up to the brace. *)
Definition opening (attr : str) : str := attr ++ lit "=" ++ dq ++ lit "{".

(** The matcher state [n] characters further on. *)
Fixpoint advance (n : nat) (st : Re.mstate) : Re.mstate :=
  match n with
  | O => st
  | S n' =>
      match Re.rest st with
      | [] => st
      | c :: s =>
          advance n' (Re.MState (S (Re.pos st)) (Some c) s (Re.caps st))
      end
  end.

(** The character before the position reached after [u]. *)
Definition prev_after (pv : option ascii) (u : str) : option ascii :=
  match last u with Some c => Some c | None => pv end.

(** The body of the repetition in the artifact patterns: [[^}]]. *)
Definition not_brace
  : Re.mstate -> (Re.mstate -> option Re.mstate) -> option Re.mstate :=
  Re.m Re.no_flags (Re.NotIn (lit "}")).

(** The scan of one pass, from any position. *)
Abbreviation go a i pv skip s :=
  (Re.sub_go Re.no_flags (artifact_pattern (attr_str a))
     (artifact_repl (attr_str a)) i pv skip s).

(** What every wrapped attribute of the name [a] begins with: the name,
    the equals sign, a double quote and [{https://]. *)
Definition wrapper_start (a : attr_name) : str :=
  opening (attr_str a) ++ lit "https://".

(** The URL of a wrapped attribute is one that the patterns take: not
    empty, without a closing brace. *)
Definition unwrappable (p : piece) : Prop :=
  match p with
  | Plain _ => True
  | Wrapped _ x => x <> [] /\ "}"%char ∉ x
  end.

(** The characters of a document, each with a mark that tells whether it
    is a brace of a wrapper. *)
Definition unmarked (s : str) : list (ascii * bool) :=
  map (fun c => (c, false)) s.

Definition marked_piece (p : piece) : list (ascii * bool) :=
  match p with
  | Plain c => [(c, false)]
  | Wrapped a x =>
      unmarked (attr_str a ++ lit "=" ++ dq) ++ [("{"%char, true)]
      ++ unmarked (lit "https://" ++ x) ++ [("}"%char, true)]
      ++ unmarked dq
  end.

Definition marked (d : list piece) : list (ascii * bool) :=
  flat_map marked_piece d.

Definition kept (m : list (ascii * bool)) : list (ascii * bool) :=
  List.filter (fun cb => negb (snd cb)) m.

(** A document with braces of its own: a style rule, a placeholder left in
    place, and two wrapped attributes. *)
Definition styled_document : list piece :=
  map Plain (lit "<style>a{}</style><meta content=" ++ dq ++ lit "{{image0}}"
             ++ dq ++ lit "><a ")
  ++ [Wrapped Href (lit "media.suvichaar.org/e30=")]
  ++ map Plain (lit "><img ") ++ [Wrapped Src (lit "b")]
  ++ map Plain (lit ">").

(** A text on which a second cleanup still changes something. *)
Definition nested_text : str :=
  lit "src=" ++ dq ++ lit "{https://ahref=}" ++ dq ++ lit "{https://b}" ++ dq.

(** ** Notions used by the further properties *)

(** Every event of the computation satisfies [P]. *)
Definition emits_only {A} (P : event -> Prop) (c : M A) : Prop :=
  Forall P (fst c).

Definition not_s3_put (e : event) : Prop :=
  match e with S3Put _ _ _ _ => False | _ => True end.

(** The extensions an uploaded image may keep. *)
Definition allowed_extensions : list str :=
  [lit ".jpg"; lit ".jpeg"; lit ".png"; lit ".gif"].

(** The text-generation requests in a trace. *)
Definition chat_requests (t : list event) : list str :=
  flat_map (fun e => match e with ChatCompletion x => [x] | _ => [] end) t.

(** The identifiers and the stored document of the example submission. *)
Definition demo_ids : identifiers :=
  match snd (make_identifiers demo_world form_without_image) with
  | Ok ids => ids
  | Raise _ => Identifiers [] [] [] [] []
  end.

Definition demo_body : str :=
  match demo_archive with
  | (_, PText h) :: _ => h
  | _ => []
  end.

(** A submission whose title was left empty. *)
Definition form_without_title : form :=
  {| story_title := [];
     meta_description := lit "A story";
     meta_keywords := lit "a, b";
     content_type := lit "News";
     language := lit "en-US";
     image_url := lit "https://example.org/a.png";
     html_file := None;
     categories := lit "Food";
     tag_input := lit "x, y";
     use_custom_cover := false;
     custom_cover_url := [] |}.

(** A world whose text generation answers with a fenced block. *)
Definition fenced_world : world :=
  {| w_rng := fun _ => 0;
     w_choice := 0;
     w_now := fun _ => lit "2025-01-01T00:00:00+00:00";
     w_uuid_hex := lit "0123456789abcdef0123456789abcdef";
     w_url_path := fun _ => Ok (lit "/a.png");
     w_http_get := fun _ => Ok (lit "PNG", None);
     w_s3_put := fun _ _ => Ok tt;
     w_template := Ok demo_template;
     w_resize_token := fun _ _ _ _ => lit "e30=";
     w_chat := fun _ => Ok (lit "```json {} ```");
     w_json_loads :=
       fun _ => Ok (JObj [(lit "meta_description", JStr (lit " A story. "));
                          (lit "meta_keywords", JStr (lit "a, b ,,c"));
                          (lit "filter_tags",
                           JList [JStr (lit "x "); JStr (lit "y")])]);
     w_py_str := fun _ => [];
     bucket_name := lit "media-bucket";
     s3_prefix_secret := lit "media";
     cdn_base_url := lit "https://cdn.example/" |}.

(** An item of a comma-separated field as the form keeps it: not empty,
    without a comma, without surrounding whitespace. *)
Definition clean_item (x : str) : Prop :=
  x <> [] /\ (","%char ∉ x) /\ Py.strip x = x.

Definition is_brace (c : ascii) : bool := Py.char_in c (lit "{}").

(** The matcher went from [st] to [st1] by consuming [u]. *)
Definition consumed (st st1 : Re.mstate) (u : str) : Prop :=
  Re.rest st = u ++ Re.rest st1 /\ Re.pos st1 = Re.pos st + length u.

(** Patterns without groups. *)
Fixpoint groupless (r : Re.regex) : bool :=
  match r with
  | Re.Group _ _ => false
  | Re.Seq r1 r2 | Re.Alt r1 r2 => groupless r1 && groupless r2
  | Re.Star _ r1 | Re.Plus _ r1 => groupless r1
  | _ => true
  end.

(** What is asked of the body of a repetition: when it matches, the
    continuation was entered from a later state with the same groups. *)
Definition reaching
    (body : Re.mstate -> (Re.mstate -> option Re.mstate)
            -> option Re.mstate) : Prop :=
  forall st k res,
    body st k = Some res ->
    exists st1 u,
      consumed st st1 u /\ Re.caps st1 = Re.caps st /\ k st1 = Some res.

(** A field holds a character other than white space. *)
Definition has_text (s : str) : Prop :=
  exists c, c ∈ s /\ Py.is_space c = false.

(** The opening tag of the story container stands at index [i] of [t]:
    [<amp-story], not followed by a word character, then characters other
    than [>], then [>]. *)
Definition opening_tag_at (t : str) (i : nat) (tag : str) : Prop :=
  exists attrs,
    tag = lit "<amp-story" ++ attrs ++ lit ">"
    /\ occurs_at tag t i
    /\ (">"%char ∉ attrs)
    /\ Re.word_opt (head attrs) = false.

(** * Properties *)

(** ** Strings *)

Lemma last_rev {A} (l : list A) : last (rev l) = head l.
Proof. destruct l as [|a l]; [reflexivity|]. simpl. apply last_snoc. Qed.

Section Strip.
Variable f : ascii -> bool.

Lemma dropwhile_split (s : str) :
  exists p, s = p ++ Py.dropwhile f s /\ Forall (fun c => f c = true) p.
Proof.
  induction s as [|c s IH]; simpl.
  - exists []. split; [reflexivity | constructor].
  - destruct (f c) eqn:Hc.
    + destruct IH as (p & Hp & Hall). exists (c :: p). split.
      * simpl. congruence.
      * constructor; assumption.
    + exists []. split; [reflexivity | constructor].
Qed.

Lemma dropwhile_head (s : str) (c : ascii) :
  head (Py.dropwhile f s) = Some c -> f c = false.
Proof.
  induction s as [|a s IH]; simpl; [discriminate|].
  destruct (f a) eqn:Ha; [exact IH|].
  simpl. intros [= <-]. exact Ha.
Qed.

Lemma dropwhile_fixed (s : str) :
  (forall c, head s = Some c -> f c = false) -> Py.dropwhile f s = s.
Proof.
  destruct s as [|a s]; [reflexivity|]. simpl. intros H.
  rewrite (H a eq_refl). reflexivity.
Qed.

Lemma rstrip_by_split (s : str) :
  exists q, s = Py.rstrip_by f s ++ q.
Proof.
  unfold Py.rstrip_by.
  destruct (dropwhile_split (rev s)) as (p & Hp & _).
  exists (rev p). rewrite <- rev_app_distr, <- Hp, rev_involutive.
  reflexivity.
Qed.

Lemma rstrip_by_last (s : str) (c : ascii) :
  last (Py.rstrip_by f s) = Some c -> f c = false.
Proof.
  unfold Py.rstrip_by. rewrite last_rev. apply dropwhile_head.
Qed.

Lemma strip_by_split (s : str) :
  exists p q, s = p ++ Py.strip_by f s ++ q.
Proof.
  unfold Py.strip_by, Py.lstrip_by.
  destruct (dropwhile_split s) as (p & Hp & _).
  destruct (rstrip_by_split (Py.dropwhile f s)) as (q & Hq).
  exists p, q. rewrite <- Hq. exact Hp.
Qed.

Lemma strip_by_last (s : str) (c : ascii) :
  last (Py.strip_by f s) = Some c -> f c = false.
Proof. apply rstrip_by_last. Qed.

Lemma strip_by_head (s : str) (c : ascii) :
  head (Py.strip_by f s) = Some c -> f c = false.
Proof.
  unfold Py.strip_by, Py.lstrip_by. intros H.
  destruct (rstrip_by_split (Py.dropwhile f s)) as (q & Hq).
  apply (dropwhile_head s). rewrite Hq.
  destruct (Py.rstrip_by f (Py.dropwhile f s)); [discriminate | exact H].
Qed.

Lemma strip_by_fixed (s : str) :
  (forall c, head s = Some c -> f c = false) ->
  (forall c, last s = Some c -> f c = false) ->
  Py.strip_by f s = s.
Proof.
  intros Hh Hl. unfold Py.strip_by, Py.lstrip_by, Py.rstrip_by.
  rewrite (dropwhile_fixed s Hh).
  rewrite dropwhile_fixed; [apply rev_involutive|].
  intros c Hc. apply Hl. rewrite <- (rev_involutive s), last_rev.
  exact Hc.
Qed.

Lemma strip_by_Forall (P : ascii -> Prop) (s : str) :
  Forall P s -> Forall P (Py.strip_by f s).
Proof.
  intros H. destruct (strip_by_split s) as (p & q & Hs).
  rewrite Hs in H.
  apply Forall_app in H as [_ H]. apply Forall_app in H as [H _].
  exact H.
Qed.
End Strip.

Lemma char_in_spec (c : ascii) (s : str) :
  Py.char_in c s = true <-> c ∈ s.
Proof.
  unfold Py.char_in. rewrite existsb_exists. split.
  - intros (x & Hx & He). apply Ascii.eqb_eq in He. subst.
    apply list_elem_of_In. exact Hx.
  - intros H. exists c. split; [apply list_elem_of_In; exact H|].
    apply Ascii.eqb_refl.
Qed.

Lemma replace_char_absent (c0 : ascii) (new s : str) :
  c0 ∉ s -> Py.replace [c0] new s = s.
Proof.
  unfold Py.replace. induction s as [|c s IH]; [reflexivity|].
  intros Hn. apply not_elem_of_cons in Hn as [Hne Hn].
  cbn [Py.replace_go Py.startswith].
  destruct (Ascii.eqb c0 c) eqn:He.
  - apply Ascii.eqb_eq in He. congruence.
  - simpl. rewrite (IH Hn). reflexivity.
Qed.

(** ** Identifier generator *)

Lemma slug_of_chars (title : str) :
  Forall (fun c => c ∈ slug_alphabet) (slug_of title).
Proof.
  unfold slug_of, Py.strip_chars. apply strip_by_Forall.
  apply Forall_forall. intros c Hc.
  apply list_elem_of_filter in Hc as [Hc _].
  apply char_in_spec, Is_true_true. exact Hc.
Qed.

Lemma slug_of_head (title : str) : head (slug_of title) <> Some "-"%char.
Proof.
  intros H. apply (strip_by_head hyphen) in H. discriminate H.
Qed.

Lemma slug_of_last (title : str) : last (slug_of title) <> Some "-"%char.
Proof.
  intros H. apply (strip_by_last hyphen) in H. discriminate H.
Qed.

Lemma lower_slug_char (c : ascii) :
  c ∈ slug_alphabet -> Py.lower_char c = c.
Proof.
  assert (Hall : forallb (fun c => Ascii.eqb (Py.lower_char c) c)
                   slug_alphabet = true) by (vm_compute; reflexivity).
  intros Hc. apply list_elem_of_In in Hc.
  apply Ascii.eqb_eq. exact (proj1 (forallb_forall _ _) Hall c Hc).
Qed.

Lemma filter_fixed (P : ascii -> Prop) `{!forall c, Decision (P c)} (s : str) :
  Forall P s -> filter P s = s.
Proof.
  induction 1 as [|c s Hc _ IH]; [reflexivity|].
  rewrite filter_cons_True by exact Hc. congruence.
Qed.

Lemma lower_slug_chars (s : str) :
  Forall (fun c => c ∈ slug_alphabet) s -> Py.lower s = s.
Proof.
  unfold Py.lower. induction 1 as [|c s Hc _ IH]; [reflexivity|].
  simpl. rewrite (lower_slug_char c Hc), IH. reflexivity.
Qed.

(** A string in normal form is left as it is. *)
Lemma slug_of_fixed (s : str) :
  Forall (fun c => c ∈ slug_alphabet) s ->
  head s <> Some "-"%char -> last s <> Some "-"%char ->
  slug_of s = s.
Proof.
  intros Hall Hh Hl. unfold slug_of.
  assert (Hlow : Py.lower s = s) by (apply lower_slug_chars; exact Hall).
  assert (Hno : forall c0, Py.char_in c0 slug_alphabet = false -> c0 ∉ s).
  { intros c0 H0 Hin. rewrite Forall_forall in Hall.
    apply Hall, char_in_spec in Hin. congruence. }
  rewrite Hlow.
  change (lit " ") with [" "%char].
  rewrite (replace_char_absent " " (lit "-") s) by (apply Hno; reflexivity).
  change (lit "_") with ["_"%char].
  rewrite (replace_char_absent "_" (lit "-") s) by (apply Hno; reflexivity).
  rewrite filter_fixed.
  - apply (strip_by_fixed hyphen).
    + intros c Hc. destruct (hyphen c) eqn:E; [|reflexivity].
      apply char_in_spec, list_elem_of_singleton in E. congruence.
    + intros c Hc. destruct (hyphen c) eqn:E; [|reflexivity].
      apply char_in_spec, list_elem_of_singleton in E. congruence.
  - eapply Forall_impl; [exact Hall|]. intros c Hc.
    apply Is_true_true. apply char_in_spec. exact Hc.
Qed.

Lemma slug_of_idempotent (title : str) :
  slug_of (slug_of title) = slug_of title.
Proof.
  apply slug_of_fixed;
    [apply slug_of_chars | apply slug_of_head | apply slug_of_last].
Qed.

Lemma generate_slug_and_urls_ok (rng : nat -> nat) (title : str) :
  title <> [] ->
  generate_slug_and_urls rng title
  = Ok (nano_of rng,
        slug_of title ++ lit "_" ++ nano_of rng,
        lit "https://suvichaar.org/stories/"
          ++ slug_of title ++ lit "_" ++ nano_of rng,
        lit "https://stories.suvichaar.org/"
          ++ (slug_of title ++ lit "_" ++ nano_of rng) ++ lit ".html").
Proof.
  intros Hne. unfold generate_slug_and_urls.
  destruct title; [congruence | reflexivity].
Qed.

(** C4. For a non-empty title made of letters, digits, spaces, underscores
    and hyphens, the slug that [generate_slug_and_urls] puts in front of the
    composite identifier contains only characters of a-z, 0-9 and the
    hyphen, neither starts nor ends with a hyphen, and is a fixed point of
    the slug normalization.  (The restriction on the characters of the
    title is the claim's; [slug_of_chars], [slug_of_head], [slug_of_last]
    and [slug_of_idempotent] hold for every title.) *)
Theorem slug_is_normal_and_idempotent (rng : nat -> nat) (title : str) :
  title <> [] ->
  Forall (fun c => c ∈ title_alphabet) title ->
  exists suffix link html_url,
    generate_slug_and_urls rng title
    = Ok (suffix, slug_of title ++ lit "_" ++ suffix, link, html_url)
    /\ Forall (fun c => c ∈ slug_alphabet) (slug_of title)
    /\ head (slug_of title) <> Some "-"%char
    /\ last (slug_of title) <> Some "-"%char
    /\ slug_of (slug_of title) = slug_of title.
Proof.
  intros Hne _. eexists _, _, _. split.
  - apply generate_slug_and_urls_ok. exact Hne.
  - auto using slug_of_chars, slug_of_head, slug_of_last, slug_of_idempotent.
Qed.

Lemma slug_is_normal_and_idempotent_witness :
  exists suffix link html_url,
    generate_slug_and_urls (fun _ => 0) (lit "My_Test Story-2")
    = Ok (suffix, slug_of (lit "My_Test Story-2") ++ lit "_" ++ suffix,
          link, html_url)
    /\ Forall (fun c => c ∈ slug_alphabet) (slug_of (lit "My_Test Story-2"))
    /\ head (slug_of (lit "My_Test Story-2")) <> Some "-"%char
    /\ last (slug_of (lit "My_Test Story-2")) <> Some "-"%char
    /\ slug_of (slug_of (lit "My_Test Story-2")) = slug_of (lit "My_Test Story-2").
Proof.
  apply (slug_is_normal_and_idempotent (fun _ => 0) (lit "My_Test Story-2")).
  - discriminate.
  - apply Forall_forall. intros c Hc. apply char_in_spec.
    apply list_elem_of_In in Hc.
    assert (Hall : forallb (fun c => Py.char_in c title_alphabet)
                     (lit "My_Test Story-2") = true) by reflexivity.
    exact (proj1 (forallb_forall _ _) Hall c Hc).
Defined.

Example slug_of_example :
  slug_of (lit "  My_Test Story-2! ") = lit "my-test-story-2".
Proof. vm_compute. reflexivity. Qed.

Lemma random_choices_length (rng : nat -> nat) (pop : str) (k : nat) :
  length (random_choices rng pop k) = k.
Proof. unfold random_choices. rewrite length_map, length_seq. reflexivity. Qed.

Lemma random_choices_in (rng : nat -> nat) (pop : str) (k : nat) :
  pop <> [] -> Forall (fun c => c ∈ pop) (random_choices rng pop k).
Proof.
  intros Hne. apply Forall_forall. intros c Hc.
  apply list_elem_of_In, in_map_iff in Hc as (i & <- & _).
  apply list_elem_of_In, nth_In, Nat.mod_upper_bound.
  destruct pop; [congruence | discriminate].
Qed.

(** C3, as the code has it.  For every non-empty title the suffix is ten
    characters drawn from letters, digits, underscore and hyphen followed by
    the two-character marker [_G], twelve characters in all, and the
    composite identifier is slug, underscore, suffix. *)
Theorem suffix_has_twelve_characters (rng : nat -> nat) (title : str) :
  title <> [] ->
  exists drawn suffix link html_url,
    generate_slug_and_urls rng title
    = Ok (suffix, slug_of title ++ lit "_" ++ suffix, link, html_url)
    /\ suffix = drawn ++ lit "_G"
    /\ length drawn = 10
    /\ Forall (fun c => c ∈ nano_alphabet) drawn
    /\ length suffix = 12.
Proof.
  intros Hne.
  exists (random_choices rng nano_alphabet 10), (nano_of rng). eexists _, _.
  split; [apply generate_slug_and_urls_ok; exact Hne|].
  split; [reflexivity|]. split; [apply random_choices_length|].
  split; [apply random_choices_in; discriminate|].
  unfold nano_of. rewrite length_app, random_choices_length. reflexivity.
Qed.

Lemma suffix_has_twelve_characters_witness :
  exists drawn suffix link html_url,
    generate_slug_and_urls (fun i => 7 * i) (lit "Test Story")
    = Ok (suffix, slug_of (lit "Test Story") ++ lit "_" ++ suffix,
          link, html_url)
    /\ suffix = drawn ++ lit "_G"
    /\ length drawn = 10
    /\ Forall (fun c => c ∈ nano_alphabet) drawn
    /\ length suffix = 12.
Proof.
  apply (suffix_has_twelve_characters (fun i => 7 * i) (lit "Test Story")).
  discriminate.
Defined.

(** C3, as stated, fails: on the title "Test Story" the suffix returned is
    not eleven characters long. *)
Lemma suffix_is_not_eleven_characters :
  exists suffix composite link html_url,
    generate_slug_and_urls (fun _ => 0) (lit "Test Story")
    = Ok (suffix, composite, link, html_url)
    /\ suffix = lit "aaaaaaaaaa_G"
    /\ length suffix <> 11.
Proof.
  eexists _, _, _, _. split; [vm_compute; reflexivity|].
  split; [reflexivity|]. vm_compute. discriminate.
Qed.

(** ** Category enumeration *)

Lemma category_names_eq :
  category_names
  = [lit "Art"; lit "Travel"; lit "Entertainment"; lit "Literature";
     lit "Books"; lit "Sports"; lit "History"; lit "Culture";
     lit "Wildlife"; lit "Spiritual"; lit "Food"].
Proof. reflexivity. Qed.

Lemma subscript_Ok {V} (d : gmap str V) (key : str) (v : V) :
  subscript d key = Ok v <-> d !! key = Some v.
Proof.
  unfold subscript. destruct (d !! key); split; congruence.
Qed.

Ltac split_elem H :=
  repeat (apply elem_of_cons in H as [H|H]);
  try (apply elem_of_nil in H; contradiction).

(** C5. Each of the eleven category names is mapped to an integer of 1..11,
    two names are never mapped to the same integer, and the lookup of any
    other name raises [KeyError]. *)
Theorem category_lookup_is_injective_and_strict :
  length category_names = 11
  /\ (forall name, name ∈ category_names ->
        exists n, subscript category_mapping name = Ok n
                  /\ (1 <= n <= 11)%Z)
  /\ (forall a b n, subscript category_mapping a = Ok n ->
                    subscript category_mapping b = Ok n -> a = b)
  /\ (forall name, name ∉ category_names ->
        subscript category_mapping name = Raise (KeyError name)).
Proof.
  split; [reflexivity|]. split; [|split].
  - intros name Hin. rewrite category_names_eq in Hin.
    split_elem Hin; subst name; eexists; (split; [vm_compute; reflexivity|lia]).
  - intros a b n Ha Hb.
    apply subscript_Ok, elem_of_list_to_map_2 in Ha.
    apply subscript_Ok, elem_of_list_to_map_2 in Hb.
    unfold category_pairs in Ha, Hb.
    split_elem Ha; simplify_eq; split_elem Hb; simplify_eq; reflexivity.
  - intros name Hn. unfold subscript, category_mapping.
    rewrite (not_elem_of_list_to_map_1 category_pairs name); [reflexivity|].
    exact Hn.
Qed.

(** ** Extraction of the JSON block *)

Lemma object_pattern_does_not_compile (fl : Re.flags) (text : str) :
  Re.search fl object_pattern text
  = Raise (ReError (lit "unknown extension ?1") 13).
Proof. reflexivity. Qed.

(** Whenever the text is not empty and holds no fenced block, the second
    pattern is reached and its compilation raises. *)
Lemma extract_json_block_unfenced (text : str) :
  text <> [] ->
  Re.search (Re.Flags true true) fenced_pattern text = Ok None ->
  extract_json_block text = Raise (ReError (lit "unknown extension ?1") 13).
Proof.
  intros Hne Hs. unfold extract_json_block. rewrite Hs.
  destruct text; [congruence | reflexivity].
Qed.

(** The error as the operator reads it in the warning. *)
Example regex_error_message :
  exn_str (ReError (lit "unknown extension ?1") 13)
  = lit "unknown extension ?1 at position 13".
Proof. vm_compute. reflexivity. Qed.

Lemma extract_json_block_fenced (text : str) (mt : Re.mtch) :
  text <> [] ->
  Re.search (Re.Flags true true) fenced_pattern text = Ok (Some mt) ->
  extract_json_block text = Ok (Py.strip (Re.group 1 mt)).
Proof.
  intros Hne Hs. unfold extract_json_block. rewrite Hs.
  destruct text; [congruence | reflexivity].
Qed.

Example extract_fenced :
  extract_json_block
    (lit "Sure: ```JSON" ++ nl ++ lit "{" ++ dq ++ lit "a" ++ dq
     ++ lit ": {}}" ++ nl ++ lit "``` done")
  = Ok (lit "{" ++ dq ++ lit "a" ++ dq ++ lit ": {}}").
Proof. vm_compute. reflexivity. Qed.

(** C2 at its failing inputs: an object embedded in prose and a plain text
    without braces both make [extract_json_block] raise [re.error], where
    the claim has it return the object, respectively the stripped text. *)
Theorem extract_json_block_raises_without_fence :
  extract_json_block (lit "Here is {" ++ dq ++ lit "a" ++ dq ++ lit ": 1} ok")
  = Raise (ReError (lit "unknown extension ?1") 13)
  /\ extract_json_block (lit " hello ")
     = Raise (ReError (lit "unknown extension ?1") 13).
Proof. split; vm_compute; reflexivity. Qed.

(** ** The session and the title input *)

(** C9. When the generation for a newly entered title raises, the last
    seen title becomes the new title, the three stored fields keep their
    values, and entering the same title again starts no generation. *)
Theorem failed_generation_still_records_title
    (w : world) (ss : session) (title : str) (e : exn) :
  Py.strip title <> [] ->
  title <> last_title ss ->
  snd (generate_metadata w (Py.strip title)) = Raise e ->
  let ss' := snd (on_title w ss title) in
  last_title ss' = title
  /\ ss_meta_description ss' = ss_meta_description ss
  /\ ss_meta_keywords ss' = ss_meta_keywords ss
  /\ generated_filter_tags ss' = generated_filter_tags ss
  /\ on_title w ss' title = ([], ss').
Proof.
  intros Hne Hnew Hgen.
  assert (Ht : Py.truthy (Py.strip title) = true)
    by (destruct (Py.strip title); [congruence | reflexivity]).
  assert (Hstep :
    on_title w ss title
    = (fst (generate_metadata w (Py.strip title))
         ++ [UiWarning (lit "Metadata generation failed: " ++ exn_str e)],
       Session title (ss_meta_description ss) (ss_meta_keywords ss)
         (generated_filter_tags ss))).
  { unfold on_title. rewrite Ht, bool_decide_false by exact Hnew.
    destruct (generate_metadata w (Py.strip title)) as [t r].
    simpl in Hgen. subst r. reflexivity. }
  rewrite Hstep. cbn [snd last_title ss_meta_description ss_meta_keywords
                      generated_filter_tags].
  repeat (split; [reflexivity|]).
  unfold on_title. cbn [last_title]. rewrite bool_decide_true by reflexivity.
  rewrite andb_false_r. reflexivity.
Qed.

Lemma failed_generation_still_records_title_witness :
  let ss' := snd (on_title demo_world session_defaults (lit "Hi")) in
  last_title ss' = lit "Hi"
  /\ ss_meta_description ss' = ss_meta_description session_defaults
  /\ ss_meta_keywords ss' = ss_meta_keywords session_defaults
  /\ generated_filter_tags ss' = generated_filter_tags session_defaults
  /\ on_title demo_world ss' (lit "Hi") = ([], ss').
Proof.
  apply (failed_generation_still_records_title demo_world session_defaults
           (lit "Hi") (ReError (lit "unknown extension ?1") 13)).
  - vm_compute. discriminate.
  - vm_compute. discriminate.
  - vm_compute. reflexivity.
Defined.

(** ** Searching a literal: [find] and [rfind] *)

Lemma startswith_spec (p s : str) :
  Py.startswith p s = true <-> exists r, s = p ++ r.
Proof.
  revert s. induction p as [|a p IH]; intros s; simpl.
  - split; [intros _; exists s; reflexivity | reflexivity].
  - destruct s as [|b s].
    + split; [discriminate | intros (r & Hr); discriminate].
    + rewrite andb_true_iff, Ascii.eqb_eq, IH. split.
      * intros (-> & r & ->). exists r. reflexivity.
      * intros (r & Hr). injection Hr as -> ->. eauto.
Qed.

Lemma occurs_at_0 (sub s : str) :
  occurs_at sub s 0 <-> Py.startswith sub s = true.
Proof.
  rewrite startswith_spec. split.
  - intros (pre & post & -> & Hl). destruct pre; [|discriminate].
    exists post. reflexivity.
  - intros (r & ->). exists [], r. split; reflexivity.
Qed.

Lemma occurs_at_S (sub : str) (c : ascii) (s : str) (i : nat) :
  occurs_at sub (c :: s) (S i) <-> occurs_at sub s i.
Proof.
  split.
  - intros (pre & post & Hs & Hl). destruct pre as [|a pre]; [discriminate|].
    injection Hs as -> ->. injection Hl as <-. exists pre, post. auto.
  - intros (pre & post & -> & <-). exists (c :: pre), post. auto.
Qed.

Lemma occurs_at_nil (sub : str) (i : nat) :
  occurs_at sub [] i -> i = 0.
Proof.
  intros (pre & post & Hs & <-). destruct pre; [reflexivity | discriminate].
Qed.

Lemma occurs_at_bound (sub s : str) (i : nat) :
  occurs_at sub s i -> i + length sub <= length s.
Proof.
  intros (pre & post & -> & <-). rewrite !length_app. lia.
Qed.

Lemma find_from_spec (sub s : str) (k : nat) :
  (Py.find_from sub s k = (-1)%Z /\ forall i, ~ occurs_at sub s i)
  \/ (exists i, Py.find_from sub s k = Z.of_nat (k + i)
                /\ first_occurrence sub s i).
Proof.
  revert k. induction s as [|c s IH]; intros k; simpl.
  - destruct (Py.startswith sub []) eqn:E.
    + right. exists 0. rewrite Nat.add_0_r. split; [reflexivity|].
      split; [apply occurs_at_0; exact E | intros j Hj; lia].
    + left. split; [reflexivity|]. intros i Hi.
      pose proof (occurs_at_nil _ _ Hi) as ->.
      apply occurs_at_0 in Hi. congruence.
  - destruct (Py.startswith sub (c :: s)) eqn:E.
    + right. exists 0. rewrite Nat.add_0_r. split; [reflexivity|].
      split; [apply occurs_at_0; exact E | intros j Hj; lia].
    + destruct (IH (S k)) as [[Hf Hno] | (i & Hf & Ho & Hmin)].
      * left. split; [exact Hf|]. intros [|i] Hi.
        -- apply occurs_at_0 in Hi. congruence.
        -- apply occurs_at_S in Hi. exact (Hno i Hi).
      * right. exists (S i). split; [rewrite Hf; f_equal; lia|].
        split; [apply occurs_at_S; exact Ho|].
        intros [|j] Hj Hoc.
        -- apply occurs_at_0 in Hoc. congruence.
        -- apply occurs_at_S in Hoc. apply (Hmin j); [lia | exact Hoc].
Qed.

Lemma rfind_from_spec (sub s : str) (k : nat) :
  (Py.rfind_from sub s k = (-1)%Z /\ forall i, ~ occurs_at sub s i)
  \/ (exists i, Py.rfind_from sub s k = Z.of_nat (k + i)
                /\ last_occurrence sub s i).
Proof.
  revert k. induction s as [|c s IH]; intros k; simpl.
  - destruct (Py.startswith sub []) eqn:E.
    + right. exists 0. rewrite Nat.add_0_r. split; [reflexivity|].
      split; [apply occurs_at_0; exact E|].
      intros j Hj Hoc. apply occurs_at_nil in Hoc. lia.
    + left. split; [reflexivity|]. intros i Hi.
      pose proof (occurs_at_nil _ _ Hi) as ->.
      apply occurs_at_0 in Hi. congruence.
  - destruct (IH (S k)) as [[Hf Hno] | (i & Hf & Ho & Hmax)]; rewrite Hf.
    + simpl. destruct (Py.startswith sub (c :: s)) eqn:E.
      * right. exists 0. rewrite Nat.add_0_r. split; [reflexivity|].
        split; [apply occurs_at_0; exact E|].
        intros [|j] Hj Hoc; [lia|]. apply occurs_at_S in Hoc.
        exact (Hno j Hoc).
      * left. split; [reflexivity|]. intros [|i] Hi.
        -- apply occurs_at_0 in Hi. congruence.
        -- apply occurs_at_S in Hi. exact (Hno i Hi).
    + replace (Z.of_nat (S k + i) =? -1)%Z with false
        by (symmetry; apply Z.eqb_neq; lia).
      right. exists (S i). split; [f_equal; lia|].
      split; [apply occurs_at_S; exact Ho|].
      intros [|j] Hj Hoc; [lia|]. apply occurs_at_S in Hoc.
      apply (Hmax j); [lia | exact Hoc].
Qed.

Lemma find_first (sub s : str) (i : nat) :
  first_occurrence sub s i <-> Py.find sub s = Z.of_nat i.
Proof.
  unfold Py.find.
  destruct (find_from_spec sub s 0) as [[Hf Hno] | (i' & Hf & Ho & Hmin)];
    rewrite Hf; simpl.
  - split; [intros [Ho _]; destruct (Hno i Ho) | lia].
  - split.
    + intros [Ho' Hmin']. f_equal.
      destruct (Nat.lt_trichotomy i i') as [H | [H | H]];
        [destruct (Hmin i H Ho') | exact (eq_sym H) | destruct (Hmin' i' H Ho)].
    + intros H. apply Nat2Z.inj in H. subst i'. split; assumption.
Qed.

Lemma rfind_last (sub s : str) (i : nat) :
  last_occurrence sub s i <-> Py.rfind sub s = Z.of_nat i.
Proof.
  unfold Py.rfind.
  destruct (rfind_from_spec sub s 0) as [[Hf Hno] | (i' & Hf & Ho & Hmax)];
    rewrite Hf; simpl.
  - split; [intros [Ho _]; destruct (Hno i Ho) | lia].
  - split.
    + intros [Ho' Hmax']. f_equal.
      destruct (Nat.lt_trichotomy i i') as [H | [H | H]];
        [destruct (Hmax' i' H Ho) | exact (eq_sym H) | destruct (Hmax i H Ho')].
    + intros H. apply Nat2Z.inj in H. subst i'. split; assumption.
Qed.

Lemma clamp_nat (len n : nat) : Py.clamp len (Z.of_nat n) = Nat.min n len.
Proof.
  unfold Py.clamp. destruct (Z.ltb_spec (Z.of_nat n) 0); [lia|].
  rewrite Nat2Z.id. reflexivity.
Qed.

Lemma slice_nat {A} (a b : nat) (s : list A) :
  a <= length s -> b <= length s ->
  Py.slice (Z.of_nat a) (Z.of_nat b) s = take (b - a) (drop a s).
Proof.
  intros Ha Hb. unfold Py.slice. rewrite !clamp_nat.
  rewrite !Nat.min_l by assumption. reflexivity.
Qed.

(** What [extract_amp_story] returns once both literals occur. *)
Lemma extract_amp_story_found (raw : str) (i j : nat) :
  first_occurrence amp_page_open raw i ->
  last_occurrence amp_page_close raw j ->
  extract_amp_story raw
  = ([], Ok (take (j + length amp_page_close - i) (drop i raw))).
Proof.
  intros Hi Hj.
  pose proof (occurs_at_bound _ _ _ (proj1 Hi)) as Hbi.
  pose proof (occurs_at_bound _ _ _ (proj1 Hj)) as Hbj.
  apply find_first in Hi. apply rfind_last in Hj.
  unfold extract_amp_story. rewrite Hi, Hj.
  replace (Z.of_nat i =? -1)%Z with false by (symmetry; apply Z.eqb_neq; lia).
  replace (Z.of_nat j =? -1)%Z with false by (symmetry; apply Z.eqb_neq; lia).
  cbn [negb andb]. unfold Py.len. rewrite <- Nat2Z.inj_add.
  rewrite slice_nat by lia. reflexivity.
Qed.

(** C7, as the code has it.  When the first opening literal starts at or
    before the last closing literal, the fragment is the part of the
    document from the first occurrence of the opening literal to the end of
    the last occurrence of the closing literal, and no warning is given. *)
Theorem story_pages_span_first_to_last (raw : str) (i j : nat) :
  first_occurrence amp_page_open raw i ->
  last_occurrence amp_page_close raw j ->
  i <= j ->
  exists frag,
    extract_amp_story raw = ([], Ok frag)
    /\ spans raw frag i (j + length amp_page_close)
    /\ amp_page_open `prefix_of` frag
    /\ amp_page_close `suffix_of` frag.
Proof.
  intros Hi Hj Hij. eexists. split; [apply extract_amp_story_found; eassumption|].
  pose proof (occurs_at_bound _ _ _ (proj1 Hi)) as Hbi.
  pose proof (occurs_at_bound _ _ _ (proj1 Hj)) as Hbj.
  destruct Hi as [(pi & qi & Hri & Hli) _].
  destruct Hj as [(pj & qj & Hrj & Hlj) _].
  set (n := length amp_page_close) in *.
  split; [|split].
  - exists (take i raw), (drop (j + n) raw). split; [|split].
    + rewrite <- (take_drop i raw) at 1. f_equal.
      rewrite <- (take_drop (j + n - i) (drop i raw)) at 1. f_equal.
      rewrite drop_drop. f_equal. lia.
    + rewrite length_take. lia.
    + rewrite length_app, !length_take, length_drop. lia.
  - rewrite Hri at 1. rewrite drop_app_length' by (symmetry; exact Hli).
    rewrite take_app_ge by (change (length amp_page_open) with 15;
                            change n with 17; lia).
    eexists. reflexivity.
  - rewrite Hrj at 1. rewrite drop_app_le by lia.
    rewrite take_app_ge by (rewrite length_drop; lia).
    rewrite length_drop, Hlj.
    replace (j + n - i - (j - i)) with n by lia.
    subst n. rewrite take_app_length. eexists. reflexivity.
Qed.

Lemma story_pages_span_first_to_last_witness :
  exists frag,
    extract_amp_story (lit "<p><amp-story-page id=1>x</amp-story-page></p>")
    = ([], Ok frag)
    /\ spans (lit "<p><amp-story-page id=1>x</amp-story-page></p>") frag
         3 (25 + length amp_page_close)
    /\ amp_page_open `prefix_of` frag
    /\ amp_page_close `suffix_of` frag.
Proof.
  apply (story_pages_span_first_to_last
           (lit "<p><amp-story-page id=1>x</amp-story-page></p>") 3 25).
  - apply find_first. vm_compute. reflexivity.
  - apply rfind_last. vm_compute. reflexivity.
  - lia.
Defined.

(** C7, as stated, fails: in this document both literals occur, the
    opening one first at index 18 and the closing one last at index 0, and
    the fragment returned is empty, which is not the part of the document
    from index 18 to the end of the closing literal. *)
Lemma story_pages_span_fails_when_closing_comes_first :
  first_occurrence amp_page_open (lit "</amp-story-page> <amp-story-page>") 18
  /\ last_occurrence amp_page_close (lit "</amp-story-page> <amp-story-page>") 0
  /\ extract_amp_story (lit "</amp-story-page> <amp-story-page>") = ([], Ok [])
  /\ ~ spans (lit "</amp-story-page> <amp-story-page>") []
         18 (0 + length amp_page_close).
Proof.
  split; [apply find_first; vm_compute; reflexivity|].
  split; [apply rfind_last; vm_compute; reflexivity|].
  split; [vm_compute; reflexivity|].
  intros (pre & post & _ & Hl & Hr). rewrite app_nil_r in Hr.
  rewrite Hl in Hr. vm_compute in Hr. discriminate Hr.
Qed.

(** C10. When both literals occur and the last closing literal ends at or
    before the first opening literal, the fragment is the empty string and
    no warning is given; the insertion step then leaves the composed
    document as it is, again without a warning. *)
Theorem degenerate_span_is_silently_dropped (raw : str) (i j : nat) :
  first_occurrence amp_page_open raw i ->
  last_occurrence amp_page_close raw j ->
  j + length amp_page_close <= i ->
  extract_amp_story raw = ([], Ok [])
  /\ forall html_template,
       (frag ← extract_amp_story raw; insert_amp_story frag html_template)
       = ([], Ok html_template).
Proof.
  intros Hi Hj Hle.
  assert (He : extract_amp_story raw = ([], Ok [])).
  { rewrite (extract_amp_story_found raw i j Hi Hj).
    replace (j + length amp_page_close - i) with 0 by lia. reflexivity. }
  split; [exact He|]. intros html_template. rewrite He. reflexivity.
Qed.

Lemma degenerate_span_is_silently_dropped_witness :
  extract_amp_story (lit "</amp-story-page><amp-story-page>") = ([], Ok [])
  /\ forall html_template,
       (frag ← extract_amp_story (lit "</amp-story-page><amp-story-page>");
        insert_amp_story frag html_template)
       = ([], Ok html_template).
Proof.
  apply (degenerate_span_is_silently_dropped
           (lit "</amp-story-page><amp-story-page>") 17 0).
  - apply find_first. vm_compute. reflexivity.
  - apply rfind_last. vm_compute. reflexivity.
  - vm_compute. lia.
Defined.

Lemma find_absent (sub s : str) :
  Py.find sub s = (-1)%Z <-> forall i, ~ occurs_at sub s i.
Proof.
  unfold Py.find.
  destruct (find_from_spec sub s 0) as [[Hf Hno] | (i & Hf & Ho & _)];
    rewrite Hf.
  - split; [intros _; exact Hno | reflexivity].
  - split; [lia | intros H; destruct (H i Ho)].
Qed.

Lemma rfind_absent (sub s : str) :
  Py.rfind sub s = (-1)%Z <-> forall i, ~ occurs_at sub s i.
Proof.
  unfold Py.rfind.
  destruct (rfind_from_spec sub s 0) as [[Hf Hno] | (i & Hf & Ho & _)];
    rewrite Hf.
  - split; [intros _; exact Hno | reflexivity].
  - split; [lia | intros H; destruct (H i Ho)].
Qed.

(** ** The archive *)

Lemma downloads_app (t1 t2 : list event) :
  downloads (t1 ++ t2) = downloads t1 ++ downloads t2.
Proof. unfold downloads. apply flat_map_app. Qed.

Lemma fst_bind {A B} (c : M A) (k : A -> M B) :
  fst (c ≫= k)
  = fst c ++ match snd c with Ok a => fst (k a) | Raise _ => [] end.
Proof.
  destruct c as [t [a|e]]; unfold mbind, M_bind, bind; simpl.
  - destruct (k a). reflexivity.
  - rewrite app_nil_r. reflexivity.
Qed.

Lemma fst_try_except {A} (c : M A) (h : exn -> M A) :
  fst (try_except c h)
  = fst c ++ match snd c with Ok _ => [] | Raise e => fst (h e) end.
Proof.
  destruct c as [t [a|e]]; unfold try_except; simpl.
  - rewrite app_nil_r. reflexivity.
  - destruct (h e). reflexivity.
Qed.

Lemma quiet_ret {A} (a : A) : quiet (ret a).
Proof. reflexivity. Qed.

Lemma quiet_lift {A} (r : result A) : quiet (lift r).
Proof. reflexivity. Qed.

Lemma quiet_emit (e : event) : downloads [e] = [] -> quiet (emit e).
Proof. intros H. exact H. Qed.

Lemma quiet_bind {A B} (c : M A) (k : A -> M B) :
  quiet c -> (forall a, quiet (k a)) -> quiet (c ≫= k).
Proof.
  unfold quiet. intros Hc Hk. rewrite fst_bind, downloads_app, Hc.
  destruct (snd c); [apply Hk | reflexivity].
Qed.

Lemma quiet_try_except {A} (c : M A) (h : exn -> M A) :
  quiet c -> (forall e, quiet (h e)) -> quiet (try_except c h).
Proof.
  unfold quiet. intros Hc Hh. rewrite fst_try_except, downloads_app, Hc.
  destruct (snd c); [reflexivity | apply Hh].
Qed.

Ltac quiet_step :=
  cbv zeta;
  first
    [ apply quiet_ret
    | apply quiet_lift
    | apply quiet_emit; reflexivity
    | apply quiet_bind; [|intros ?]
    | apply quiet_try_except; [|intros ?]
    | match goal with
      | |- quiet (if ?b then _ else _) => destruct b
      | |- quiet (match ?x with _ => _ end) => destruct x
      | |- quiet (let '(_, _) := ?x in _) => destruct x
      end ].

Ltac quiet_tac := repeat quiet_step.

Lemma quiet_validation_report (f : form) : quiet (validation_report f).
Proof. unfold validation_report. quiet_tac. Qed.

Lemma quiet_make_identifiers (w : world) (f : form) :
  quiet (make_identifiers w f).
Proof. unfold make_identifiers. quiet_tac. Qed.

Lemma quiet_handle_image (w : world) (f : form) : quiet (handle_image w f).
Proof. unfold handle_image, http_get, s3_put. quiet_tac. Qed.

Lemma quiet_substitute_image (w : world) (f : form) (h : str) :
  quiet (substitute_image w f h).
Proof. unfold substitute_image. quiet_tac. Qed.

Lemma quiet_extract_fragments (f : form) : quiet (extract_fragments f).
Proof.
  unfold extract_fragments, extract_style, extract_amp_story. quiet_tac.
Qed.

Lemma quiet_insert_style (st h : str) : quiet (insert_style st h).
Proof. unfold insert_style. quiet_tac. Qed.

Lemma quiet_insert_amp_story (fr h : str) : quiet (insert_amp_story fr h).
Proof. unfold insert_amp_story. quiet_tac. Qed.

(** An archive offered after a quiet computation comes from what follows
    it, which ran because the computation returned. *)
Lemma downloads_bind_quiet {A B} (c : M A) (k : A -> M B)
    (archive : list (str * payload)) :
  quiet c ->
  archive ∈ downloads (fst (c ≫= k)) ->
  exists a, snd c = Ok a /\ archive ∈ downloads (fst (k a)).
Proof.
  unfold quiet. intros Hc. rewrite fst_bind, downloads_app, Hc. simpl.
  destruct (snd c) as [a|e]; [eauto|]. intros H. inversion H.
Qed.

Lemma compose_and_publish_downloads (w : world) (f : form)
    (ids : identifiers) (archive : list (str * payload)) :
  archive ∈ downloads (fst (compose_and_publish w f ids)) ->
  exists html n,
    subscript category_mapping (categories f) = Ok n
    /\ archive = build_zip ids html (metadata_dict f ids n).
Proof.
  unfold compose_and_publish. intros H.
  apply downloads_bind_quiet in H as (h0 & _ & H);
    [|unfold read_template; quiet_tac].
  apply downloads_bind_quiet in H as (n & Hn & H); [|quiet_tac].
  cbv zeta in H.
  apply downloads_bind_quiet in H as (purl & _ & H); [|quiet_tac].
  apply downloads_bind_quiet in H as (h1 & _ & H);
    [|apply quiet_substitute_image].
  apply downloads_bind_quiet in H as (h2 & _ & H); [|quiet_tac].
  apply downloads_bind_quiet in H as ([st fr] & _ & H);
    [|apply quiet_extract_fragments].
  apply downloads_bind_quiet in H as (h3 & _ & H); [|apply quiet_insert_style].
  apply downloads_bind_quiet in H as (h4 & _ & H);
    [|apply quiet_insert_amp_story].
  cbv zeta in H.
  apply downloads_bind_quiet in H as (_ & _ & H); [|unfold s3_put; quiet_tac].
  apply downloads_bind_quiet in H as (_ & _ & H); [|quiet_tac].
  apply downloads_bind_quiet in H as (_ & _ & H); [|quiet_tac].
  simpl in H. apply list_elem_of_singleton in H.
  exists h4, n. split; [exact Hn | exact H].
Qed.

Lemma on_submit_downloads (w : world) (f : form)
    (archive : list (str * payload)) :
  archive ∈ downloads (fst (on_submit w f)) ->
  exists ids,
    snd (make_identifiers w f) = Ok ids
    /\ archive ∈ downloads (fst (compose_and_publish w f ids)).
Proof.
  unfold on_submit. intros H.
  apply downloads_bind_quiet in H as (_ & _ & H);
    [|apply quiet_validation_report].
  apply downloads_bind_quiet in H as (ids & Hids & H);
    [|apply quiet_make_identifiers].
  apply downloads_bind_quiet in H as (_ & _ & H); [|apply quiet_handle_image].
  exists ids. split; [exact Hids|].
  rewrite fst_try_except, downloads_app in H.
  apply elem_of_app in H as [H|H]; [exact H|].
  destruct (snd (compose_and_publish w f ids)); simpl in H; inversion H.
Qed.

Lemma make_identifiers_composite (w : world) (f : form) (ids : identifiers) :
  snd (make_identifiers w f) = Ok ids ->
  story_title f <> [] ->
  slug_nano ids = slug_of (story_title f) ++ lit "_" ++ nano_of (w_rng w).
Proof.
  intros H Hne. unfold make_identifiers in H.
  rewrite (generate_slug_and_urls_ok _ _ Hne) in H.
  simpl in H. injection H as <-. reflexivity.
Qed.

(** C8. Every archive offered by the submit handler has exactly two
    entries, named after the composite identifier with [.html] and with
    [_metadata.json]; the second holds a record with exactly the thirteen
    keys of the metadata document, where [categories] is the integer of the
    chosen category, [filterTags] the list of tags, [publisher_id] the
    constant 1 and [story_logo_link] the constant logo URL. *)
Theorem archive_has_document_and_metadata (w : world) (f : form)
    (archive : list (str * payload)) :
  archive ∈ downloads (fst (on_submit w f)) ->
  exists ids html n md,
    snd (make_identifiers w f) = Ok ids
    /\ (story_title f <> [] ->
        slug_nano ids = slug_of (story_title f) ++ lit "_" ++ nano_of (w_rng w))
    /\ subscript category_mapping (categories f) = Ok n
    /\ archive = [(slug_nano ids ++ lit ".html", PText html);
                  (slug_nano ids ++ lit "_metadata.json",
                   PJsonDumps 4 (JObj md))]
    /\ map fst md = metadata_keys
    /\ (lit "categories", JInt n) ∈ md
    /\ (lit "filterTags", JList (map JStr (filter_tags_list f))) ∈ md
    /\ (lit "publisher_id", JInt 1) ∈ md
    /\ (lit "story_logo_link", JStr story_logo_link) ∈ md.
Proof.
  intros H. apply on_submit_downloads in H as (ids & Hids & H).
  apply compose_and_publish_downloads in H as (html & n & Hn & ->).
  exists ids, html, n, (metadata_dict f ids n).
  split; [exact Hids|].
  split; [apply make_identifiers_composite; exact Hids|].
  split; [exact Hn|]. split; [reflexivity|]. split; [reflexivity|].
  unfold metadata_dict. repeat split; set_solver.
Qed.

Lemma archive_has_document_and_metadata_witness :
  exists ids html n md,
    snd (make_identifiers demo_world form_without_image) = Ok ids
    /\ (story_title form_without_image <> [] ->
        slug_nano ids
        = slug_of (story_title form_without_image) ++ lit "_"
          ++ nano_of (w_rng demo_world))
    /\ subscript category_mapping (categories form_without_image) = Ok n
    /\ demo_archive
       = [(slug_nano ids ++ lit ".html", PText html);
          (slug_nano ids ++ lit "_metadata.json", PJsonDumps 4 (JObj md))]
    /\ map fst md = metadata_keys
    /\ (lit "categories", JInt n) ∈ md
    /\ (lit "filterTags",
        JList (map JStr (filter_tags_list form_without_image))) ∈ md
    /\ (lit "publisher_id", JInt 1) ∈ md
    /\ (lit "story_logo_link", JStr story_logo_link) ∈ md.
Proof.
  apply (archive_has_document_and_metadata demo_world form_without_image
           demo_archive).
  vm_compute. constructor.
Defined.

(** ** Validation and the submit handler *)

Lemma validation_report_returns (f : form) :
  snd (validation_report f) = Ok tt.
Proof.
  unfold validation_report. destruct (Py.truthy (missing_fields f));
    reflexivity.
Qed.

Lemma make_identifiers_returns (w : world) (f : form) :
  exists ids, snd (make_identifiers w f) = Ok ids.
Proof.
  unfold make_identifiers.
  destruct (generate_slug_and_urls (w_rng w) (story_title f))
    as [[[[n sn] c] c1]|e]; eexists; reflexivity.
Qed.

(** The part of C1 that holds: a blank image URL is listed.  And the part
    that does not, for every world: the handler still opens the template
    for composition. *)
Lemma blank_image_url_does_not_stop_the_handler (w : world) (f : form) :
  image_url f = [] ->
  lit "Image URL" ∈ missing_fields f
  /\ ReadFile (lit "templates/masterregex.html") ∈ fst (on_submit w f).
Proof.
  intros Himg. split.
  - unfold missing_fields, blank. rewrite Himg.
    change (negb (Py.truthy (Py.strip []))) with true.
    cbn [missing_if]. rewrite !elem_of_app. do 5 right. left. left.
  - unfold on_submit. rewrite fst_bind, validation_report_returns.
    apply elem_of_app. right.
    destruct (make_identifiers_returns w f) as (ids & Hids).
    rewrite fst_bind, Hids. apply elem_of_app. right.
    rewrite fst_bind. unfold handle_image at 2. rewrite Himg.
    cbn [Py.truthy snd mbind M_bind bind emit ret].
    apply elem_of_app. right.
    rewrite fst_try_except. apply elem_of_app. left.
    unfold compose_and_publish. rewrite fst_bind. apply elem_of_app. left.
    unfold read_template. rewrite fst_bind. apply elem_of_app. left. left.
Qed.

(** C1 at its failing input: with the image URL left blank and every other
    field filled, the report lists "Image URL", and the handler goes on to
    read the template, write the composed document to the object store and
    offer the archive. *)
Theorem blank_image_url_is_reported_and_published :
  let t := fst (on_submit demo_world form_without_image) in
  missing_fields form_without_image = [lit "Image URL"]
  /\ head t = Some (UiError
                      (lit "Please fill all required fields before submitting:"
                       ++ nl ++ lit "- Image URL"))
  /\ (exists body,
        List.filter is_outside_call t
        = [ReadFile (lit "templates/masterregex.html");
           S3Put (lit "suvichaarstories") (lit "test-story_aaaaaaaaaa_G.html")
             body (lit "text/html")])
  /\ length (downloads t) = 1.
Proof.
  cbv zeta. split; [vm_compute; reflexivity|].
  split; [vm_compute; reflexivity|].
  split; [eexists; vm_compute; reflexivity | vm_compute; reflexivity].
Qed.

(** ** The cleanup of wrapped URLs *)

Lemma rest_advance (n : nat) (st : Re.mstate) :
  Re.rest (advance n st) = drop n (Re.rest st).
Proof.
  revert st. induction n as [|n IH]; intros st; simpl.
  - reflexivity.
  - destruct (Re.rest st) as [|c s] eqn:E; [rewrite E; reflexivity|].
    rewrite IH. reflexivity.
Qed.

Lemma m_chars (p : str) (st : Re.mstate) (k : Re.mstate -> option Re.mstate) :
  Re.m Re.no_flags (Re.chars p) st k
  = if Py.startswith p (Re.rest st) then k (advance (length p) st) else None.
Proof.
  revert st. induction p as [|c p IH]; intros st; [reflexivity|].
  assert (Hone : forall kk,
    Re.one (Re.char_eq Re.no_flags c) st kk
    = match Re.rest st with
      | [] => None
      | b :: s => if Ascii.eqb c b
                  then kk (Re.MState (S (Re.pos st)) (Some b) s (Re.caps st))
                  else None
      end) by reflexivity.
  destruct p as [|c' p'].
  - cbn [Re.chars Re.m]. rewrite Hone. cbn [length advance Py.startswith].
    destruct (Re.rest st) as [|b s]; [reflexivity|].
    rewrite andb_true_r. reflexivity.
  - change (Re.chars (c :: c' :: p'))
      with (Re.Seq (Re.Chr c) (Re.chars (c' :: p'))).
    cbn [Re.m]. rewrite Hone.
    change (length (c :: c' :: p')) with (S (length (c' :: p'))).
    cbn [advance]. change (Py.startswith (c :: c' :: p') (Re.rest st))
      with (match Re.rest st with
            | [] => false
            | b :: s => Ascii.eqb c b && Py.startswith (c' :: p') s
            end).
    destruct (Re.rest st) as [|b s]; [reflexivity|].
    destruct (Ascii.eqb c b); [|reflexivity].
    rewrite IH. reflexivity.
Qed.

Lemma not_brace_step (st : Re.mstate) (kk : Re.mstate -> option Re.mstate) :
  not_brace st kk
  = match Re.rest st with
    | [] => None
    | c :: s =>
        if Ascii.eqb c "}" then None
        else kk (Re.MState (S (Re.pos st)) (Some c) s (Re.caps st))
    end.
Proof.
  unfold not_brace. cbn [Re.m]. unfold Re.one.
  destruct (Re.rest st) as [|c s]; [reflexivity|].
  cbn. rewrite orb_false_r. destruct (Ascii.eqb c "}"); reflexivity.
Qed.

Lemma orelse_None_r {A} (a : option A) : Re.orelse a None = a.
Proof. destruct a; reflexivity. Qed.

(** A greedy run over [x], followed by something that cannot start inside
    [x]: the run takes the whole of [x]. *)
Lemma iter_greedy_run (x r : str) :
  "}"%char ∉ x ->
  (forall c r', r = c :: r' -> c = "}"%char) ->
  forall (fuel : nat) (st : Re.mstate) (k : Re.mstate -> option Re.mstate),
    Re.rest st = x ++ r ->
    length x < fuel ->
    (forall n, n < length x -> k (advance n st) = None) ->
    Re.iter not_brace true fuel st k = k (advance (length x) st).
Proof.
  intros Hx Hr. induction x as [|c x IH]; intros fuel st k Hrest Hfuel Hk.
  - destruct fuel as [|f]; [reflexivity|]. cbn [Re.iter length advance].
    rewrite not_brace_step, Hrest. cbn [app].
    destruct r as [|c r']; [reflexivity|].
    rewrite (Hr c r' eq_refl). reflexivity.
  - apply not_elem_of_cons in Hx as [Hc Hx].
    destruct fuel as [|f]; [simpl in Hfuel; lia|].
    cbn [Re.iter]. rewrite not_brace_step, Hrest. cbn [app].
    replace (Ascii.eqb c "}") with false
      by (symmetry; apply Ascii.eqb_neq; congruence).
    cbn [Re.pos]. replace (S (Re.pos st) =? Re.pos st) with false
      by (symmetry; apply Nat.eqb_neq; lia).
    rewrite (IH Hx f); [| reflexivity | simpl in Hfuel; lia |].
    + cbn [length advance]. rewrite Hrest. cbn [app].
      pose proof (Hk 0 ltac:(simpl; lia)) as H0. cbn [advance] in H0.
      rewrite H0. apply orelse_None_r.
    + intros n Hn. specialize (Hk (S n)). cbn [advance] in Hk.
      rewrite Hrest in Hk. apply Hk. simpl. lia.
Qed.

Lemma startswith_app (p r : str) : Py.startswith p (p ++ r) = true.
Proof. apply startswith_spec. exists r. reflexivity. Qed.

Lemma prev_after_cons (pv : option ascii) (c : ascii) (u : str) :
  prev_after (Some c) u = prev_after pv (c :: u).
Proof.
  unfold prev_after. destruct u as [|b u]; [reflexivity|].
  rewrite last_cons_cons. destruct (last (b :: u)) eqn:E; [reflexivity|].
  apply last_None in E. discriminate.
Qed.

Lemma advance_app (u v : str) (i : nat) (pv : option ascii)
    (cs : list (nat * str)) :
  advance (length u) (Re.MState i pv (u ++ v) cs)
  = Re.MState (i + length u) (prev_after pv u) v cs.
Proof.
  revert i pv. induction u as [|c u IH]; intros i pv.
  - simpl. rewrite Nat.add_0_r. reflexivity.
  - cbn [length advance Re.rest app Re.pos Re.caps]. rewrite IH.
    rewrite (prev_after_cons pv). f_equal. lia.
Qed.

Lemma startswith_brace_inside (x r : str) (n : nat) :
  "}"%char ∉ x -> n < length x ->
  Py.startswith (lit "}" ++ dq) (drop n (x ++ r)) = false.
Proof.
  intros Hx Hn. rewrite drop_app_le by lia.
  destruct (drop n x) as [|c y] eqn:E.
  - apply (f_equal length) in E. rewrite length_drop in E. simpl in E. lia.
  - assert (Hc : c ∈ x).
    { apply (subseteq_drop n x). rewrite E. left. }
    change (Py.startswith (lit "}" ++ dq) ((c :: y) ++ r))
      with (Ascii.eqb "}" c && Py.startswith dq (y ++ r)).
    replace (Ascii.eqb "}" c) with false; [reflexivity|].
    symmetry. apply Ascii.eqb_neq. intros <-. exact (Hx Hc).
Qed.

Lemma artifact_pattern_eq (attr : str) :
  artifact_pattern attr
  = Re.Seq (Re.chars (opening attr))
      (Re.Seq (Re.Group 1 (Re.Seq (Re.chars (lit "https://"))
                                  (Re.Plus true (Re.NotIn (lit "}")))))
              (Re.chars (lit "}" ++ dq))).
Proof. reflexivity. Qed.

Lemma match_at_no_opening (attr : str) (i : nat) (pv : option ascii)
    (s : str) :
  Py.startswith (opening attr) s = false ->
  Re.match_at Re.no_flags (artifact_pattern attr) i pv s = None.
Proof.
  intros H. unfold Re.match_at. rewrite artifact_pattern_eq. cbn [Re.m].
  rewrite m_chars. cbn [Re.rest]. rewrite H. reflexivity.
Qed.

Lemma match_at_wrapped (attr : str) (i : nat) (pv : option ascii)
    (x t : str) :
  x <> [] -> "}"%char ∉ x ->
  Re.match_at Re.no_flags (artifact_pattern attr) i pv
    (opening attr ++ lit "https://" ++ x ++ (lit "}" ++ dq) ++ t)
  = Some (Re.Match i
            (i + length (opening attr ++ lit "https://" ++ x ++ lit "}" ++ dq))
            [(1, lit "https://" ++ x)]).
Proof.
  intros Hne Hx. destruct x as [|c x]; [congruence|].
  apply not_elem_of_cons in Hx as [Hc Hx].
  unfold Re.match_at. rewrite artifact_pattern_eq.
  set (close := lit "}" ++ dq).
  set (url := lit "https://").
  cbn [Re.m]. rewrite m_chars. cbn [Re.rest].
  rewrite startswith_app, advance_app.
  rewrite m_chars. cbn [Re.rest].
  rewrite startswith_app, advance_app.
  fold not_brace. rewrite not_brace_step. cbn [Re.rest app Re.pos Re.caps].
  replace (Ascii.eqb c "}") with false
    by (symmetry; apply Ascii.eqb_neq; congruence).
  cbn [Re.rest].
  rewrite (iter_greedy_run x (close ++ t)); cbn [Re.rest].
  - rewrite advance_app. cbn [Re.pos Re.prev Re.rest Re.caps].
    rewrite m_chars. cbn [Re.rest]. rewrite startswith_app.
    rewrite advance_app. cbn [Re.pos Re.caps]. f_equal. f_equal.
    + subst close url. rewrite !length_app. cbn [length].
      rewrite !length_app.
      change (length (lit "https://")) with 8.
      change (length (lit "}")) with 1. change (length dq) with 1.
      lia.
    + f_equal. f_equal.
      replace (S (i + length (opening attr) + length url) + length x
               - (i + length (opening attr)))
        with (length (url ++ c :: x))
        by (rewrite length_app; cbn [length]; lia).
      transitivity (take (length (url ++ c :: x))
                      ((url ++ c :: x) ++ close ++ t));
        [f_equal; rewrite <- app_assoc; reflexivity | apply take_app_length].
  - exact Hx.
  - intros c' r' H. injection H as <- _. reflexivity.
  - reflexivity.
  - rewrite length_app. lia.
  - intros n Hn. rewrite m_chars. cbn [Re.rest].
    rewrite rest_advance. cbn [Re.rest]. subst close.
    rewrite (startswith_brace_inside x _ n Hx Hn). reflexivity.
Qed.

(** *** The scan of [re.sub] over a document *)

Lemma go_skip (a : attr_name) (u v : str) (i : nat) (pv : option ascii) :
  go a i pv (length u) (u ++ v)
  = go a (i + length u) (prev_after pv u) 0 v.
Proof.
  revert i pv. induction u as [|c u IH]; intros i pv.
  - simpl. rewrite Nat.add_0_r. reflexivity.
  - cbn [length app Re.sub_go]. rewrite IH, (prev_after_cons pv).
    replace (S i + length u) with (i + S (length u)) by lia. reflexivity.
Qed.

Lemma go_copy_char (a : attr_name) (c : ascii) (s : str) (i : nat)
    (pv : option ascii) :
  Py.startswith (opening (attr_str a)) (c :: s) = false ->
  go a i pv 0 (c :: s) = c :: go a (S i) (Some c) 0 s.
Proof.
  intros H. cbn [Re.sub_go]. rewrite match_at_no_opening by exact H.
  reflexivity.
Qed.

Lemma go_copy (a : attr_name) (u v : str) :
  (forall o, o < length u ->
     Py.startswith (opening (attr_str a)) (drop o (u ++ v)) = false) ->
  forall (i : nat) (pv : option ascii),
    go a i pv 0 (u ++ v) = u ++ go a (i + length u) (prev_after pv u) 0 v.
Proof.
  induction u as [|c u IH]; intros H i pv.
  - simpl. rewrite Nat.add_0_r. reflexivity.
  - cbn [app]. rewrite go_copy_char by (apply (H 0); simpl; lia).
    rewrite IH.
    + rewrite (prev_after_cons pv). cbn [length].
      replace (S i + length u) with (i + S (length u)) by lia. reflexivity.
    + intros o Ho. apply (H (S o)). simpl. lia.
Qed.

Lemma go_nil (a : attr_name) (i : nat) (pv : option ascii) :
  go a i pv 0 [] = [].
Proof.
  cbn [Re.sub_go]. rewrite match_at_no_opening; [reflexivity|].
  destruct a; reflexivity.
Qed.

Lemma wrapped_eq (a : attr_name) (x t : str) :
  wrapped a x ++ t
  = opening (attr_str a) ++ lit "https://" ++ x ++ (lit "}" ++ dq) ++ t.
Proof.
  unfold wrapped, opening. rewrite <- !app_assoc. reflexivity.
Qed.

Lemma go_wrapped (a : attr_name) (x t : str) (i : nat) (pv : option ascii) :
  x <> [] -> "}"%char ∉ x ->
  exists i' pv',
    go a i pv 0 (wrapped a x ++ t) = unwrapped a x ++ go a i' pv' 0 t.
Proof.
  intros Hne Hx.
  assert (Hw : exists c w, wrapped a x = c :: w) by (destruct a; eauto).
  destruct Hw as (c & w & Hw).
  pose proof (match_at_wrapped (attr_str a) i pv x t Hne Hx) as Hm.
  rewrite <- wrapped_eq in Hm.
  replace (opening (attr_str a) ++ lit "https://" ++ x ++ lit "}" ++ dq)
    with (wrapped a x) in Hm
    by (rewrite <- (app_nil_r (wrapped a x)), wrapped_eq, !app_nil_r;
        reflexivity).
  rewrite Hw in Hm |- *. cbn [app] in Hm. cbn [app Re.sub_go]. rewrite Hm.
  cbn [Re.m_end length].
  replace (i + S (length w) =? i) with false
    by (symmetry; apply Nat.eqb_neq; lia).
  replace (i + S (length w) - i - 1) with (length w) by lia.
  rewrite go_skip. eexists _, _. f_equal.
  unfold Re.expand, artifact_repl, unwrapped, Re.group.
  cbn [flat_map List.find Re.m_groups fst snd Nat.eqb].
  rewrite <- !app_assoc, app_nil_r. reflexivity.
Qed.

(** *** A match is a wrapped URL *)

Lemma not_char_in (c : ascii) (s : str) :
  Py.char_in c s = false -> c ∉ s.
Proof. intros H Hin. apply char_in_spec in Hin. congruence. Qed.

Lemma span_not_brace (s : str) :
  exists x r, s = x ++ r /\ ("}"%char ∉ x)
              /\ forall c r', r = c :: r' -> c = "}"%char.
Proof.
  induction s as [|c s (x & r & Hs & Hx & Hr)].
  - exists [], []. split; [reflexivity|].
    split; [apply not_elem_of_nil | discriminate].
  - destruct (Ascii.eqb c "}") eqn:E.
    + apply Ascii.eqb_eq in E. subst c. exists [], ("}"%char :: s).
      split; [reflexivity|]. split; [apply not_elem_of_nil|].
      intros c r' [= <- _]. reflexivity.
    + apply Ascii.eqb_neq in E. exists (c :: x), r.
      split; [simpl; congruence|]. split; [|exact Hr].
      apply not_elem_of_cons. split; [congruence | exact Hx].
Qed.

(** A match of an artifact pattern is a wrapped URL at that place. *)
Lemma match_at_inv (attr : str) (i : nat) (pv : option ascii) (s : str)
    (mt : Re.mtch) :
  Re.match_at Re.no_flags (artifact_pattern attr) i pv s = Some mt ->
  exists x t,
    x <> [] /\ ("}"%char ∉ x)
    /\ s = opening attr ++ lit "https://" ++ x ++ (lit "}" ++ dq) ++ t.
Proof.
  unfold Re.match_at. rewrite artifact_pattern_eq.
  set (close := lit "}" ++ dq). set (url := lit "https://").
  cbn [Re.m]. rewrite m_chars. cbn [Re.rest].
  destruct (Py.startswith (opening attr) s) eqn:E1; [|discriminate].
  apply startswith_spec in E1 as (s1 & ->). rewrite advance_app.
  rewrite m_chars. cbn [Re.rest].
  destruct (Py.startswith url s1) eqn:E2; [|discriminate].
  apply startswith_spec in E2 as (s2 & ->). rewrite advance_app.
  fold not_brace. rewrite not_brace_step. cbn [Re.rest Re.pos Re.caps].
  destruct s2 as [|c s2]; [discriminate|].
  destruct (Ascii.eqb c "}") eqn:Ec; [discriminate|].
  apply Ascii.eqb_neq in Ec.
  destruct (span_not_brace s2) as (x & r & -> & Hx & Hr).
  cbn [Re.rest].
  rewrite (iter_greedy_run x r Hx Hr); cbn [Re.rest];
    [| reflexivity | rewrite length_app; lia |].
  - rewrite advance_app. cbn [Re.pos Re.prev Re.rest Re.caps].
    rewrite m_chars. cbn [Re.rest].
    destruct (Py.startswith close r) eqn:E3; [|discriminate].
    apply startswith_spec in E3 as (t & ->). intros _.
    exists (c :: x), t. split; [discriminate|]. split.
    + apply not_elem_of_cons. split; [congruence | exact Hx].
    + reflexivity.
  - intros n Hn. rewrite m_chars. cbn [Re.rest].
    rewrite rest_advance. cbn [Re.rest]. subst close.
    rewrite (startswith_brace_inside x _ n Hx Hn). reflexivity.
Qed.

Lemma match_at_inv_wrapped (a : attr_name) (i : nat) (pv : option ascii)
    (s : str) (mt : Re.mtch) :
  Re.match_at Re.no_flags (artifact_pattern (attr_str a)) i pv s = Some mt ->
  exists x t, x <> [] /\ ("}"%char ∉ x) /\ s = wrapped a x ++ t.
Proof.
  intros H. apply match_at_inv in H as (x & t & Hne & Hx & ->).
  exists x, t. rewrite wrapped_eq. auto.
Qed.

Lemma cleanup_eq (text : str) :
  cleanup text = Ok (pass Src (pass Href text)).
Proof. reflexivity. Qed.

Lemma render_plain (t : str) : render (map Plain t) = t.
Proof. induction t as [|c t IH]; [reflexivity|]. simpl. f_equal. exact IH. Qed.

Lemma pass_piece_plain (a : attr_name) (t : str) :
  flat_map (pass_piece a) (map Plain t) = t.
Proof. induction t as [|c t IH]; [reflexivity|]. simpl. f_equal. exact IH. Qed.

Lemma render_settle (a : attr_name) (d : list piece) :
  render (settle a d) = flat_map (pass_piece a) d.
Proof.
  induction d as [|p d IH]; [reflexivity|].
  unfold settle, render in *. cbn [flat_map]. rewrite flat_map_app, IH.
  f_equal. destruct p as [c | b x]; [reflexivity|].
  cbn [settle_piece pass_piece].
  destruct (same_attr a b); [apply render_plain | apply app_nil_r].
Qed.

Lemma settle_both (d : list piece) :
  flat_map (pass_piece Src) (settle Href d) = cleaned d.
Proof.
  induction d as [|p d IH]; [reflexivity|].
  unfold settle, cleaned in *. cbn [flat_map]. rewrite flat_map_app, IH.
  f_equal. destruct p as [c | [|] x]; [reflexivity | | ].
  - cbn [settle_piece same_attr cleaned_piece]. apply pass_piece_plain.
  - cbn [settle_piece same_attr cleaned_piece flat_map pass_piece].
    apply app_nil_r.
Qed.

(** *** Texts without the start of a wrapper *)

Lemma match_at_no_start (a : attr_name) (i : nat) (pv : option ascii)
    (s : str) :
  Py.startswith (wrapper_start a) s = false ->
  Re.match_at Re.no_flags (artifact_pattern (attr_str a)) i pv s = None.
Proof.
  intros H.
  destruct (Re.match_at _ _ i pv s) as [mt|] eqn:E; [exfalso | reflexivity].
  apply match_at_inv in E as (x & t & _ & _ & ->).
  unfold wrapper_start in H. rewrite app_assoc, startswith_app in H.
  discriminate H.
Qed.

Lemma go_keep_char (a : attr_name) (c : ascii) (s : str) (i : nat)
    (pv : option ascii) :
  Py.startswith (wrapper_start a) (c :: s) = false ->
  go a i pv 0 (c :: s) = c :: go a (S i) (Some c) 0 s.
Proof.
  intros H. cbn [Re.sub_go]. rewrite match_at_no_start by exact H.
  reflexivity.
Qed.

Lemma go_keep (a : attr_name) (u v : str) :
  (forall o, o < length u ->
     Py.startswith (wrapper_start a) (drop o (u ++ v)) = false) ->
  forall (i : nat) (pv : option ascii),
    go a i pv 0 (u ++ v) = u ++ go a (i + length u) (prev_after pv u) 0 v.
Proof.
  induction u as [|c u IH]; intros H i pv.
  - simpl. rewrite Nat.add_0_r. reflexivity.
  - cbn [app]. rewrite go_keep_char by (apply (H 0); simpl; lia).
    rewrite IH.
    + rewrite (prev_after_cons pv). cbn [length].
      replace (S i + length u) with (i + S (length u)) by lia. reflexivity.
    + intros o Ho. apply (H (S o)). simpl. lia.
Qed.

Lemma startswith_occurs (sub s : str) (o : nat) :
  Py.startswith sub (drop o s) = true -> o <= length s ->
  occurs_at sub s o.
Proof.
  intros H Ho. apply startswith_spec in H as (r & Hr).
  exists (take o s), r. split.
  - rewrite <- Hr. symmetry. apply take_drop.
  - rewrite length_take. lia.
Qed.

Lemma not_occurs_startswith (sub s : str) (o : nat) :
  (forall i, ~ occurs_at sub s i) -> o <= length s ->
  Py.startswith sub (drop o s) = false.
Proof.
  intros H Ho. destruct (Py.startswith sub (drop o s)) eqn:E; [|reflexivity].
  destruct (H o (startswith_occurs _ _ _ E Ho)).
Qed.

(** A pass leaves a text without the start of a wrapper as it is. *)
Lemma pass_no_start (a : attr_name) (t : str) :
  (forall i, ~ occurs_at (wrapper_start a) t i) -> pass a t = t.
Proof.
  intros H. unfold pass.
  rewrite <- (app_nil_r t) at 1. rewrite go_keep.
  - rewrite go_nil, app_nil_r. reflexivity.
  - intros o Ho. rewrite app_nil_r. apply not_occurs_startswith; [exact H | lia].
Qed.

(** *** The braces of the wrappers *)

Lemma fst_unmarked (s : str) : map fst (unmarked s) = s.
Proof. unfold unmarked. rewrite map_map. apply map_id. Qed.

Lemma kept_unmarked (s : str) : kept (unmarked s) = unmarked s.
Proof.
  induction s as [|c s IH]; [reflexivity|].
  cbn. f_equal. exact IH.
Qed.

Lemma kept_app (m1 m2 : list (ascii * bool)) :
  kept (m1 ++ m2) = kept m1 ++ kept m2.
Proof. apply List.filter_app. Qed.

Lemma render_marked (d : list piece) : render d = map fst (marked d).
Proof.
  induction d as [|p d IH]; [reflexivity|].
  change (render (p :: d)) with (render_piece p ++ render d).
  change (marked (p :: d)) with (marked_piece p ++ marked d).
  rewrite map_app, <- IH. f_equal.
  destruct p as [c | a x]; [reflexivity|].
  cbn [marked_piece render_piece]. unfold wrapped.
  rewrite !map_app, !fst_unmarked, <- !app_assoc. reflexivity.
Qed.

Lemma cleaned_marked (d : list piece) :
  cleaned d = map fst (kept (marked d)).
Proof.
  induction d as [|p d IH]; [reflexivity|].
  change (cleaned (p :: d)) with (cleaned_piece p ++ cleaned d).
  change (marked (p :: d)) with (marked_piece p ++ marked d).
  rewrite kept_app, map_app, <- IH. f_equal.
  destruct p as [c | a x]; [reflexivity|].
  cbn [marked_piece cleaned_piece]. unfold unwrapped.
  rewrite !kept_app, !kept_unmarked, !map_app, !fst_unmarked.
  cbn [kept List.filter snd negb map app]. rewrite <- !app_assoc.
  reflexivity.
Qed.

(** The first mark of a list that begins with unmarked characters. *)
Lemma first_mark (f : str) (c c' : ascii) (l r r' : list (ascii * bool)) :
  l ++ (c, true) :: r = unmarked f ++ (c', true) :: r' ->
  (l = unmarked f /\ c = c' /\ r = r')
  \/ exists l', l = unmarked f ++ (c', true) :: l'
                /\ l' ++ (c, true) :: r = r'.
Proof.
  revert l. induction f as [|b f IH]; intros l H.
  - destruct l as [|e l].
    + injection H as -> ->. left. auto.
    + injection H as He H. subst e. right. exists l. auto.
  - destruct l as [|e l]; [discriminate H|].
    injection H as He H. subst e.
    destruct (IH l H) as [(-> & -> & ->) | (l' & -> & Hl)].
    + left. auto.
    + right. exists l'. auto.
Qed.

(** An opening brace that is marked is the brace of a wrapper of the
    document. *)
Lemma marked_brace (d : list piece) :
  forall l r,
    marked d = l ++ ("{"%char, true) :: r ->
    exists d1 b x d2,
      d = d1 ++ Wrapped b x :: d2
      /\ map fst l = render d1 ++ attr_str b ++ lit "=" ++ dq.
Proof.
  induction d as [|p d IH]; intros l r H.
  - destruct l; discriminate H.
  - change (marked (p :: d)) with (marked_piece p ++ marked d) in H.
    destruct p as [c | b x].
    + destruct l as [|e l]; [discriminate H|].
      injection H as He H. subst e.
      destruct (IH l r H) as (d1 & b & x & d2 & -> & Hl).
      exists (Plain c :: d1), b, x, d2. split; [reflexivity|].
      cbn [map fst]. rewrite Hl. reflexivity.
    + cbn [marked_piece] in H. rewrite <- !app_assoc in H.
      cbn [app] in H. symmetry in H.
      apply first_mark in H as [(-> & _ & _) | (l1 & -> & H)].
      * exists [], b, x, d. split; [reflexivity|].
        rewrite fst_unmarked. reflexivity.
      * apply first_mark in H as [(_ & Hc & _) | (l2 & -> & H)];
          [discriminate Hc|].
        destruct l2 as [|e l2]; [discriminate H|].
        cbn [unmarked map app] in H. injection H as He H. subst e.
        destruct (IH l2 r (eq_sym H)) as (d1 & b1 & x1 & d2 & -> & Hl).
        exists (Wrapped b x :: d1), b1, x1, d2. split; [reflexivity|].
        rewrite !map_app, !fst_unmarked. cbn [map fst].
        rewrite map_app, fst_unmarked. cbn [map fst]. rewrite Hl.
        change (render (Wrapped b x :: d1)) with (wrapped b x ++ render d1).
        unfold wrapped. rewrite <- !app_assoc. reflexivity.
Qed.

Lemma marked_is_brace (d : list piece) (c : ascii) :
  (c, true) ∈ marked d -> c = "{"%char \/ c = "}"%char.
Proof.
  induction d as [|p d IH]; [inversion 1|].
  change (marked (p :: d)) with (marked_piece p ++ marked d).
  intros [H|H]%elem_of_app; [|exact (IH H)].
  destruct p as [c0 | a x].
  - apply list_elem_of_singleton in H. discriminate H.
  - cbn [marked_piece] in H.
    repeat (apply elem_of_app in H as [H|H]);
      first
        [ unfold unmarked in H; apply list_elem_of_fmap in H as (b & Hb & _);
          discriminate Hb
        | apply list_elem_of_singleton in H; injection H as ->; auto ].
Qed.

(** Characters without a mark are kept as they are. *)
Lemma kept_all (m : list (ascii * bool)) :
  Forall (fun cb => snd cb = false) m -> kept m = m.
Proof.
  induction 1 as [|[c b] m Hb _ IH]; [reflexivity|].
  cbn in Hb. subst b. cbn. f_equal. exact IH.
Qed.

Lemma map_fst_app_inv (m : list (ascii * bool)) (u v : str) :
  map fst m = u ++ v ->
  exists m1 m2, m = m1 ++ m2 /\ map fst m1 = u /\ map fst m2 = v.
Proof.
  intros H. exists (take (length u) m), (drop (length u) m).
  split; [symmetry; apply take_drop|].
  change (map fst) with (fmap (M:=list) (@fst ascii bool)) in *.
  rewrite fmap_take, fmap_drop, H.
  rewrite take_app_length, drop_app_length. auto.
Qed.

(** In a document, the start of a wrapper stands where a wrapped attribute
    of that name begins, or it is still there once the braces of the
    wrappers are removed. *)
Lemma start_in_render (a : attr_name) (d : list piece) (u post : str) :
  render d = u ++ wrapper_start a ++ post ->
  (exists d1 x d2, d = d1 ++ Wrapped a x :: d2 /\ u = render d1)
  \/ exists i, occurs_at (wrapper_start a) (cleaned d) i.
Proof.
  intros H. rewrite render_marked in H.
  apply map_fst_app_inv in H as (L & M & Hm & HL & HM).
  apply map_fst_app_inv in HM as (B & R & -> & HB & HR).
  unfold wrapper_start, opening in HB.
  replace ((attr_str a ++ lit "=" ++ dq ++ lit "{") ++ lit "https://")
    with ((attr_str a ++ lit "=" ++ dq) ++ lit "{" ++ lit "https://") in HB
    by (rewrite <- !app_assoc; reflexivity).
  apply map_fst_app_inv in HB as (B1 & B2 & -> & HB1 & HB2).
  destruct B2 as [|[c mk] B2]; [discriminate HB2|].
  cbn [map fst app] in HB2. injection HB2 as -> HB2.
  assert (Hplain : forall c0, c0 ∈ attr_str a ++ lit "=" ++ dq ++ lit "https://" ->
                              c0 <> "{"%char /\ c0 <> "}"%char).
  { intros c0 Hc0. split; intros ->; revert Hc0; apply not_char_in;
      destruct a; reflexivity. }
  assert (Hun : forall B0,
            (forall c0, c0 ∈ map fst B0 ->
               c0 ∈ attr_str a ++ lit "=" ++ dq ++ lit "https://") ->
            (forall e, e ∈ B0 -> e ∈ marked d) ->
            Forall (fun cb => snd cb = false) B0).
  { intros B0 Hc0 He. apply Forall_forall. intros [c0 b0] Hin.
    destruct b0; [exfalso | reflexivity].
    assert (Hb : c0 = "{"%char \/ c0 = "}"%char)
      by (apply (marked_is_brace d), He, Hin).
    assert (Hp : c0 ∈ map fst B0)
      by (apply list_elem_of_fmap; exists (c0, true); auto).
    destruct (Hplain c0 (Hc0 c0 Hp)). destruct Hb; congruence. }
  destruct mk.
  - left. rewrite <- app_assoc in Hm. cbn [app] in Hm.
    rewrite app_assoc in Hm.
    destruct (marked_brace d _ _ Hm) as (d1 & b & x & d2 & Hd & Hl).
    rewrite map_app, HL, HB1 in Hl.
    replace (attr_str a ++ lit "=" ++ dq)
      with ((attr_str a ++ lit "=") ++ dq) in Hl
      by (rewrite <- app_assoc; reflexivity).
    replace (attr_str b ++ lit "=" ++ dq)
      with ((attr_str b ++ lit "=") ++ dq) in Hl
      by (rewrite <- app_assoc; reflexivity).
    rewrite !app_assoc in Hl. apply app_inj_tail in Hl as [Hl _].
    rewrite <- !app_assoc in Hl.
    assert (Hab : a = b /\ u = render d1).
    { apply (f_equal (@rev ascii)) in Hl. rewrite !rev_app_distr in Hl.
      destruct a, b; cbn in Hl; try discriminate Hl;
        (split; [reflexivity|]); apply rev_inj; congruence. }
    destruct Hab as [<- ->]. exists d1, x, d2. split; [exact Hd | reflexivity].
  - right. exists (length (map fst (kept L))).
    exists (map fst (kept L)), (map fst (kept R)). split; [|reflexivity].
    rewrite cleaned_marked, Hm, !kept_app, !map_app.
    assert (H1 : kept B1 = B1).
    { apply kept_all, Hun.
      - intros c0 Hc0. rewrite HB1 in Hc0. rewrite !app_assoc.
        apply elem_of_app. left. rewrite <- !app_assoc. exact Hc0.
      - intros e He. rewrite Hm. rewrite !elem_of_app. auto. }
    assert (H2 : kept B2 = B2).
    { apply kept_all, Hun.
      - intros c0 Hc0. rewrite HB2 in Hc0. rewrite !app_assoc.
        apply elem_of_app. right. exact Hc0.
      - intros e He. rewrite Hm. rewrite !elem_of_app.
        right. left. right. right. exact He. }
    change (kept (("{"%char, false) :: B2))
      with (("{"%char, false) :: kept B2).
    rewrite H1, H2, HB1. cbn [map fst]. rewrite HB2.
    unfold wrapper_start, opening. rewrite <- !app_assoc. reflexivity.
Qed.

(** *** One pass over a document *)

Lemma render_cons (p : piece) (d : list piece) :
  render (p :: d) = render_piece p ++ render d.
Proof. reflexivity. Qed.

Lemma cleaned_cons (p : piece) (d : list piece) :
  cleaned (p :: d) = cleaned_piece p ++ cleaned d.
Proof. reflexivity. Qed.

Lemma occurs_at_app_l (sub u s : str) (i : nat) :
  occurs_at sub s i -> occurs_at sub (u ++ s) (length u + i).
Proof.
  intros (pre & post & -> & <-). exists (u ++ pre), post.
  split; [rewrite <- app_assoc; reflexivity | apply length_app].
Qed.

Lemma render_piece_length (p : piece) : 0 < length (render_piece p).
Proof.
  destruct p as [c | a x]; [simpl; lia|].
  unfold render_piece, wrapped. rewrite !length_app. destruct a; simpl; lia.
Qed.

(** The start of a wrapper does not stand inside the first piece, unless
    the piece is a wrapped attribute of that name and it stands at its
    beginning. *)
Lemma no_start_in_first (a : attr_name) (p : piece) (d : list piece)
    (o : nat) :
  (forall i, ~ occurs_at (wrapper_start a) (cleaned (p :: d)) i) ->
  (forall x, p <> Wrapped a x) ->
  o < length (render_piece p) ->
  Py.startswith (wrapper_start a) (drop o (render (p :: d))) = false.
Proof.
  intros Hno Hp Ho.
  destruct (Py.startswith _ _) eqn:E; [exfalso | reflexivity].
  apply startswith_spec in E as (post & E).
  assert (Hr : render (p :: d)
               = take o (render (p :: d)) ++ wrapper_start a ++ post)
    by (rewrite <- E; symmetry; apply take_drop).
  destruct (start_in_render a _ _ _ Hr)
    as [(d1 & x & d2 & Hsplit & Htake) | (i & Hi)]; [|exact (Hno i Hi)].
  apply (f_equal length) in Htake.
  rewrite length_take, render_cons, length_app in Htake.
  destruct d1 as [|p1 d1].
  - injection Hsplit as Hp1 _. exact (Hp x Hp1).
  - injection Hsplit as <- _. rewrite render_cons, length_app in Htake. lia.
Qed.

(** One pass over a document, piece by piece. *)
Lemma go_document (a : attr_name) (d : list piece) :
  Forall unwrappable d ->
  (forall i, ~ occurs_at (wrapper_start a) (cleaned d) i) ->
  forall (i : nat) (pv : option ascii),
    go a i pv 0 (render d) = flat_map (pass_piece a) d.
Proof.
  induction 1 as [|p d Hp Hd IH]; intros Hno i pv.
  - apply go_nil.
  - assert (Hno' : forall j, ~ occurs_at (wrapper_start a) (cleaned d) j).
    { intros j Hj. apply (Hno (length (cleaned_piece p) + j)).
      rewrite cleaned_cons. apply occurs_at_app_l. exact Hj. }
    destruct p as [c | b x].
    + rewrite render_cons. cbn [render_piece flat_map pass_piece app].
      rewrite go_keep_char.
      * rewrite (IH Hno'). reflexivity.
      * apply (no_start_in_first a (Plain c) d 0 Hno);
          [discriminate | simpl; lia].
    + destruct Hp as [Hne Hclose].
      rewrite render_cons. cbn [render_piece flat_map pass_piece].
      destruct (same_attr a b) eqn:Hab.
      * assert (a = b) as <- by (destruct a, b; congruence || discriminate).
        destruct (go_wrapped a x (render d) i pv Hne Hclose)
          as (i' & pv' & ->).
        rewrite (IH Hno'). reflexivity.
      * rewrite go_keep.
        { rewrite (IH Hno'). reflexivity. }
        intros o Ho.
        apply (no_start_in_first a (Wrapped b x) d o Hno); [|exact Ho].
        intros x' [= Hb _]. subst b. destruct a; discriminate Hab.
Qed.

Lemma pass_document (a : attr_name) (d : list piece) :
  Forall unwrappable d ->
  (forall i, ~ occurs_at (wrapper_start a) (cleaned d) i) ->
  pass a (render d) = flat_map (pass_piece a) d.
Proof. intros Hd Hno. apply go_document; assumption. Qed.

Lemma cleaned_plain_text (t : str) : cleaned (map Plain t) = t.
Proof. induction t as [|c t IH]; [reflexivity|]. simpl. f_equal. exact IH. Qed.

Lemma cleaned_settle (a : attr_name) (d : list piece) :
  cleaned (settle a d) = cleaned d.
Proof.
  induction d as [|p d IH]; [reflexivity|].
  change (settle a (p :: d)) with (settle_piece a p ++ settle a d).
  unfold cleaned in *. rewrite flat_map_app, IH. cbn [flat_map]. f_equal.
  destruct p as [c | b x]; [reflexivity|].
  cbn [settle_piece]. destruct (same_attr a b).
  - apply cleaned_plain_text.
  - apply app_nil_r.
Qed.

Lemma unwrappable_settle (a : attr_name) (d : list piece) :
  Forall unwrappable d -> Forall unwrappable (settle a d).
Proof.
  induction 1 as [|p d Hp _ IH]; [constructor|].
  change (settle a (p :: d)) with (settle_piece a p ++ settle a d).
  apply Forall_app_2; [|exact IH].
  destruct p as [c | b x]; [repeat constructor|].
  cbn [settle_piece]. destruct (same_attr a b).
  - apply Forall_forall. intros p Hin.
    apply list_elem_of_fmap in Hin as (c & -> & _). exact I.
  - constructor; [exact Hp | constructor].
Qed.

(** C6, as the code has it.  Take a document made of any characters,
    braces included, and of attributes wrapped as [href="{https://x}"] or
    [src="{https://x}"], with [x] not empty and without a closing brace,
    in which the start of a wrapper (the attribute name, the equals
    sign, a double quote and [{https://]) is found nowhere else: it does
    not occur in the document once the braces of the wrappers are
    removed.  The cleanup rewrites every wrapped attribute to
    [attr="https://x"] and keeps everything else, the other braces
    included; and the document so cleaned is left unchanged by a further
    cleanup. *)
Theorem cleanup_unwraps_every_wrapped_url (d : list piece) :
  Forall unwrappable d ->
  (forall a i, ~ occurs_at (wrapper_start a) (cleaned d) i) ->
  cleanup (render d) = Ok (cleaned d)
  /\ cleanup (cleaned d) = Ok (cleaned d).
Proof.
  intros Hd Hno. split.
  - rewrite cleanup_eq. f_equal.
    rewrite (pass_document Href d Hd (Hno Href)), <- render_settle.
    rewrite pass_document.
    + apply settle_both.
    + apply unwrappable_settle. exact Hd.
    + rewrite cleaned_settle. exact (Hno Src).
  - rewrite cleanup_eq. f_equal.
    rewrite (pass_no_start Href _ (Hno Href)).
    exact (pass_no_start Src _ (Hno Src)).
Qed.

Lemma not_occurs_by_find (sub s : str) :
  Py.find sub s = (-1)%Z -> forall i, ~ occurs_at sub s i.
Proof. apply find_absent. Qed.

Lemma cleanup_unwraps_every_wrapped_url_witness :
  cleanup (render styled_document) = Ok (cleaned styled_document)
  /\ cleanup (cleaned styled_document) = Ok (cleaned styled_document).
Proof.
  apply (cleanup_unwraps_every_wrapped_url styled_document).
  - unfold styled_document.
    repeat first
      [ apply Forall_app_2
      | apply Forall_nil_2
      | apply Forall_cons_2;
        [split; [discriminate | apply not_char_in; reflexivity]|]
      | apply Forall_forall; intros p Hin;
        apply list_elem_of_fmap in Hin as (c & -> & _); exact I ].
  - intros a. apply not_occurs_by_find. destruct a; vm_compute; reflexivity.
Defined.

Example cleanup_styled_document :
  cleanup (lit "<style>a{}</style><meta content=" ++ dq ++ lit "{{image0}}"
           ++ dq ++ lit "><a href=" ++ dq ++ lit "{https://x}" ++ dq
           ++ lit ">")
  = Ok (lit "<style>a{}</style><meta content=" ++ dq ++ lit "{{image0}}"
        ++ dq ++ lit "><a href=" ++ dq ++ lit "https://x" ++ dq ++ lit ">").
Proof. vm_compute. reflexivity. Qed.

Example cleanup_demo_document :
  cleanup (lit "<a href=" ++ dq ++ lit "{https://media.suvichaar.org/e30=}"
           ++ dq ++ lit "><img src=" ++ dq ++ lit "{https://b}" ++ dq
           ++ lit ">")
  = Ok (lit "<a href=" ++ dq ++ lit "https://media.suvichaar.org/e30="
        ++ dq ++ lit "><img src=" ++ dq ++ lit "https://b" ++ dq ++ lit ">").
Proof. vm_compute. reflexivity. Qed.

(** A text in which no wrapper starts, such as a correctly formed
    attribute or a style rule, is left as it is. *)
Lemma cleanup_keeps_text_without_wrapper (t : str) :
  (forall a i, ~ occurs_at (wrapper_start a) t i) -> cleanup t = Ok t.
Proof.
  intros Hno. rewrite cleanup_eq. f_equal.
  rewrite (pass_no_start Href _ (Hno Href)).
  exact (pass_no_start Src _ (Hno Src)).
Qed.

Example cleanup_keeps_correct_attribute :
  cleanup (lit "<a href=" ++ dq ++ lit "https://x" ++ dq ++ lit ">")
  = Ok (lit "<a href=" ++ dq ++ lit "https://x" ++ dq ++ lit ">").
Proof. vm_compute. reflexivity. Qed.

(** C6, as stated, fails: the cleanup is not idempotent.  On this text the
    pass for [src] leaves a wrapped [href] behind, which a second cleanup
    rewrites. *)
Lemma cleanup_is_not_idempotent :
  cleanup nested_text
  = Ok (lit "src=" ++ dq ++ lit "https://ahref=" ++ dq ++ lit "{https://b}"
        ++ dq)
  /\ cleanup (lit "src=" ++ dq ++ lit "https://ahref=" ++ dq
              ++ lit "{https://b}" ++ dq)
     = Ok (lit "src=" ++ dq ++ lit "https://ahref=" ++ dq ++ lit "https://b"
           ++ dq)
  /\ lit "src=" ++ dq ++ lit "https://ahref=" ++ dq ++ lit "https://b" ++ dq
     <> lit "src=" ++ dq ++ lit "https://ahref=" ++ dq ++ lit "{https://b}"
        ++ dq.
Proof.
  split; [vm_compute; reflexivity|]. split; [vm_compute; reflexivity|].
  vm_compute. discriminate.
Qed.

(** ** Further properties of the submit handler *)

(** ** Traces of the handler's steps *)

Lemma emits_only_ret {A} (P : event -> Prop) (a : A) : emits_only P (ret a).
Proof. constructor. Qed.

Lemma emits_only_lift {A} (P : event -> Prop) (r : result A) :
  emits_only P (lift r).
Proof. constructor. Qed.

Lemma emits_only_emit (P : event -> Prop) (e : event) :
  P e -> emits_only P (emit e).
Proof. intros H. constructor; [exact H | constructor]. Qed.

Lemma emits_only_bind {A B} (P : event -> Prop) (c : M A) (k : A -> M B) :
  emits_only P c -> (forall a, emits_only P (k a)) -> emits_only P (c ≫= k).
Proof.
  unfold emits_only. intros Hc Hk. rewrite fst_bind.
  apply Forall_app_2; [exact Hc|].
  destruct (snd c); [apply Hk | constructor].
Qed.

Lemma emits_only_try_except {A} (P : event -> Prop) (c : M A)
    (h : exn -> M A) :
  emits_only P c -> (forall e, emits_only P (h e)) ->
  emits_only P (try_except c h).
Proof.
  unfold emits_only. intros Hc Hh. rewrite fst_try_except.
  apply Forall_app_2; [exact Hc|].
  destruct (snd c); [constructor | apply Hh].
Qed.

Ltac emits_step :=
  cbv zeta;
  first
    [ apply emits_only_ret
    | apply emits_only_lift
    | apply emits_only_emit; exact I
    | apply emits_only_bind; [|intros ?]
    | apply emits_only_try_except; [|intros ?]
    | match goal with
      | |- emits_only _ (if ?b then _ else _) => destruct b
      | |- emits_only _ (match ?x with _ => _ end) => destruct x
      | |- emits_only _ (let '(_, _) := ?x in _) => destruct x
      end ].

Ltac emits_tac := repeat emits_step.

(** An event that the first part of a sequence does not emit comes from
    what follows it, which ran because the first part returned. *)
Lemma in_bind_later {A B} (P : event -> Prop) (c : M A) (k : A -> M B)
    (e : event) :
  emits_only P c -> ~ P e ->
  e ∈ fst (c ≫= k) ->
  exists a, snd c = Ok a /\ e ∈ fst (k a).
Proof.
  unfold emits_only. intros Hc Hne. rewrite fst_bind.
  intros [H|H]%elem_of_app.
  - rewrite Forall_forall in Hc. destruct (Hne (Hc e H)).
  - destruct (snd c) as [a|x]; [eauto | inversion H].
Qed.

Lemma in_bind_intro {A B} (c : M A) (k : A -> M B) (a : A) (e : event) :
  snd c = Ok a -> e ∈ fst (k a) -> e ∈ fst (c ≫= k).
Proof.
  intros Hc He. rewrite fst_bind, Hc. apply elem_of_app. right. exact He.
Qed.

(** ** What the handler stores *)

Lemma read_template_Ok (w : world) (path t : str) :
  snd (read_template w path) = Ok t -> w_template w = Ok t.
Proof. unfold read_template. destruct (w_template w); simpl; congruence. Qed.

Lemma extract_fragments_Ok (f : form) (r : str * str) :
  snd (extract_fragments f) = Ok r ->
  forall upload, html_file f = Some upload -> exists raw, upload = Ok raw.
Proof.
  unfold extract_fragments. intros H upload Hu. rewrite Hu in H.
  destruct upload as [raw|e]; [eauto | discriminate H].
Qed.

Lemma fst_bind_Ok {A B} (c : M A) (k : A -> M B) (a : A) :
  snd c = Ok a -> fst (c ≫= k) = fst c ++ fst (k a).
Proof. intros H. rewrite fst_bind, H. reflexivity. Qed.

Lemma fst_s3_put (w : world) (bucket key body ctype : str) :
  fst (s3_put w bucket key body ctype) = [S3Put bucket key body ctype].
Proof. reflexivity. Qed.

Lemma snd_s3_put (w : world) (bucket key body ctype : str) :
  snd (s3_put w bucket key body ctype) = w_s3_put w bucket key.
Proof.
  unfold s3_put. cbn. destruct (w_s3_put w bucket key); reflexivity.
Qed.

(** The composition step stores one object, once: the composed document,
    that is the template after the substitutions, the cleanup and the two
    insertions, under the key of the identifier; and it stores it only
    once the template was read, the category was found and the upload, if
    any, was decoded. *)
Theorem compose_stores_only_the_document (w : world) (f : form)
    (ids : identifiers) (bucket key body ctype : str) :
  S3Put bucket key body ctype ∈ fst (compose_and_publish w f ids) ->
  bucket = lit "suvichaarstories"
  /\ key = slug_nano ids ++ lit ".html"
  /\ ctype = lit "text/html"
  /\ (exists n, subscript category_mapping (categories f) = Ok n)
  /\ (forall upload, html_file f = Some upload -> exists raw, upload = Ok raw)
  /\ (exists template profile substituted cleaned_text style pages styled,
        w_template w = Ok template
        /\ subscript (list_to_map user_mapping)
             (random_choice (w_choice w) (map fst user_mapping) [])
           = Ok profile
        /\ snd (substitute_image w f
                  (substitute_fields w f ids
                     (random_choice (w_choice w) (map fst user_mapping) [])
                     profile template))
           = Ok substituted
        /\ cleanup substituted = Ok cleaned_text
        /\ snd (extract_fragments f) = Ok (style, pages)
        /\ snd (insert_style style cleaned_text) = Ok styled
        /\ snd (insert_amp_story pages styled) = Ok body)
  /\ exists before after,
       fst (compose_and_publish w f ids)
       = before ++ S3Put bucket key body ctype :: after
       /\ Forall not_s3_put before /\ Forall not_s3_put after.
Proof.
  unfold compose_and_publish. intros H.
  assert (E1 : emits_only not_s3_put
                 (read_template w (lit "templates/masterregex.html")))
    by (unfold read_template; emits_tac).
  apply (in_bind_later not_s3_put) in H as (h0 & Ht & H);
    [|exact E1 | intros []].
  rewrite (fst_bind_Ok _ _ _ Ht).
  apply (in_bind_later not_s3_put) in H as (n & Hn & H);
    [|emits_tac | intros []].
  rewrite (fst_bind_Ok _ _ _ Hn).
  cbv zeta in H |- *.
  apply (in_bind_later not_s3_put) in H as (purl & Hp & H);
    [|emits_tac | intros []].
  rewrite (fst_bind_Ok _ _ _ Hp).
  assert (E2 : forall t, emits_only not_s3_put (substitute_image w f t))
    by (intros t; unfold substitute_image; emits_tac).
  apply (in_bind_later not_s3_put) in H as (h1 & H1 & H);
    [|apply E2 | intros []].
  rewrite (fst_bind_Ok _ _ _ H1).
  apply (in_bind_later not_s3_put) in H as (h2 & H2 & H);
    [|emits_tac | intros []].
  rewrite (fst_bind_Ok _ _ _ H2).
  assert (E3 : emits_only not_s3_put (extract_fragments f))
    by (unfold extract_fragments, extract_style, extract_amp_story;
        emits_tac).
  apply (in_bind_later not_s3_put) in H as ([st fr] & Hfr & H);
    [|exact E3 | intros []].
  rewrite (fst_bind_Ok _ _ _ Hfr).
  assert (E4 : forall s t, emits_only not_s3_put (insert_style s t))
    by (intros s t; unfold insert_style; emits_tac).
  apply (in_bind_later not_s3_put) in H as (h3 & H3 & H);
    [|apply E4 | intros []].
  rewrite (fst_bind_Ok _ _ _ H3).
  assert (E5 : forall s t, emits_only not_s3_put (insert_amp_story s t))
    by (intros s t; unfold insert_amp_story; emits_tac).
  apply (in_bind_later not_s3_put) in H as (h4 & H4 & H);
    [|apply E5 | intros []].
  rewrite (fst_bind_Ok _ _ _ H4).
  cbv zeta in H |- *. rewrite fst_bind in H |- *.
  rewrite fst_s3_put, snd_s3_put in H |- *.
  set (after :=
         match w_s3_put w (lit "suvichaarstories")
                 (slug_nano ids ++ lit ".html") with
         | Ok a => _
         | Raise _ => []
         end) in *.
  assert (Hafter : Forall not_s3_put after).
  { subst after. destruct (w_s3_put w _ _); [|constructor].
    repeat constructor. }
  cbn [app] in H. apply elem_of_cons in H as [H|H].
  - injection H as -> -> -> ->.
    split; [reflexivity|]. split; [reflexivity|]. split; [reflexivity|].
    split; [exists n; exact Hn|].
    split; [exact (extract_fragments_Ok f _ Hfr)|].
    split.
    + exists h0, purl, h1, h2, st, fr, h3.
      apply read_template_Ok in Ht.
      split; [exact Ht|]. split; [exact Hp|]. split; [exact H1|].
      split; [exact H2|]. split; [exact Hfr|]. split; [exact H3 | exact H4].
    + exists (fst (read_template w (lit "templates/masterregex.html"))
              ++ fst (lift (subscript category_mapping (categories f)))
              ++ fst (lift (subscript (list_to_map user_mapping)
                              (random_choice (w_choice w)
                                 (map fst user_mapping) [])))
              ++ fst (substitute_image w f
                        (substitute_fields w f ids
                           (random_choice (w_choice w)
                              (map fst user_mapping) []) purl h0))
              ++ fst (lift (cleanup h1))
              ++ fst (extract_fragments f)
              ++ fst (insert_style st h2)
              ++ fst (insert_amp_story fr h3)), after.
      split; [rewrite <- !app_assoc; reflexivity|].
      split; [|exact Hafter].
      repeat (apply Forall_app_2;
              [first [ exact E1 | apply E2 | exact E3 | apply E4 | apply E5
                     | apply emits_only_lift ]|]).
      apply E5.
  - exfalso. rewrite Forall_forall in Hafter. exact (Hafter _ H).
Qed.

Lemma compose_stores_only_the_document_witness :
  exists before after,
    fst (compose_and_publish demo_world form_without_image demo_ids)
    = before
      ++ S3Put (lit "suvichaarstories") (slug_nano demo_ids ++ lit ".html")
           demo_body (lit "text/html") :: after
    /\ Forall not_s3_put before /\ Forall not_s3_put after.
Proof.
  apply (compose_stores_only_the_document demo_world form_without_image
           demo_ids (lit "suvichaarstories")
           (slug_nano demo_ids ++ lit ".html") demo_body (lit "text/html")).
  vm_compute. repeat constructor.
Defined.


(** The archive holds the document as it was stored: same text, and the
    entry is named like the object key. *)
Lemma compose_and_publish_archive (w : world) (f : form) (ids : identifiers)
    (archive : list (str * payload)) :
  archive ∈ downloads (fst (compose_and_publish w f ids)) ->
  exists html n,
    subscript category_mapping (categories f) = Ok n
    /\ archive = build_zip ids html (metadata_dict f ids n)
    /\ S3Put (lit "suvichaarstories") (slug_nano ids ++ lit ".html") html
         (lit "text/html") ∈ fst (compose_and_publish w f ids).
Proof.
  intros H. pose proof H as H0. unfold compose_and_publish in H.
  apply downloads_bind_quiet in H as (h0 & E0 & H);
    [|unfold read_template; quiet_tac].
  apply downloads_bind_quiet in H as (n & E1 & H); [|quiet_tac].
  cbv zeta in H.
  apply downloads_bind_quiet in H as (purl & E2 & H); [|quiet_tac].
  apply downloads_bind_quiet in H as (h1 & E3 & H);
    [|apply quiet_substitute_image].
  apply downloads_bind_quiet in H as (h2 & E4 & H); [|quiet_tac].
  apply downloads_bind_quiet in H as ([st fr] & E5 & H);
    [|apply quiet_extract_fragments].
  apply downloads_bind_quiet in H as (h3 & E6 & H); [|apply quiet_insert_style].
  apply downloads_bind_quiet in H as (h4 & E7 & H);
    [|apply quiet_insert_amp_story].
  cbv zeta in H.
  apply downloads_bind_quiet in H as (u1 & E8 & H); [|unfold s3_put; quiet_tac].
  apply downloads_bind_quiet in H as (_ & _ & H); [|quiet_tac].
  apply downloads_bind_quiet in H as (_ & _ & H); [|quiet_tac].
  simpl in H. apply list_elem_of_singleton in H.
  exists h4, n. split; [exact E1|]. split; [exact H|].
  unfold compose_and_publish.
  apply (in_bind_intro _ _ _ _ E0). apply (in_bind_intro _ _ _ _ E1).
  cbv zeta. apply (in_bind_intro _ _ _ _ E2).
  apply (in_bind_intro _ _ _ _ E3). apply (in_bind_intro _ _ _ _ E4).
  apply (in_bind_intro _ _ _ _ E5). cbv beta iota.
  apply (in_bind_intro _ _ _ _ E6). apply (in_bind_intro _ _ _ _ E7).
  cbv zeta. rewrite fst_bind. apply elem_of_app. left.
  unfold s3_put. rewrite fst_bind. apply elem_of_app. left. left.
Qed.

Lemma make_identifiers_fields (w : world) (f : form) (ids : identifiers) :
  snd (make_identifiers w f) = Ok ids ->
  story_title f <> [] ->
  nano ids = nano_of (w_rng w)
  /\ slug_nano ids = slug_of (story_title f) ++ lit "_" ++ nano_of (w_rng w)
  /\ canurl ids = lit "https://suvichaar.org/stories/" ++ slug_nano ids
  /\ canurl1 ids
     = lit "https://stories.suvichaar.org/" ++ slug_nano ids ++ lit ".html"
  /\ page_title ids = story_title f ++ lit " | Suvichaar".
Proof.
  intros H Hne. unfold make_identifiers in H.
  rewrite (generate_slug_and_urls_ok _ _ Hne) in H.
  simpl in H. injection H as <-. repeat split.
Qed.

(** For a submission with a title, the archive offered holds the document
    exactly as it was stored, under the name of its object key, and the
    metadata record points at that key: [storyhtmlurl] is the public host
    followed by the key, [story_link] the story site followed by the
    identifier. *)
Theorem archive_matches_stored_document (w : world) (f : form)
    (archive : list (str * payload)) :
  archive ∈ downloads (fst (on_submit w f)) ->
  story_title f <> [] ->
  exists urlslug html md,
    archive = [(urlslug ++ lit ".html", PText html);
               (urlslug ++ lit "_metadata.json", PJsonDumps 4 (JObj md))]
    /\ S3Put (lit "suvichaarstories") (urlslug ++ lit ".html") html
         (lit "text/html") ∈ fst (on_submit w f)
    /\ (lit "urlslug", JStr urlslug) ∈ md
    /\ (lit "storyhtmlurl",
        JStr (lit "https://stories.suvichaar.org/" ++ urlslug ++ lit ".html"))
       ∈ md
    /\ (lit "story_link",
        JStr (lit "https://suvichaar.org/stories/" ++ urlslug)) ∈ md.
Proof.
  intros H Hne. unfold on_submit in H.
  apply downloads_bind_quiet in H as (u0 & E0 & H);
    [|apply quiet_validation_report].
  apply downloads_bind_quiet in H as (ids & E1 & H);
    [|apply quiet_make_identifiers].
  apply downloads_bind_quiet in H as (img & E2 & H);
    [|apply quiet_handle_image].
  assert (Hc : archive ∈ downloads (fst (compose_and_publish w f ids))).
  { rewrite fst_try_except, downloads_app in H.
    apply elem_of_app in H as [H|H]; [exact H|].
    destruct (snd (compose_and_publish w f ids)); simpl in H; inversion H. }
  destruct (compose_and_publish_archive w f ids archive Hc)
    as (html & n & Hn & -> & Hput).
  destruct (make_identifiers_fields w f ids E1 Hne)
    as (_ & _ & Hcan & Hcan1 & _).
  exists (slug_nano ids), html, (metadata_dict f ids n).
  split; [reflexivity|]. split.
  - unfold on_submit. apply (in_bind_intro _ _ _ _ E0).
    apply (in_bind_intro _ _ _ _ E1). apply (in_bind_intro _ _ _ _ E2).
    rewrite fst_try_except. apply elem_of_app. left. exact Hput.
  - unfold metadata_dict. rewrite Hcan, Hcan1.
    repeat split; repeat constructor.
Qed.

Lemma archive_matches_stored_document_witness :
  exists urlslug html md,
    demo_archive
    = [(urlslug ++ lit ".html", PText html);
       (urlslug ++ lit "_metadata.json", PJsonDumps 4 (JObj md))]
    /\ S3Put (lit "suvichaarstories") (urlslug ++ lit ".html") html
         (lit "text/html") ∈ fst (on_submit demo_world form_without_image)
    /\ (lit "urlslug", JStr urlslug) ∈ md
    /\ (lit "storyhtmlurl",
        JStr (lit "https://stories.suvichaar.org/" ++ urlslug ++ lit ".html"))
       ∈ md
    /\ (lit "story_link",
        JStr (lit "https://suvichaar.org/stories/" ++ urlslug)) ∈ md.
Proof.
  apply (archive_matches_stored_document demo_world form_without_image
           demo_archive).
  - vm_compute. constructor.
  - discriminate.
Defined.

(** ** The empty title *)

(** With an empty title the identifiers cannot be generated: the handler
    reports it and goes on with empty identifiers, so that an archive it
    offers has the entries [.html] and [_metadata.json] and a metadata
    record whose identifier and story link are empty. *)
Theorem empty_title_gives_empty_identifiers (w : world) (f : form) :
  story_title f = [] ->
  UiError (lit "Error generating canonical URLs: Invalid title")
    ∈ fst (on_submit w f)
  /\ forall archive,
       archive ∈ downloads (fst (on_submit w f)) ->
       exists html md,
         archive = [(lit ".html", PText html);
                    (lit "_metadata.json", PJsonDumps 4 (JObj md))]
         /\ (lit "story_uid", JStr []) ∈ md
         /\ (lit "urlslug", JStr []) ∈ md
         /\ (lit "story_link", JStr []) ∈ md.
Proof.
  intros Ht.
  assert (Hm : make_identifiers w f
               = ([UiError (lit "Error generating canonical URLs: Invalid title")],
                  Ok (Identifiers [] [] [] [] []))).
  { unfold make_identifiers. rewrite Ht. reflexivity. }
  split.
  - unfold on_submit.
    apply (in_bind_intro _ _ _ _ (validation_report_returns f)).
    rewrite fst_bind, Hm. apply elem_of_app. left. left.
  - intros archive H.
    apply on_submit_downloads in H as (ids & Hids & H).
    rewrite Hm in Hids. injection Hids as <-.
    apply compose_and_publish_downloads in H as (html & n & _ & ->).
    exists html, (metadata_dict f (Identifiers [] [] [] [] []) n).
    split; [reflexivity|]. unfold metadata_dict.
    repeat split; repeat constructor.
Qed.

Lemma empty_title_gives_empty_identifiers_witness :
  UiError (lit "Error generating canonical URLs: Invalid title")
    ∈ fst (on_submit demo_world form_without_title)
  /\ forall archive,
       archive ∈ downloads (fst (on_submit demo_world form_without_title)) ->
       exists html md,
         archive = [(lit ".html", PText html);
                    (lit "_metadata.json", PJsonDumps 4 (JObj md))]
         /\ (lit "story_uid", JStr []) ∈ md
         /\ (lit "urlslug", JStr []) ∈ md
         /\ (lit "story_link", JStr []) ∈ md.
Proof.
  apply (empty_title_gives_empty_identifiers demo_world form_without_title).
  reflexivity.
Defined.

(** ** Image handling *)

Lemma image_extension_allowed (ext0 : str) :
  (if bool_decide (ext0 ∈ allowed_extensions) then ext0 else lit ".jpg")
  ∈ allowed_extensions.
Proof.
  case_bool_decide as H; [exact H | left].
Qed.

(** The image step calls the outside at most twice: it fetches the image
    URL, and after a successful fetch it stores the fetched body under
    prefix, random name and an allowed extension, with the content type of
    the response or [image/jpeg].  For an empty URL or one on the stories
    host it calls nothing. *)
Theorem image_step_calls (w : world) (f : form) :
  let calls := List.filter is_outside_call (fst (handle_image w f)) in
  (calls = []
   \/ calls = [HttpGet (image_url f)]
   \/ exists body ctype ext,
        ext ∈ allowed_extensions
        /\ w_http_get w (image_url f) = Ok (body, ctype)
        /\ calls = [HttpGet (image_url f);
                    S3Put (bucket_name w) (s3_prefix w ++ w_uuid_hex w ++ ext)
                      body (default (lit "image/jpeg") ctype)])
  /\ (image_url f = []
      \/ Py.startswith (lit "https://stories.suvichaar.org/") (image_url f)
         = true ->
      calls = []).
Proof.
  cbv zeta. unfold handle_image.
  destruct (Py.truthy (image_url f)) eqn:Hu.
  2:{ split; [left; reflexivity | intros _; reflexivity]. }
  destruct (w_url_path w (image_url f)) as [path|e].
  2:{ split; [left; reflexivity | intros _; reflexivity]. }
  unfold mbind, M_bind. cbn [lift bind app].
  destruct (Py.startswith (lit "https://stories.suvichaar.org/") (image_url f))
    eqn:Hs.
  { split; [left; reflexivity | intros _; reflexivity]. }
  split; [|intros [H|H]; [rewrite H in Hu; discriminate Hu | congruence]].
  unfold http_get, s3_put, try_except, mbind, M_bind, bind, emit, lift, ret.
  destruct (w_http_get w (image_url f)) as [[body ctype]|e].
  - right. right. exists body, ctype. eexists.
    split; [apply image_extension_allowed|]. split; [reflexivity|].
    destruct (w_s3_put w _ _) as [[]|e]; reflexivity.
  - right. left. reflexivity.
Qed.

(** Unless the URL cannot be parsed, the image step returns: a failed
    fetch or store is reported and replaced by the fallback.  What it
    returns is the fallback, the URL itself when it is on the stories
    host, or the delivery URL of the key it stored. *)
Theorem image_step_returns (w : world) (f : form) (path : str) :
  w_url_path w (image_url f) = Ok path ->
  exists uploaded_url key_path,
    snd (handle_image w f) = Ok (uploaded_url, key_path)
    /\ ((uploaded_url = [] /\ key_path = lit "media/default.png")
        \/ (uploaded_url = image_url f
            /\ Py.startswith (lit "https://stories.suvichaar.org/")
                 (image_url f) = true)
        \/ (uploaded_url = cdn_base_url w ++ key_path
            /\ w_s3_put w (bucket_name w) key_path = Ok tt)).
Proof.
  intros Hp. unfold handle_image.
  destruct (Py.truthy (image_url f)) eqn:Hu.
  2:{ eexists _, _. split; [reflexivity | left; split; reflexivity]. }
  rewrite Hp.
  unfold mbind, M_bind. cbn [lift bind app].
  destruct (Py.startswith (lit "https://stories.suvichaar.org/") (image_url f))
    eqn:Hs.
  { eexists _, _. split; [reflexivity | right; left; split; reflexivity]. }
  unfold http_get, s3_put, try_except, mbind, M_bind, bind, emit, lift, ret.
  destruct (w_http_get w (image_url f)) as [[body ctype]|e].
  - destruct (w_s3_put w _ _) as [[]|e] eqn:Hput.
    + eexists _, _. split; [reflexivity|]. right. right.
      split; [reflexivity | exact Hput].
    + eexists _, _. split; [reflexivity | left; split; reflexivity].
  - eexists _, _. split; [reflexivity | left; split; reflexivity].
Qed.

Lemma startswith_char_head (c : ascii) (s : str) :
  Py.startswith [c] s = true <-> head s = Some c.
Proof.
  destruct s as [|b s]; simpl; [split; discriminate|].
  rewrite andb_true_r, Ascii.eqb_eq. split; congruence.
Qed.

Lemma head_rev {A} (l : list A) : head (rev l) = last l.
Proof. rewrite <- (rev_involutive l) at 2. symmetry. apply last_rev. Qed.

(** The storage prefix is the configured one, with a slash added when it
    is not empty and does not end with one; so it is empty or ends with a
    slash. *)
Theorem s3_prefix_ends_with_slash (w : world) :
  (s3_prefix w = s3_prefix_secret w
   \/ s3_prefix w = s3_prefix_secret w ++ lit "/")
  /\ (s3_prefix w = [] <-> s3_prefix_secret w = [])
  /\ (s3_prefix w <> [] -> last (s3_prefix w) = Some "/"%char).
Proof.
  unfold s3_prefix.
  destruct (s3_prefix_secret w) as [|c p] eqn:Hp.
  { cbn [Py.truthy andb]. split; [left; reflexivity|].
    split; [split; reflexivity | congruence]. }
  cbn [Py.truthy andb].
  destruct (Py.startswith (lit "/") (rev (c :: p))) eqn:Hs; cbn [negb].
  - apply startswith_char_head in Hs. rewrite head_rev in Hs.
    split; [left; reflexivity|]. split; [split; discriminate|].
    intros _. exact Hs.
  - split; [right; reflexivity|]. split; [split; discriminate|].
    intros _. apply last_snoc.
Qed.

Lemma image_step_returns_witness :
  exists uploaded_url key_path,
    snd (handle_image demo_world form_without_title)
    = Ok (uploaded_url, key_path)
    /\ ((uploaded_url = [] /\ key_path = lit "media/default.png")
        \/ (uploaded_url = image_url form_without_title
            /\ Py.startswith (lit "https://stories.suvichaar.org/")
                 (image_url form_without_title) = true)
        \/ (uploaded_url = cdn_base_url demo_world ++ key_path
            /\ w_s3_put demo_world (bucket_name demo_world) key_path = Ok tt)).
Proof.
  apply (image_step_returns demo_world form_without_title (lit "/a.png")).
  reflexivity.
Defined.

(** ** Metadata generation *)

Lemma snd_bind_Ok {A B} (c : M A) (k : A -> M B) (b : B) :
  snd (c ≫= k) = Ok b -> exists a, snd c = Ok a /\ snd (k a) = Ok b.
Proof.
  destruct c as [t [a|e]]; unfold mbind, M_bind, bind; simpl.
  - destruct (k a) eqn:E. simpl. intros ->. exists a. rewrite E. auto.
  - discriminate.
Qed.

Lemma fst_bind_lift {A B} (r : result A) (k : A -> M B) :
  (forall a, fst (k a) = []) -> fst (lift r ≫= k) = [].
Proof.
  intros Hk. rewrite fst_bind. simpl. destruct r; [apply Hk | reflexivity].
Qed.

(** One request per generation, whatever the answer: nothing is retried
    and nothing else is called. *)
Lemma generate_metadata_trace (w : world) (title : str) :
  fst (generate_metadata w title) = [ChatCompletion title].
Proof.
  unfold generate_metadata, chat_completion.
  rewrite fst_bind.
  replace (fst (emit (ChatCompletion title);; lift (w_chat w title)))
    with [ChatCompletion title]
    by (rewrite fst_bind; simpl; destruct (w_chat w title); reflexivity).
  destruct (snd _) as [raw|e]; [|reflexivity].
  cbn [app]. f_equal.
  repeat (apply fst_bind_lift; intros ?). reflexivity.
Qed.

Lemma extract_json_block_Ok (text r : str) :
  extract_json_block text = Ok r ->
  exists mt,
    Re.search (Re.Flags true true) fenced_pattern text = Ok (Some mt)
    /\ r = Py.strip (Re.group 1 mt).
Proof.
  unfold extract_json_block.
  destruct (Py.truthy text); [|discriminate]. cbn [negb].
  destruct (Re.search _ fenced_pattern text) as [[mt|]|e].
  - intros [= <-]. eauto.
  - rewrite object_pattern_does_not_compile. discriminate.
  - discriminate.
Qed.

Lemma slice_to_length {A} (n : Z) (s : list A) :
  (0 <= n)%Z -> length (Py.slice_to n s) <= Z.to_nat n.
Proof.
  intros Hn. unfold Py.slice_to, Py.clamp.
  destruct (Z.ltb_spec n 0); [lia|]. rewrite length_take. lia.
Qed.

(** Generation returns only for an answer that holds a fenced JSON block:
    the record is built from what [json.loads] makes of the stripped block,
    and its description has at most 160 characters. *)
Theorem generate_metadata_needs_a_fence (w : world) (title : str)
    (md : metadata) :
  snd (generate_metadata w title) = Ok md ->
  exists raw mt fields,
    w_chat w title = Ok raw
    /\ Re.search (Re.Flags true true) fenced_pattern raw = Ok (Some mt)
    /\ w_json_loads w (Py.strip (Re.group 1 mt)) = Ok (JObj fields)
    /\ length (md_meta_description md) <= 160.
Proof.
  unfold generate_metadata. intros H.
  apply snd_bind_Ok in H as (raw & Hraw & H).
  apply snd_bind_Ok in H as (json_str & Hj & H).
  apply snd_bind_Ok in H as (data & Hd & H).
  apply snd_bind_Ok in H as (d & Hget & H).
  apply snd_bind_Ok in H as (kws & _ & H).
  apply snd_bind_Ok in H as (tags & _ & H).
  apply snd_bind_Ok in H as (kl & _ & H).
  apply snd_bind_Ok in H as (tl & _ & H).
  simpl in Hj, Hd, Hget, H.
  apply extract_json_block_Ok in Hj as (mt & Hs & ->).
  assert (Hw : w_chat w title = Ok raw).
  { unfold chat_completion in Hraw.
    destruct (w_chat w title); simpl in Hraw; congruence. }
  destruct data as [| | | | | |fields]; try discriminate Hget.
  exists raw, mt, fields. repeat split; try assumption.
  injection H as <-. cbn [md_meta_description].
  apply (slice_to_length 160). lia.
Qed.

Lemma generate_metadata_needs_a_fence_witness :
  exists raw mt fields,
    w_chat fenced_world (lit "Hi") = Ok raw
    /\ Re.search (Re.Flags true true) fenced_pattern raw = Ok (Some mt)
    /\ w_json_loads fenced_world (Py.strip (Re.group 1 mt)) = Ok (JObj fields)
    /\ length (md_meta_description
                 (Metadata (lit "A story.") (lit "a, b, c") (lit "x, y")))
       <= 160.
Proof.
  apply (generate_metadata_needs_a_fence fenced_world (lit "Hi")).
  vm_compute. reflexivity.
Defined.

(** ** The title input *)

(** A blank title, or the title seen last, changes nothing and asks for
    nothing; any other title sends exactly one request, for the stripped
    title, and becomes the title seen last. *)
Theorem title_sends_at_most_one_request (w : world) (ss : session)
    (title : str) :
  (Py.strip title = [] \/ title = last_title ss ->
   on_title w ss title = ([], ss))
  /\ (Py.strip title <> [] -> title <> last_title ss ->
      chat_requests (fst (on_title w ss title)) = [Py.strip title]
      /\ last_title (snd (on_title w ss title)) = title).
Proof.
  unfold on_title. split.
  - intros [H|H].
    + rewrite H. reflexivity.
    + rewrite bool_decide_true by exact H. rewrite andb_false_r. reflexivity.
  - intros Hne Hnew.
    replace (Py.truthy (Py.strip title)) with true
      by (destruct (Py.strip title); [congruence | reflexivity]).
    rewrite bool_decide_false by exact Hnew. cbn [negb andb].
    pose proof (generate_metadata_trace w (Py.strip title)) as Ht.
    destruct (generate_metadata w (Py.strip title)) as [t [md|e]];
      simpl in Ht; subst t; split; reflexivity.
Qed.

(** When the generation returns, the three stored fields are the ones of
    the generated record. *)
Theorem generated_fields_are_stored (w : world) (ss : session) (title : str)
    (md : metadata) :
  Py.strip title <> [] ->
  title <> last_title ss ->
  snd (generate_metadata w (Py.strip title)) = Ok md ->
  on_title w ss title
  = ([ChatCompletion (Py.strip title)],
     Session title (md_meta_description md) (md_meta_keywords_csv md)
       (md_filter_tags_csv md)).
Proof.
  intros Hne Hnew Hgen. unfold on_title.
  replace (Py.truthy (Py.strip title)) with true
    by (destruct (Py.strip title); [congruence | reflexivity]).
  rewrite bool_decide_false by exact Hnew. cbn [negb andb].
  pose proof (generate_metadata_trace w (Py.strip title)) as Ht.
  destruct (generate_metadata w (Py.strip title)) as [t r].
  simpl in Ht, Hgen. subst. reflexivity.
Qed.

Lemma generated_fields_are_stored_witness :
  on_title fenced_world session_defaults (lit " Hi ")
  = ([ChatCompletion (Py.strip (lit " Hi "))],
     Session (lit " Hi ") (lit "A story.") (lit "a, b, c") (lit "x, y")).
Proof.
  apply (generated_fields_are_stored fenced_world session_defaults (lit " Hi ")
           (Metadata (lit "A story.") (lit "a, b, c") (lit "x, y"))).
  - vm_compute. discriminate.
  - vm_compute. discriminate.
  - vm_compute. reflexivity.
Defined.

(** ** Comma-separated fields *)

Lemma split_pieces (sep : ascii) (s : str) :
  Forall (fun p => sep ∉ p) (Py.split sep s).
Proof.
  induction s as [|c s IH]; simpl.
  - repeat constructor. apply not_elem_of_nil.
  - destruct (Ascii.eqb c sep) eqn:E.
    + constructor; [apply not_elem_of_nil | exact IH].
    + destruct (Py.split sep s) as [|p ps].
      * repeat constructor. apply not_elem_of_cons. split.
        -- intros ->. rewrite Ascii.eqb_refl in E. discriminate.
        -- apply not_elem_of_nil.
      * inversion IH as [|? ? Hp Hps]; subst. constructor; [|exact Hps].
        apply not_elem_of_cons. split; [|exact Hp].
        intros ->. rewrite Ascii.eqb_refl in E. discriminate.
Qed.

Lemma split_no_sep (sep : ascii) (p : str) :
  sep ∉ p -> Py.split sep p = [p].
Proof.
  induction p as [|c p IH]; intros H; [reflexivity|].
  apply not_elem_of_cons in H as [Hc Hp]. simpl.
  replace (Ascii.eqb c sep) with false
    by (symmetry; apply Ascii.eqb_neq; congruence).
  rewrite (IH Hp). reflexivity.
Qed.

Lemma split_app_sep (sep : ascii) (p r : str) :
  sep ∉ p -> Py.split sep (p ++ sep :: r) = p :: Py.split sep r.
Proof.
  induction p as [|c p IH]; intros H.
  - simpl. rewrite Ascii.eqb_refl. reflexivity.
  - apply not_elem_of_cons in H as [Hc Hp]. simpl.
    replace (Ascii.eqb c sep) with false
      by (symmetry; apply Ascii.eqb_neq; congruence).
    rewrite (IH Hp). reflexivity.
Qed.

Lemma strip_idempotent (s : str) : Py.strip (Py.strip s) = Py.strip s.
Proof.
  unfold Py.strip. apply strip_by_fixed.
  - intros c. apply strip_by_head.
  - intros c. apply strip_by_last.
Qed.

Lemma strip_keeps_absent (c : ascii) (s : str) :
  c ∉ s -> c ∉ Py.strip s.
Proof.
  intros H Hin. apply H.
  destruct (strip_by_split Py.is_space s) as (p & q & Hs).
  rewrite Hs. apply elem_of_app. right. apply elem_of_app. left. exact Hin.
Qed.

Lemma strip_space_prefix (ws p : str) :
  Forall (fun c => Py.is_space c = true) ws ->
  Py.strip (ws ++ p) = Py.strip p.
Proof.
  intros H. unfold Py.strip, Py.strip_by, Py.lstrip_by. f_equal.
  induction H as [|c ws Hc _ IH]; [reflexivity|].
  simpl. rewrite Hc. exact IH.
Qed.

Lemma nonblank_stripped_cons (x : str) (l : list str) :
  nonblank_stripped (x :: l)
  = if Py.truthy (Py.strip x) then Py.strip x :: nonblank_stripped l
    else nonblank_stripped l.
Proof.
  unfold nonblank_stripped. simpl.
  destruct (Py.truthy (Py.strip x)); reflexivity.
Qed.

(** Whatever is typed in a comma-separated field, the items taken from it
    are not empty, hold no comma and have no surrounding whitespace. *)
Theorem field_items_are_clean (s : str) :
  Forall clean_item (nonblank_stripped (Py.split "," s)).
Proof.
  pose proof (split_pieces "," s) as H.
  induction H as [|p ps Hp _ IH]; [constructor|].
  rewrite nonblank_stripped_cons.
  destruct (Py.truthy (Py.strip p)) eqn:E; [|exact IH].
  constructor; [|exact IH]. split; [|split].
  - destruct (Py.strip p); [discriminate E | discriminate].
  - apply strip_keeps_absent. exact Hp.
  - apply strip_idempotent.
Qed.

Lemma clean_item_truthy (x : str) :
  clean_item x -> Py.truthy (Py.strip x) = true.
Proof.
  intros (Hne & _ & Hs). rewrite Hs. destruct x; [congruence | reflexivity].
Qed.

Lemma items_round_trip_from (ws : str) (items : list str) :
  Forall (fun c => Py.is_space c = true) ws -> ","%char ∉ ws ->
  Forall clean_item items -> items <> [] ->
  nonblank_stripped (Py.split "," (ws ++ Py.join (lit ", ") items)) = items.
Proof.
  intros Hws Hwc Hall. revert ws Hws Hwc.
  induction Hall as [|p items Hp Hall IH]; intros ws Hws Hwc Hne;
    [congruence|].
  pose proof Hp as (Hpne & Hpc & Hps).
  destruct items as [|q items].
  - cbn [Py.join]. rewrite split_no_sep
      by (intros [H|H]%elem_of_app; [exact (Hwc H) | exact (Hpc H)]).
    rewrite nonblank_stripped_cons, (strip_space_prefix ws p Hws).
    rewrite (clean_item_truthy p Hp), Hps. reflexivity.
  - change (Py.join (lit ", ") (p :: q :: items))
      with (p ++ ","%char :: lit " " ++ Py.join (lit ", ") (q :: items)).
    rewrite app_assoc, split_app_sep
      by (intros [H|H]%elem_of_app; [exact (Hwc H) | exact (Hpc H)]).
    rewrite nonblank_stripped_cons, (strip_space_prefix ws p Hws).
    rewrite (clean_item_truthy p Hp), Hps. f_equal.
    apply IH; [repeat constructor | | discriminate].
    intros H. apply list_elem_of_singleton in H. discriminate H.
Qed.

(** Items that are clean survive the way from the generator to the form
    and back: joined with a comma and a space, then split at commas and
    stripped, they are the same list. *)
Theorem items_round_trip (items : list str) :
  Forall clean_item items ->
  nonblank_stripped (Py.split "," (Py.join (lit ", ") items)) = items.
Proof.
  intros H. destruct items as [|p items]; [reflexivity|].
  apply (items_round_trip_from [] (p :: items));
    [constructor | apply not_elem_of_nil | exact H | discriminate].
Qed.

Lemma items_round_trip_witness :
  nonblank_stripped
    (Py.split "," (Py.join (lit ", ") [lit "music"; lit "lata mangeshkar"]))
  = [lit "music"; lit "lata mangeshkar"].
Proof.
  apply (items_round_trip [lit "music"; lit "lata mangeshkar"]).
  repeat constructor; first [discriminate | apply not_char_in; reflexivity].
Defined.

(** ** More on identifiers *)

Lemma slug_alphabet_in_nano (c : ascii) :
  c ∈ slug_alphabet -> c ∈ nano_alphabet.
Proof.
  assert (Hall : forallb (fun c => Py.char_in c nano_alphabet) slug_alphabet
                 = true) by (vm_compute; reflexivity).
  intros Hc. apply list_elem_of_In in Hc. apply char_in_spec.
  exact (proj1 (forallb_forall _ _) Hall c Hc).
Qed.

(** Whatever the title, the composite identifier is made of letters,
    digits, underscores and hyphens only, and both URLs are a fixed prefix
    followed by it. *)
Theorem composite_identifier_is_url_safe (rng : nat -> nat) (title : str)
    (suffix composite link html_url : str) :
  generate_slug_and_urls rng title = Ok (suffix, composite, link, html_url) ->
  Forall (fun c => c ∈ nano_alphabet) composite
  /\ link = lit "https://suvichaar.org/stories/" ++ composite
  /\ html_url = lit "https://stories.suvichaar.org/" ++ composite ++ lit ".html".
Proof.
  unfold generate_slug_and_urls.
  destruct (Py.truthy title); [|discriminate]. cbn [negb].
  intros [= <- <- <- <-]. split; [|split; reflexivity].
  apply Forall_app_2.
  - eapply Forall_impl; [apply slug_of_chars|]. apply slug_alphabet_in_nano.
  - constructor; [apply char_in_spec; reflexivity|].
    unfold nano_of. apply Forall_app_2.
    + apply random_choices_in. discriminate.
    + repeat constructor; apply char_in_spec; reflexivity.
Qed.

Lemma composite_identifier_is_url_safe_witness :
  Forall (fun c => c ∈ nano_alphabet) (lit "test-story_aaaaaaaaaa_G")
  /\ lit "https://suvichaar.org/stories/test-story_aaaaaaaaaa_G"
     = lit "https://suvichaar.org/stories/" ++ lit "test-story_aaaaaaaaaa_G"
  /\ lit "https://stories.suvichaar.org/test-story_aaaaaaaaaa_G.html"
     = lit "https://stories.suvichaar.org/" ++ lit "test-story_aaaaaaaaaa_G"
       ++ lit ".html".
Proof.
  apply (composite_identifier_is_url_safe (fun _ => 0) (lit "Test Story")
           (lit "aaaaaaaaaa_G")).
  vm_compute. reflexivity.
Defined.

Lemma replace_char_map (a b : ascii) (s : str) :
  Py.replace [a] [b] s = map (fun c => if Ascii.eqb a c then b else c) s.
Proof.
  unfold Py.replace. induction s as [|c s IH]; [reflexivity|].
  cbn [Py.replace_go Py.startswith map length Nat.sub].
  rewrite andb_true_r. destruct (Ascii.eqb a c); cbn [app]; rewrite IH;
    reflexivity.
Qed.

Lemma strip_by_all (g : ascii -> bool) (s : str) :
  Forall (fun c => g c = true) s -> Py.strip_by g s = [].
Proof.
  intros H. unfold Py.strip_by, Py.lstrip_by, Py.rstrip_by.
  replace (Py.dropwhile g s) with (@nil ascii); [reflexivity|].
  induction H as [|c s Hc _ IH]; [reflexivity|]. simpl. rewrite Hc. exact IH.
Qed.

Lemma hyphenated_char_kept (l : ascii) :
  Py.char_in l (Py.ascii_lowercase ++ Py.digits) = false ->
  let c1 := if Ascii.eqb " " l then "-"%char else l in
  let c2 := if Ascii.eqb "_" c1 then "-"%char else c1 in
  Py.char_in c2 slug_alphabet = true -> hyphen c2 = true.
Proof.
  intros Hl. cbv zeta.
  destruct (Ascii.eqb " " l); [intros _; reflexivity|].
  destruct (Ascii.eqb "_" l); [intros _; reflexivity|].
  unfold slug_alphabet, hyphen, Py.char_in in *.
  rewrite app_assoc, existsb_app, Hl. intros H. exact H.
Qed.

Lemma filtered_title_is_hyphens (title : str) :
  Forall (fun c => Py.char_in (Py.lower_char c)
                     (Py.ascii_lowercase ++ Py.digits) = false) title ->
  Forall (fun c => hyphen c = true)
    (filter (fun c => Is_true (Py.char_in c slug_alphabet))
       (Py.replace (lit "_") (lit "-")
          (Py.replace (lit " ") (lit "-") (Py.lower title)))).
Proof.
  change (lit " ") with [" "%char]. change (lit "_") with ["_"%char].
  change (lit "-") with ["-"%char].
  rewrite !replace_char_map. unfold Py.lower. rewrite !map_map.
  induction 1 as [|c s Hc _ IH]; [constructor|].
  cbn [map].
  pose proof (hyphenated_char_kept (Py.lower_char c) Hc) as Hk.
  cbv zeta in Hk.
  destruct (Py.char_in
              (if Ascii.eqb "_"
                    (if Ascii.eqb " " (Py.lower_char c) then "-"%char
                     else Py.lower_char c)
               then "-"%char
               else if Ascii.eqb " " (Py.lower_char c) then "-"%char
                    else Py.lower_char c) slug_alphabet) eqn:E.
  - rewrite filter_cons_True by (apply Is_true_true; exact E).
    constructor; [exact (Hk eq_refl) | exact IH].
  - rewrite filter_cons_False by (apply Is_true_false; exact E). exact IH.
Qed.

(** A title none of whose characters is a letter a-z or a digit once
    lowercased has the empty slug; its composite identifier is an
    underscore followed by the suffix. *)
Theorem title_without_letters_has_empty_slug (rng : nat -> nat) (title : str) :
  title <> [] ->
  Forall (fun c => Py.char_in (Py.lower_char c)
                     (Py.ascii_lowercase ++ Py.digits) = false) title ->
  slug_of title = []
  /\ exists link html_url,
       generate_slug_and_urls rng title
       = Ok (nano_of rng, lit "_" ++ nano_of rng, link, html_url).
Proof.
  intros Hne Hall.
  assert (Hs : slug_of title = []).
  { unfold slug_of, Py.strip_chars. apply (strip_by_all hyphen).
    apply filtered_title_is_hyphens. exact Hall. }
  split; [exact Hs|]. eexists _, _.
  rewrite (generate_slug_and_urls_ok _ _ Hne), Hs. reflexivity.
Qed.

Lemma title_without_letters_has_empty_slug_witness :
  slug_of (lit "?! - _ #") = []
  /\ exists link html_url,
       generate_slug_and_urls (fun _ => 0) (lit "?! - _ #")
       = Ok (nano_of (fun _ => 0), lit "_" ++ nano_of (fun _ => 0),
             link, html_url).
Proof.
  apply (title_without_letters_has_empty_slug (fun _ => 0) (lit "?! - _ #")).
  - discriminate.
  - repeat constructor.
Defined.

(** ** Splicing the fragments *)


(** When one of the two literals does not occur in the upload, a warning
    is given, the fragment is empty, and the insertion step leaves the
    composed document as it is. *)
Theorem missing_literal_gives_warning (raw : str) :
  (forall i, ~ occurs_at amp_page_open raw i)
  \/ (forall j, ~ occurs_at amp_page_close raw j) ->
  extract_amp_story raw
  = ([UiWarning (lit "No complete <amp-story> block found in uploaded HTML.")],
     Ok [])
  /\ forall html_template,
       insert_amp_story [] html_template = ([], Ok html_template).
Proof.
  intros H. split; [|reflexivity]. unfold extract_amp_story.
  destruct H as [H|H].
  - apply find_absent in H. rewrite H. reflexivity.
  - apply rfind_absent in H. rewrite H. cbn [Z.eqb negb].
    rewrite andb_false_r. reflexivity.
Qed.

Lemma missing_literal_gives_warning_witness :
  extract_amp_story (lit "<p>no pages</amp-story-page>")
  = ([UiWarning (lit "No complete <amp-story> block found in uploaded HTML.")],
     Ok [])
  /\ forall html_template,
       insert_amp_story [] html_template = ([], Ok html_template).
Proof.
  apply (missing_literal_gives_warning (lit "<p>no pages</amp-story-page>")).
  left. apply find_absent. vm_compute. reflexivity.
Defined.

Lemma slice_to_from {A} (p : Z) (s : list A) :
  Py.slice_to p s ++ Py.slice_from p s = s.
Proof. apply take_drop. Qed.

Lemma length_lower (s : str) : length (Py.lower s) = length s.
Proof. apply length_map. Qed.

(** The style block goes at the index at which [</head>] first occurs in
    the lowercased template.  The strings here hold characters below
    U+0100, on which lowering keeps every index: for such a template the
    block goes immediately before the first closing head tag, whatever
    the case the tag is written in.  Without such a tag the template is
    kept and a warning is given. *)
Theorem style_goes_before_closing_head (style template : str) :
  style <> [] ->
  ((forall i, ~ occurs_at (lit "</head>") (Py.lower template) i) ->
   insert_style style template
   = ([UiWarning
         (lit "No </head> tag found in HTML template to insert <style amp-custom>.")],
      Ok template))
  /\ (forall i,
        first_occurrence (lit "</head>") (Py.lower template) i ->
        insert_style style template
        = ([], Ok (take i template ++ nl ++ style ++ nl ++ drop i template))).
Proof.
  intros Hne. unfold insert_style.
  destruct style as [|c style]; [congruence|]. cbn [Py.truthy]. split.
  - intros Hno. apply find_absent in Hno. rewrite Hno. reflexivity.
  - intros i Hi.
    pose proof (occurs_at_bound _ _ _ (proj1 Hi)) as Hb.
    rewrite length_lower in Hb.
    apply find_first in Hi. rewrite Hi.
    replace (Z.of_nat i =? -1)%Z with false
      by (symmetry; apply Z.eqb_neq; lia).
    cbn [negb]. unfold Py.slice_to, Py.slice_from. rewrite clamp_nat.
    rewrite Nat.min_l by lia. reflexivity.
Qed.

Lemma style_goes_before_closing_head_witness :
  ((forall i, ~ occurs_at (lit "</head>")
                  (Py.lower (lit "<HEAD><title>t</title></HEAD><body>")) i) ->
   insert_style (lit "<style amp-custom>a{}</style>")
     (lit "<HEAD><title>t</title></HEAD><body>")
   = ([UiWarning
         (lit "No </head> tag found in HTML template to insert <style amp-custom>.")],
      Ok (lit "<HEAD><title>t</title></HEAD><body>")))
  /\ (forall i,
        first_occurrence (lit "</head>")
          (Py.lower (lit "<HEAD><title>t</title></HEAD><body>")) i ->
        insert_style (lit "<style amp-custom>a{}</style>")
          (lit "<HEAD><title>t</title></HEAD><body>")
        = ([], Ok (take i (lit "<HEAD><title>t</title></HEAD><body>") ++ nl
                   ++ lit "<style amp-custom>a{}</style>" ++ nl
                   ++ drop i (lit "<HEAD><title>t</title></HEAD><body>")))).
Proof.
  apply (style_goes_before_closing_head (lit "<style amp-custom>a{}</style>")
           (lit "<HEAD><title>t</title></HEAD><body>")).
  discriminate.
Defined.

Example style_before_uppercase_head :
  insert_style (lit "<style amp-custom>a{}</style>")
    (lit "<HEAD><title>t</title></HEAD><body>")
  = ([], Ok (lit "<HEAD><title>t</title>" ++ nl
             ++ lit "<style amp-custom>a{}</style>" ++ nl
             ++ lit "</HEAD><body>")).
Proof. vm_compute. reflexivity. Qed.

(** The two insertion steps only add text: the template is still there,
    in order, around what was inserted, and what was inserted is nothing
    or the fragment between line breaks. *)
Theorem insertions_only_add (fragment template : str) :
  (exists pre post inserted,
     template = pre ++ post
     /\ snd (insert_style fragment template) = Ok (pre ++ inserted ++ post)
     /\ (inserted = [] \/ inserted = nl ++ fragment ++ nl))
  /\ (exists pre post inserted,
        template = pre ++ post
        /\ snd (insert_amp_story fragment template)
           = Ok (pre ++ inserted ++ post)
        /\ (inserted = [] \/ inserted = nl ++ nl ++ fragment ++ nl ++ nl)).
Proof.
  split.
  - unfold insert_style. destruct (Py.truthy fragment).
    + destruct (negb _).
      * eexists _, _, (nl ++ fragment ++ nl).
        split; [symmetry; apply slice_to_from|].
        split; [rewrite <- !app_assoc; reflexivity | right; reflexivity].
      * exists [], template, []. auto.
    + exists [], template, []. auto.
  - unfold insert_amp_story. destruct (Py.truthy fragment).
    + change (Re.search Re.no_flags amp_story_opening_pattern template)
        with (Ok (Re.search_from Re.no_flags amp_story_opening_pattern 0 None
                    template) : result (option Re.mtch)).
      unfold mbind, M_bind, bind, lift.
      destruct (Re.search_from _ _ _ _ _) as [mt|].
      * destruct (Py.contains analytics_tag template).
        -- eexists _, _, (nl ++ nl ++ fragment ++ nl ++ nl).
           split; [symmetry; apply slice_to_from|].
           split; [cbn [ret snd app]; rewrite <- !app_assoc; reflexivity
                  | right; reflexivity].
        -- exists [], template, []. auto.
      * exists [], template, []. auto.
    + exists [], template, []. auto.
Qed.

(** ** The cleanup on any text *)


(** One step of the scan: the first character is copied, or a wrapped URL
    at the front is unwrapped. *)
Lemma go_step (a : attr_name) (c : ascii) (s : str) (i : nat)
    (pv : option ascii) :
  go a i pv 0 (c :: s) = c :: go a (S i) (Some c) 0 s
  \/ exists x t i' pv',
       x <> [] /\ ("}"%char ∉ x) /\ c :: s = wrapped a x ++ t
       /\ go a i pv 0 (c :: s) = unwrapped a x ++ go a i' pv' 0 t.
Proof.
  destruct (Re.match_at Re.no_flags (artifact_pattern (attr_str a)) i pv
              (c :: s)) as [mt|] eqn:E.
  - right. apply match_at_inv_wrapped in E as (x & t & Hne & Hx & Hs).
    destruct (go_wrapped a x t i pv Hne Hx) as (i' & pv' & Hg).
    exists x, t, i', pv'. rewrite Hs. auto.
  - left. cbn [Re.sub_go]. rewrite E. reflexivity.
Qed.

Lemma go_empty (a : attr_name) (i : nat) (pv : option ascii) :
  go a i pv 0 [] = [].
Proof. apply go_nil. Qed.

Lemma unwrapped_sublist (a : attr_name) (x : str) :
  unwrapped a x `sublist_of` wrapped a x.
Proof.
  unfold unwrapped, wrapped.
  repeat (apply sublist_app; [reflexivity|]).
  change (lit "{https://") with ("{"%char :: lit "https://").
  cbn [app]. apply sublist_cons.
  repeat (apply sublist_app; [reflexivity|]).
  change (lit "}" ++ dq) with ("}"%char :: dq). apply sublist_cons.
  reflexivity.
Qed.

Lemma unwrapped_same_text (a : attr_name) (x : str) :
  List.filter (fun c => negb (is_brace c)) (unwrapped a x)
  = List.filter (fun c => negb (is_brace c)) (wrapped a x).
Proof.
  unfold unwrapped, wrapped. rewrite !List.filter_app. destruct a; reflexivity.
Qed.

Lemma wrapped_length (a : attr_name) (x : str) :
  length (wrapped a x) = length (unwrapped a x) + 2.
Proof.
  unfold unwrapped, wrapped. rewrite !length_app.
  change (length (lit "{https://")) with (S (length (lit "https://"))).
  change (length (lit "}")) with 1. lia.
Qed.

(** A pass deletes braces and nothing else. *)
Lemma pass_deletes_braces (a : attr_name) (n : nat) :
  forall (s : str) (i : nat) (pv : option ascii),
    length s <= n ->
    go a i pv 0 s `sublist_of` s
    /\ List.filter (fun c => negb (is_brace c)) (go a i pv 0 s)
       = List.filter (fun c => negb (is_brace c)) s.
Proof.
  induction n as [|n IH]; intros s i pv Hn.
  - destruct s; [|simpl in Hn; lia]. rewrite go_empty. split; reflexivity.
  - destruct s as [|c s]; [rewrite go_empty; split; reflexivity|].
    destruct (go_step a c s i pv)
      as [-> | (x & t & i' & pv' & Hne & Hx & Hs & ->)].
    + destruct (IH s (S i) (Some c)) as [H1 H2]; [simpl in Hn; lia|].
      split; [apply sublist_skip; exact H1|].
      cbn [List.filter]. rewrite H2. reflexivity.
    + assert (Ht : length t <= n).
      { apply (f_equal length) in Hs. rewrite length_app, wrapped_length in Hs.
        simpl in Hs, Hn. lia. }
      destruct (IH t i' pv' Ht) as [H1 H2]. rewrite Hs. split.
      * apply sublist_app; [apply unwrapped_sublist | exact H1].
      * rewrite !List.filter_app, H2, unwrapped_same_text. reflexivity.
Qed.

(** The cleanup never fails, and all it does to a text is to delete
    braces: its result is the text with some characters left out, and the
    characters other than braces are the same, in the same order. *)
Theorem cleanup_only_deletes_braces (text : str) :
  exists cleaned_text,
    cleanup text = Ok cleaned_text
    /\ cleaned_text `sublist_of` text
    /\ List.filter (fun c => negb (is_brace c)) cleaned_text
       = List.filter (fun c => negb (is_brace c)) text.
Proof.
  exists (pass Src (pass Href text)). split; [apply cleanup_eq|].
  unfold pass.
  destruct (pass_deletes_braces Href (length text) text 0 None (le_n _))
    as [H1 H2].
  destruct (pass_deletes_braces Src _ (go Href 0 None 0 text) 0 None (le_n _))
    as [H3 H4].
  split; [etransitivity; eassumption | congruence].
Qed.

(** A text that lacks an opening brace, or a closing one, is left as it
    is. *)
Theorem cleanup_needs_both_braces (text : str) :
  "{"%char ∉ text \/ "}"%char ∉ text -> cleanup text = Ok text.
Proof.
  intros H. rewrite cleanup_eq. f_equal.
  assert (Hpass : forall a s, ("{"%char ∉ s \/ "}"%char ∉ s) ->
                  forall i pv, go a i pv 0 s = s).
  { intros a s. induction s as [|c s IH]; intros Hs i pv; [apply go_empty|].
    destruct (go_step a c s i pv)
      as [-> | (x & t & i' & pv' & Hne & Hx & Heq & _)].
    - f_equal. apply IH.
      destruct Hs as [Hs|Hs]; [left|right];
        intros Hin; apply Hs; right; exact Hin.
    - exfalso. rewrite Heq in Hs. unfold wrapped in Hs.
      destruct Hs as [Hs|Hs]; apply Hs; rewrite !elem_of_app.
      + left. right. right. right. left. left.
      + left. right. right. right. right. right. left. left. }
  unfold pass. rewrite (Hpass Href text H). apply Hpass. exact H.
Qed.

Lemma cleanup_needs_both_braces_witness :
  cleanup (lit "a{b href=" ++ dq ++ lit "{https://x" ++ dq)
  = Ok (lit "a{b href=" ++ dq ++ lit "{https://x" ++ dq).
Proof.
  apply (cleanup_needs_both_braces
           (lit "a{b href=" ++ dq ++ lit "{https://x" ++ dq)).
  right. apply not_char_in. reflexivity.
Defined.

(** ** What a match consumes *)

Lemma consumed_refl (st : Re.mstate) : consumed st st [].
Proof. split; [reflexivity | simpl; lia]. Qed.

Lemma consumed_trans (st st1 st2 : Re.mstate) (u v : str) :
  consumed st st1 u -> consumed st1 st2 v -> consumed st st2 (u ++ v).
Proof.
  intros [H1 H2] [H3 H4]. split.
  - rewrite H1, H3, app_assoc. reflexivity.
  - rewrite H4, H2, length_app. lia.
Qed.

Lemma orelse_Some {A} (a b : option A) (x : A) :
  Re.orelse a b = Some x -> a = Some x \/ b = Some x.
Proof. destruct a; simpl; auto. Qed.

Lemma one_Some (p : ascii -> bool) (st : Re.mstate)
    (k : Re.mstate -> option Re.mstate) (res : Re.mstate) :
  Re.one p st k = Some res ->
  exists c s,
    Re.rest st = c :: s /\ p c = true
    /\ k (Re.MState (S (Re.pos st)) (Some c) s (Re.caps st)) = Some res.
Proof.
  unfold Re.one. destruct (Re.rest st) as [|c s]; [discriminate|].
  destruct (p c) eqn:E; [|discriminate]. eauto.
Qed.

Lemma one_consumed (p : ascii -> bool) (st : Re.mstate)
    (k : Re.mstate -> option Re.mstate) (res : Re.mstate) :
  Re.one p st k = Some res ->
  exists st1 c,
    consumed st st1 [c] /\ p c = true /\ Re.caps st1 = Re.caps st
    /\ k st1 = Some res.
Proof.
  intros H. apply one_Some in H as (c & s & Hr & Hp & Hk).
  eexists _, c. split; [|split; [exact Hp | split; [|exact Hk]]].
  - split; [exact Hr | simpl; lia].
  - reflexivity.
Qed.

Section Reach.
Variable fl : Re.flags.

Lemma iter_reach body (greedy : bool) :
  reaching body -> forall fuel, reaching (Re.iter body greedy fuel).
Proof.
  intros Hb. induction fuel as [|f IH]; intros st k res H.
  - exists st, []. split; [apply consumed_refl | auto].
  - cbn [Re.iter] in H.
    assert (Hcase :
      body st (fun st1 => if Re.pos st1 =? Re.pos st then None
                          else Re.iter body greedy f st1 k) = Some res
      \/ k st = Some res).
    { destruct greedy; apply orelse_Some in H; tauto. }
    destruct Hcase as [Hm | Hk].
    + apply Hb in Hm as (st1 & u & Hc & Hcap & Hm).
      destruct (Re.pos st1 =? Re.pos st); [discriminate|].
      apply IH in Hm as (st2 & v & Hc2 & Hcap2 & Hk).
      exists st2, (u ++ v).
      split; [eapply consumed_trans; eassumption|].
      split; [congruence | exact Hk].
    + exists st, []. split; [apply consumed_refl | auto].
Qed.

(** A match of a pattern without groups goes on, from a later position,
    with the same groups. *)
Lemma m_reach (r : Re.regex) :
  groupless r = true -> reaching (Re.m fl r).
Proof.
  induction r as [| c | | cs | | | r1 IH1 r2 IH2 | r1 IH1 r2 IH2
                 | g r1 IH1 | g r1 IH1 | n r1 IH1 | n p];
    intros Hg st k res H; cbn [Re.m] in H; cbn [groupless] in Hg.
  - exists st, []. split; [apply consumed_refl | auto].
  - apply one_consumed in H as (st1 & x & Hc & _ & Hcap & Hk). eauto.
  - apply one_consumed in H as (st1 & x & Hc & _ & Hcap & Hk). eauto.
  - apply one_consumed in H as (st1 & x & Hc & _ & Hcap & Hk). eauto.
  - apply one_consumed in H as (st1 & x & Hc & _ & Hcap & Hk). eauto.
  - destruct (Re.at_boundary st); [|discriminate].
    exists st, []. split; [apply consumed_refl | auto].
  - apply andb_true_iff in Hg as [Hg1 Hg2].
    apply (IH1 Hg1) in H as (st1 & u & Hc & Hcap & H).
    apply (IH2 Hg2) in H as (st2 & v & Hc2 & Hcap2 & H).
    exists st2, (u ++ v). split; [eapply consumed_trans; eassumption|].
    split; [congruence | exact H].
  - apply andb_true_iff in Hg as [Hg1 Hg2].
    apply orelse_Some in H as [H|H]; [apply (IH1 Hg1) in H | apply (IH2 Hg2) in H];
      exact H.
  - exact (iter_reach _ g (IH1 Hg) _ st k res H).
  - apply (IH1 Hg) in H as (st1 & u & Hc & Hcap & H).
    apply (iter_reach _ g (IH1 Hg)) in H as (st2 & v & Hc2 & Hcap2 & H).
    exists st2, (u ++ v). split; [eapply consumed_trans; eassumption|].
    split; [congruence | exact H].
  - discriminate Hg.
  - discriminate H.
Qed.

(** A group keeps what its pattern consumed. *)
Lemma m_group (n : nat) (r : Re.regex) (st : Re.mstate)
    (k : Re.mstate -> option Re.mstate) (res : Re.mstate) :
  groupless r = true ->
  Re.m fl (Re.Group n r) st k = Some res ->
  exists st1 u,
    consumed st st1 u
    /\ k (Re.MState (Re.pos st1) (Re.prev st1) (Re.rest st1)
            ((n, u) :: Re.caps st)) = Some res.
Proof.
  intros Hg H. cbn [Re.m] in H.
  apply (m_reach r Hg) in H as (st1 & u & [Hr Hp] & Hcap & H).
  exists st1, u. split; [split; assumption|].
  replace (Re.pos st1 - Re.pos st) with (length u) in H by lia.
  rewrite Hr, take_app_length, Hcap in H. exact H.
Qed.
End Reach.

(** A match found by the search is a match at some place of the text. *)
Lemma search_from_Some (fl : Re.flags) (r : Re.regex) (s : str) :
  forall (i : nat) (pv : option ascii) (mt : Re.mtch),
    Re.search_from fl r i pv s = Some mt ->
    exists pre s' pv',
      s = pre ++ s'
      /\ Re.match_at fl r (i + length pre) pv' s' = Some mt.
Proof.
  induction s as [|c s IH]; intros i pv mt H; cbn [Re.search_from] in H.
  - destruct (Re.match_at fl r i pv []) eqn:E; [|discriminate].
    injection H as <-. exists [], [], pv. rewrite Nat.add_0_r. auto.
  - destruct (Re.match_at fl r i pv (c :: s)) eqn:E.
    + injection H as <-. exists [], (c :: s), pv. rewrite Nat.add_0_r. auto.
    + apply IH in H as (pre & s' & pv' & -> & H).
      exists (c :: pre), s', pv'. split; [reflexivity|].
      cbn [length]. replace (i + S (length pre)) with (S i + length pre) by lia.
      exact H.
Qed.

Lemma m_seq_reach (fl : Re.flags) (r1 r2 : Re.regex) (st : Re.mstate)
    (k : Re.mstate -> option Re.mstate) (res : Re.mstate) :
  groupless r1 = true ->
  Re.m fl (Re.Seq r1 r2) st k = Some res ->
  exists st1 u,
    consumed st st1 u /\ Re.caps st1 = Re.caps st
    /\ Re.m fl r2 st1 k = Some res.
Proof.
  intros Hg H. cbn [Re.m] in H. exact (m_reach fl r1 Hg _ _ _ H).
Qed.

Lemma m_chr_reach (fl : Re.flags) (a : ascii) (st : Re.mstate)
    (k : Re.mstate -> option Re.mstate) (res : Re.mstate) :
  Re.m fl (Re.Chr a) st k = Some res ->
  exists st1 c,
    consumed st st1 [c] /\ Re.char_eq fl a c = true
    /\ Re.caps st1 = Re.caps st /\ k st1 = Some res.
Proof. cbn [Re.m]. apply one_consumed. Qed.

(** A pattern between two literal characters consumes a text between two
    characters that match them. *)
Lemma m_delimited (fl : Re.flags) (a b : ascii) (r : Re.regex)
    (st : Re.mstate) (k : Re.mstate -> option Re.mstate) (res : Re.mstate) :
  groupless r = true ->
  Re.m fl (Re.Seq (Re.Chr a) (Re.Seq r (Re.Chr b))) st k = Some res ->
  exists st1 c1 u c2,
    consumed st st1 (c1 :: u ++ [c2])
    /\ Re.char_eq fl a c1 = true /\ Re.char_eq fl b c2 = true
    /\ Re.caps st1 = Re.caps st /\ k st1 = Some res.
Proof.
  intros Hg H. cbn [Re.m] in H.
  apply (m_chr_reach fl a) in H as (sa & c1 & Ha & E1 & Hca & H).
  apply (m_reach fl r Hg) in H as (sb & u & Hb & Hcb & H).
  apply (m_chr_reach fl b) in H as (sc & c2 & Hc & E2 & Hcc & H).
  exists sc, c1, u, c2.
  split; [exact (consumed_trans _ _ _ [c1] _ Ha (consumed_trans _ _ _ _ _ Hb Hc))|].
  repeat split; try assumption. congruence.
Qed.

(** A delimited group, followed by more of the pattern. *)
Lemma m_group_delimited (fl : Re.flags) (n : nat) (a b : ascii)
    (r more : Re.regex) (st : Re.mstate)
    (k : Re.mstate -> option Re.mstate) (res : Re.mstate) :
  groupless r = true ->
  Re.m fl (Re.Seq (Re.Group n (Re.Seq (Re.Chr a) (Re.Seq r (Re.Chr b)))) more)
    st k = Some res ->
  exists st1 c1 u c2,
    consumed st st1 (c1 :: u ++ [c2])
    /\ Re.char_eq fl a c1 = true /\ Re.char_eq fl b c2 = true
    /\ Re.m fl more
         (Re.MState (Re.pos st1) (Re.prev st1) (Re.rest st1)
            ((n, c1 :: u ++ [c2]) :: Re.caps st))
         k = Some res.
Proof.
  intros Hg H.
  change (Re.m fl (Re.Seq (Re.Chr a) (Re.Seq r (Re.Chr b))) st
            (fun st1 =>
               Re.m fl more
                 (Re.MState (Re.pos st1) (Re.prev st1) (Re.rest st1)
                    ((n, take (Re.pos st1 - Re.pos st) (Re.rest st))
                     :: Re.caps st1)) k) = Some res) in H.
  apply (m_delimited fl a b r _ _ _ Hg) in H
    as (st1 & c1 & u & c2 & [Hr Hp] & Ea & Eb & Hc & H).
  exists st1, c1, u, c2. split; [split; assumption|].
  split; [exact Ea|]. split; [exact Eb|].
  replace (Re.pos st1 - Re.pos st) with (length (c1 :: u ++ [c2])) in H by lia.
  rewrite Hr, take_app_length, Hc in H. exact H.
Qed.

Lemma lower_char_brace (c : ascii) :
  (Py.lower_char c = "{"%char -> c = "{"%char)
  /\ (Py.lower_char c = "}"%char -> c = "}"%char).
Proof.
  destruct c as [[] [] [] [] [] [] [] []]; split; vm_compute; congruence.
Qed.

Lemma char_eq_brace (fl : Re.flags) (c : ascii) :
  (Re.char_eq fl "{" c = true -> c = "{"%char)
  /\ (Re.char_eq fl "}" c = true -> c = "}"%char).
Proof.
  unfold Re.char_eq. destruct (Re.ignorecase fl).
  - split; intros H; apply Ascii.eqb_eq in H; symmetry in H;
      apply lower_char_brace in H; exact H.
  - split; intros H; apply Ascii.eqb_eq in H; congruence.
Qed.

Lemma search_compiled (fl : Re.flags) (r : Re.regex) (text : str)
    (mt : Re.mtch) :
  Re.search fl r text = Ok (Some mt) ->
  Re.search_from fl r 0 None text = Some mt.
Proof.
  unfold Re.search, Re.compile.
  destruct (Re.unknown_extension r) as [[n p]|]; [discriminate|].
  intros [= H]. exact H.
Qed.

(** The block of a fenced answer. *)
Lemma fenced_group (text : str) (mt : Re.mtch) :
  Re.search (Re.Flags true true) fenced_pattern text = Ok (Some mt) ->
  exists pre u post,
    text = pre ++ (lit "{" ++ u ++ lit "}") ++ post
    /\ Re.group 1 mt = lit "{" ++ u ++ lit "}".
Proof.
  intros H. apply search_compiled in H.
  apply search_from_Some in H as (pre & s & pv & -> & H).
  unfold Re.match_at in H.
  destruct (Re.m _ fenced_pattern _ Some) as [stf|] eqn:E; [|discriminate].
  injection H as <-.
  unfold fenced_pattern in E. cbn [Re.seqs] in E.
  apply m_seq_reach in E as (s1 & u1 & [Hr1 _] & Hc1 & E); [|reflexivity].
  apply m_seq_reach in E as (s2 & u2 & [Hr2 _] & Hc2 & E); [|reflexivity].
  apply m_group_delimited in E
    as (s3 & c1 & u & c2 & [Hr3 Hp3] & Ea & Eb & E3); [|reflexivity].
  apply (proj1 (char_eq_brace _ c1)) in Ea.
  apply (proj2 (char_eq_brace _ c2)) in Eb. subst c1 c2.
  apply m_reach in E3 as (s4 & u4 & _ & Hc4 & E4); [|reflexivity].
  injection E4 as <-. cbn [Re.caps] in Hc4.
  exists (pre ++ u1 ++ u2), u, (Re.rest s3).
  cbn [Re.rest] in Hr1.
  change (lit "{" ++ u ++ lit "}") with ("{"%char :: u ++ ["}"%char]).
  split.
  - rewrite Hr1, Hr2, Hr3, <- !app_assoc. reflexivity.
  - unfold Re.group. cbn [Re.m_groups]. rewrite Hc4. reflexivity.
Qed.

Lemma strip_delimited (c1 c2 : ascii) (u : str) :
  Py.is_space c1 = false -> Py.is_space c2 = false ->
  Py.strip (c1 :: u ++ [c2]) = c1 :: u ++ [c2].
Proof.
  intros H1 H2. apply strip_by_fixed.
  - intros c [= <-]. exact H1.
  - intros c Hc. change (c1 :: u ++ [c2]) with ((c1 :: u) ++ [c2]) in Hc.
    rewrite last_snoc in Hc. injection Hc as <-. exact H2.
Qed.

(** What [extract_json_block] returns is a part of the answer that begins
    with an opening brace and ends with a closing one. *)
Theorem extracted_block_is_braced (text block : str) :
  extract_json_block text = Ok block ->
  exists pre inner post,
    text = pre ++ block ++ post
    /\ block = lit "{" ++ inner ++ lit "}".
Proof.
  intros H. apply extract_json_block_Ok in H as (mt & Hs & ->).
  apply fenced_group in Hs as (pre & u & post & Ht & ->).
  change (lit "{" ++ u ++ lit "}") with ("{"%char :: u ++ ["}"%char]) in *.
  rewrite strip_delimited by reflexivity.
  exists pre, u, post. split; [exact Ht | reflexivity].
Qed.

Lemma extracted_block_is_braced_witness :
  exists pre inner post,
    lit "Sure: ```JSON {x} ``` done" = pre ++ lit "{x}" ++ post
    /\ lit "{x}" = lit "{" ++ inner ++ lit "}".
Proof.
  apply (extracted_block_is_braced (lit "Sure: ```JSON {x} ``` done")
           (lit "{x}")).
  vm_compute. reflexivity.
Defined.

(** A literal consumes a text that matches it character by character. *)
Lemma m_chars_reach (fl : Re.flags) (p : str) :
  forall (st : Re.mstate) (k : Re.mstate -> option Re.mstate)
         (res : Re.mstate),
    Re.m fl (Re.chars p) st k = Some res ->
    exists st1 u,
      consumed st st1 u /\ Re.caps st1 = Re.caps st /\ k st1 = Some res
      /\ Forall2 (fun a b => Re.char_eq fl a b = true) p u.
Proof.
  induction p as [|a p IH]; intros st k res H.
  - exists st, []. split; [apply consumed_refl|]. repeat split; auto.
  - destruct p as [|a' p'].
    + apply m_chr_reach in H as (st1 & c & Hc & E & Hcap & H).
      exists st1, [c]. repeat split; try assumption; try apply Hc.
      repeat constructor. exact E.
    + change (Re.chars (a :: a' :: p'))
        with (Re.Seq (Re.Chr a) (Re.chars (a' :: p'))) in H.
      cbn [Re.m] in H. fold (Re.m fl (Re.Chr a)) in H.
      apply (m_chr_reach fl a) in H as (st1 & c & Hc & E & Hcap & H).
      apply IH in H as (st2 & u & Hc2 & Hcap2 & H & Hall).
      exists st2, (c :: u).
      split; [exact (consumed_trans _ _ _ [c] _ Hc Hc2)|].
      split; [congruence|]. split; [exact H|]. constructor; assumption.
Qed.

Lemma char_eq_lower (d : bool) (p u : str) :
  Forall2 (fun a b => Re.char_eq (Re.Flags true d) a b = true) p u ->
  Py.lower u = Py.lower p.
Proof.
  induction 1 as [|a b p u E _ IH]; [reflexivity|].
  unfold Re.char_eq in E. cbn [Re.ignorecase] in E.
  apply Ascii.eqb_eq in E. simpl. rewrite E. f_equal. exact IH.
Qed.

Lemma char_eq_exact (d : bool) (p u : str) :
  Forall2 (fun a b => Re.char_eq (Re.Flags false d) a b = true) p u -> u = p.
Proof.
  induction 1 as [|a b p u E _ IH]; [reflexivity|].
  unfold Re.char_eq in E. cbn [Re.ignorecase] in E.
  apply Ascii.eqb_eq in E. congruence.
Qed.

Lemma lower_app (u v : str) : Py.lower (u ++ v) = Py.lower u ++ Py.lower v.
Proof. apply map_app. Qed.

(** For an upload of characters below U+0100, which are the characters
    the strings here hold: the style block taken from the upload, when
    there is one, is a part of the upload that begins with [<style] and
    ends with [</style>], in whatever case these are written; when there
    is none, an information message is given. *)
Theorem style_fragment_shape (raw : str) :
  extract_style raw
  = ([UiInfo (lit "No <style amp-custom> block found in uploaded HTML.")],
     Ok [])
  \/ exists pre style post,
       raw = pre ++ style ++ post
       /\ extract_style raw = ([], Ok style)
       /\ lit "<style" `prefix_of` Py.lower style
       /\ lit "</style>" `suffix_of` Py.lower style.
Proof.
  unfold extract_style.
  change (Re.search (Re.Flags true true) style_pattern raw)
    with (Ok (Re.search_from (Re.Flags true true) style_pattern 0 None raw)
          : result (option Re.mtch)).
  unfold mbind, M_bind, bind, lift.
  destruct (Re.search_from _ _ _ _ _) as [mt|] eqn:Hs; [right | left; reflexivity].
  apply search_from_Some in Hs as (pre & s & pv & -> & H).
  unfold Re.match_at in H.
  destruct (Re.m _ style_pattern _ Some) as [stf|] eqn:E; [|discriminate].
  injection H as <-.
  unfold style_pattern in E. cbn [Re.seqs] in E.
  match type of E with
  | Re.m ?fl (Re.Group 1 (Re.Seq ?a ?r)) ?st Some = _ =>
      change (Re.m fl a st
                (fun s1 => Re.m fl r s1
                   (fun st1 =>
                      Some (Re.MState (Re.pos st1) (Re.prev st1) (Re.rest st1)
                              ((1, take (Re.pos st1 - Re.pos st) (Re.rest st))
                               :: Re.caps st1)))) = Some stf) in E
  end.
  apply m_chars_reach in E as (s1 & u1 & [Hr1 Hp1] & _ & E & Hall1).
  apply m_seq_reach in E as (s2 & u2 & [Hr2 Hp2] & _ & E); [|reflexivity].
  apply m_seq_reach in E as (s3 & u3 & [Hr3 Hp3] & _ & E); [|reflexivity].
  apply m_seq_reach in E as (s4 & u4 & [Hr4 Hp4] & _ & E); [|reflexivity].
  apply m_seq_reach in E as (s5 & u5 & [Hr5 Hp5] & _ & E); [|reflexivity].
  apply m_seq_reach in E as (s6 & u6 & [Hr6 Hp6] & _ & E); [|reflexivity].
  apply m_chars_reach in E as (s7 & u7 & [Hr7 Hp7] & _ & E & Hall7).
  injection E as <-. cbn [Re.rest Re.pos] in *.
  set (mid := u2 ++ u3 ++ u4 ++ u5 ++ u6).
  assert (Hs : s = (u1 ++ mid ++ u7) ++ Re.rest s7).
  { subst mid. rewrite Hr1, Hr2, Hr3, Hr4, Hr5, Hr6, Hr7, <- !app_assoc.
    reflexivity. }
  assert (Hlen : Re.pos s7 - length pre = length (u1 ++ mid ++ u7)).
  { subst mid. rewrite !length_app. lia. }
  exists pre, (u1 ++ mid ++ u7), (Re.rest s7).
  split; [rewrite Hs; reflexivity|]. split.
  - unfold ret, Re.group.
    cbn [Re.m_groups Re.caps List.find fst snd Nat.eqb app].
    rewrite Hlen, Hs, take_app_length. reflexivity.
  - rewrite !lower_app. apply char_eq_lower in Hall1, Hall7.
    rewrite Hall1, Hall7. split.
    + eexists. reflexivity.
    + eexists. rewrite app_assoc. reflexivity.
Qed.

Example style_fragment_found :
  extract_style (lit "<p><STYLE  amp-custom x=1>a{}</Style><b>")
  = ([], Ok (lit "<STYLE  amp-custom x=1>a{}</Style>")).
Proof. vm_compute. reflexivity. Qed.

(** ** The opening tag of the story container *)

(** The body of the repetition in the opening-tag pattern. *)
Lemma not_closing_step (st : Re.mstate) (kk : Re.mstate -> option Re.mstate) :
  Re.m Re.no_flags (Re.NotIn (lit ">")) st kk
  = match Re.rest st with
    | [] => None
    | c :: s =>
        if Ascii.eqb c ">" then None
        else kk (Re.MState (S (Re.pos st)) (Some c) s (Re.caps st))
    end.
Proof.
  cbn [Re.m]. unfold Re.one.
  destruct (Re.rest st) as [|c s]; [reflexivity|].
  cbn. rewrite orb_false_r. destruct (Ascii.eqb c ">"); reflexivity.
Qed.

(** A greedy run of characters other than [>] over [x], when what follows
    cannot start inside [x]. *)
Lemma iter_greedy_tag (x r : str) :
  ">"%char ∉ x ->
  (forall c r', r = c :: r' -> c = ">"%char) ->
  forall (fuel : nat) (st : Re.mstate) (k : Re.mstate -> option Re.mstate),
    Re.rest st = x ++ r ->
    length x < fuel ->
    (forall n, n < length x -> k (advance n st) = None) ->
    Re.iter (Re.m Re.no_flags (Re.NotIn (lit ">"))) true fuel st k
    = k (advance (length x) st).
Proof.
  intros Hx Hr. induction x as [|c x IH]; intros fuel st k Hrest Hfuel Hk.
  - destruct fuel as [|f]; [reflexivity|]. cbn [Re.iter length advance].
    rewrite not_closing_step, Hrest. cbn [app].
    destruct r as [|c r']; [reflexivity|].
    rewrite (Hr c r' eq_refl). reflexivity.
  - apply not_elem_of_cons in Hx as [Hc Hx].
    destruct fuel as [|f]; [simpl in Hfuel; lia|].
    cbn [Re.iter]. rewrite not_closing_step, Hrest. cbn [app].
    replace (Ascii.eqb c ">") with false
      by (symmetry; apply Ascii.eqb_neq; congruence).
    cbn [Re.pos]. replace (S (Re.pos st) =? Re.pos st) with false
      by (symmetry; apply Nat.eqb_neq; lia).
    rewrite (IH Hx f); [| reflexivity | simpl in Hfuel; lia |].
    + cbn [length advance]. rewrite Hrest. cbn [app].
      pose proof (Hk 0 ltac:(simpl; lia)) as H0. cbn [advance] in H0.
      rewrite H0. apply orelse_None_r.
    + intros n Hn. specialize (Hk (S n)). cbn [advance] in Hk.
      rewrite Hrest in Hk. apply Hk. simpl. lia.
Qed.

Lemma span_not_closing (s : str) :
  exists x r, s = x ++ r /\ (">"%char ∉ x)
              /\ forall c r', r = c :: r' -> c = ">"%char.
Proof.
  induction s as [|c s (x & r & Hs & Hx & Hr)].
  - exists [], []. split; [reflexivity|].
    split; [apply not_elem_of_nil | discriminate].
  - destruct (Ascii.eqb c ">") eqn:E.
    + apply Ascii.eqb_eq in E. subst c. exists [], (">"%char :: s).
      split; [reflexivity|]. split; [apply not_elem_of_nil|].
      intros c r' [= <- _]. reflexivity.
    + apply Ascii.eqb_neq in E. exists (c :: x), r.
      split; [simpl; congruence|]. split; [|exact Hr].
      apply not_elem_of_cons. split; [congruence | exact Hx].
Qed.

Lemma amp_story_opening_pattern_eq :
  amp_story_opening_pattern
  = Re.Seq (Re.chars (lit "<amp-story"))
      (Re.Seq Re.WordB
         (Re.Seq (Re.Star true (Re.NotIn (lit ">"))) (Re.Chr ">"))).
Proof. reflexivity. Qed.

Lemma closing_step (st : Re.mstate) (kk : Re.mstate -> option Re.mstate) :
  Re.one (Re.char_eq Re.no_flags ">") st kk
  = match Re.rest st with
    | [] => None
    | c :: s =>
        if Ascii.eqb ">" c
        then kk (Re.MState (S (Re.pos st)) (Some c) s (Re.caps st))
        else None
    end.
Proof. reflexivity. Qed.

(** What the pattern matches at the front of a text that begins with the
    literal: the tag, when the literal is not followed by a word character
    and a [>] follows. *)
Lemma match_at_literal (i : nat) (pv : option ascii) (x r : str) :
  ">"%char ∉ x ->
  (forall c r', r = c :: r' -> c = ">"%char) ->
  Re.match_at Re.no_flags amp_story_opening_pattern i pv
    (lit "<amp-story" ++ x ++ r)
  = if Re.word_opt (head (x ++ r)) then None
    else match r with
         | [] => None
         | _ :: _ =>
             Some (Re.Match i (i + length (lit "<amp-story" ++ x ++ lit ">"))
                     [])
         end.
Proof.
  intros Hx Hr. unfold Re.match_at. rewrite amp_story_opening_pattern_eq.
  cbn [Re.m]. rewrite m_chars. cbn [Re.rest].
  rewrite startswith_app, advance_app.
  unfold Re.at_boundary. cbn [Re.prev Re.rest].
  change (Re.word_opt (prev_after pv (lit "<amp-story"))) with true.
  cbn [xorb].
  destruct (Re.word_opt (head (x ++ r))); [reflexivity|]. cbn [negb].
  rewrite (iter_greedy_tag x r Hx Hr); cbn [Re.rest].
  - rewrite advance_app. rewrite closing_step. cbn [Re.rest Re.pos Re.caps].
    destruct r as [|c r']; [reflexivity|].
    rewrite (Hr c r' eq_refl). cbn [Ascii.eqb]. 
    change (Ascii.eqb ">" ">") with true. cbn [Re.pos Re.caps].
    do 2 f_equal. rewrite !length_app. simpl. lia.
  - reflexivity.
  - rewrite length_app. lia.
  - intros n Hn. rewrite closing_step, rest_advance. cbn [Re.rest].
    rewrite drop_app_le by lia.
    destruct (drop n x) as [|c y] eqn:E.
    + apply (f_equal length) in E. rewrite length_drop in E. simpl in E. lia.
    + cbn [app]. replace (Ascii.eqb ">" c) with false; [reflexivity|].
      symmetry. apply Ascii.eqb_neq. intros <-. apply Hx.
      apply (subseteq_drop n x). rewrite E. left.
Qed.

Lemma head_app_closing (attrs post : str) :
  Re.word_opt (head (attrs ++ lit ">" ++ post)) = Re.word_opt (head attrs).
Proof. destruct attrs; reflexivity. Qed.

(** The pattern matches at the front of a text exactly when an opening tag
    stands there, and then it matches the tag. *)
Lemma match_at_opening_tag (i : nat) (pv : option ascii) (s tag : str) :
  opening_tag_at s 0 tag ->
  Re.match_at Re.no_flags amp_story_opening_pattern i pv s
  = Some (Re.Match i (i + length tag) []).
Proof.
  intros (attrs & -> & Ho & Hx & Hw).
  apply occurs_at_0, startswith_spec in Ho as (post & ->).
  rewrite <- !app_assoc.
  rewrite (match_at_literal i pv attrs (lit ">" ++ post) Hx).
  - rewrite head_app_closing, Hw. reflexivity.
  - intros c r' [= <- _]. reflexivity.
Qed.

Lemma match_at_opening_tag_inv (i : nat) (pv : option ascii) (s : str)
    (mt : Re.mtch) :
  Re.match_at Re.no_flags amp_story_opening_pattern i pv s = Some mt ->
  exists tag, opening_tag_at s 0 tag /\ mt = Re.Match i (i + length tag) [].
Proof.
  intros H.
  destruct (Py.startswith (lit "<amp-story") s) eqn:E.
  - apply startswith_spec in E as (s1 & ->).
    destruct (span_not_closing s1) as (x & r & -> & Hx & Hr).
    rewrite (match_at_literal i pv x r Hx Hr) in H.
    destruct (Re.word_opt (head (x ++ r))) eqn:Hw; [discriminate H|].
    destruct r as [|c post]; [discriminate H|].
    pose proof (Hr c post eq_refl) as ->. injection H as <-.
    exists (lit "<amp-story" ++ x ++ lit ">"). split; [|reflexivity].
    exists x. split; [reflexivity|]. split.
    + apply occurs_at_0, startswith_spec. exists post.
      rewrite <- !app_assoc. reflexivity.
    + split; [exact Hx|].
      rewrite <- (head_app_closing x post). exact Hw.
  - exfalso. unfold Re.match_at in H. rewrite amp_story_opening_pattern_eq in H.
    cbn [Re.m] in H. rewrite m_chars in H. cbn [Re.rest] in H.
    rewrite E in H. discriminate H.
Qed.

Lemma opening_tag_at_drop (t : str) (i : nat) (tag : str) :
  i <= length t ->
  opening_tag_at (drop i t) 0 tag <-> opening_tag_at t i tag.
Proof.
  intros Hi. unfold opening_tag_at.
  assert (Ho : occurs_at tag (drop i t) 0 <-> occurs_at tag t i).
  { split.
    - intros H. apply occurs_at_0 in H.
      apply startswith_occurs; assumption.
    - intros (pre & post & -> & <-). rewrite drop_app_length.
      apply occurs_at_0, startswith_app. }
  split; intros (attrs & ? & ? & ?); exists attrs; rewrite Ho in *; auto.
Qed.

(** The search returns the match at the first index where the pattern
    matches. *)
Lemma search_from_first (fl : Re.flags) (r : Re.regex) (s : str) :
  forall (i : nat) (pv : option ascii),
    (Re.search_from fl r i pv s = None
     /\ forall j, j <= length s ->
          exists pv', Re.match_at fl r (i + j) pv' (drop j s) = None)
    \/ exists n pv' mt,
         Re.search_from fl r i pv s = Some mt
         /\ n <= length s
         /\ Re.match_at fl r (i + n) pv' (drop n s) = Some mt
         /\ forall j, j < n ->
              exists pv'', Re.match_at fl r (i + j) pv'' (drop j s) = None.
Proof.
  induction s as [|c s IH]; intros i pv; cbn [Re.search_from].
  - destruct (Re.match_at fl r i pv []) as [mt|] eqn:E.
    + right. exists 0, pv, mt. rewrite Nat.add_0_r.
      repeat split; [lia | exact E | intros j Hj; lia].
    + left. split; [reflexivity|]. intros j Hj. simpl in Hj.
      replace j with 0 by lia. rewrite Nat.add_0_r. eauto.
  - destruct (Re.match_at fl r i pv (c :: s)) as [mt|] eqn:E.
    + right. exists 0, pv, mt. rewrite Nat.add_0_r.
      repeat split; [simpl; lia | exact E | intros j Hj; lia].
    + destruct (IH (S i) (Some c)) as [[Hn Hall] | (n & pv' & mt & Hs & Hn & Hm & Hall)].
      * left. split; [exact Hn|]. intros [|j] Hj.
        { rewrite Nat.add_0_r. eauto. }
        destruct (Hall j) as (pv' & Hpv); [simpl in Hj; lia|].
        exists pv'. replace (i + S j) with (S i + j) by lia. exact Hpv.
      * right. exists (S n), pv', mt.
        split; [exact Hs|]. split; [simpl; lia|].
        split; [replace (i + S n) with (S i + n) by lia; exact Hm|].
        intros [|j] Hj.
        { rewrite Nat.add_0_r. eauto. }
        destruct (Hall j) as (pv'' & Hpv); [lia|].
        exists pv''. replace (i + S j) with (S i + j) by lia. exact Hpv.
Qed.

(** The search for the opening tag finds the first one. *)
Lemma search_opening_tag (t : str) :
  (Re.search_from Re.no_flags amp_story_opening_pattern 0 None t = None
   /\ forall i tag, ~ opening_tag_at t i tag)
  \/ exists i tag,
       Re.search_from Re.no_flags amp_story_opening_pattern 0 None t
       = Some (Re.Match i (i + length tag) [])
       /\ opening_tag_at t i tag
       /\ forall j tag', j < i -> ~ opening_tag_at t j tag'.
Proof.
  destruct (search_from_first Re.no_flags amp_story_opening_pattern t 0 None)
    as [[Hn Hall] | (n & pv' & mt & Hs & Hn & Hm & Hall)].
  - left. split; [exact Hn|]. intros i tag Ht.
    assert (Hi : i <= length t).
    { destruct Ht as (attrs & _ & Ho & _). apply occurs_at_bound in Ho. lia. }
    destruct (Hall i Hi) as (pv' & Hpv).
    apply (opening_tag_at_drop t i tag Hi) in Ht.
    rewrite (match_at_opening_tag _ pv' _ tag Ht) in Hpv. discriminate Hpv.
  - right. apply match_at_opening_tag_inv in Hm as (tag & Ht & ->).
    exists n, tag. split; [exact Hs|].
    split; [apply opening_tag_at_drop; assumption|].
    intros j tag' Hj Ht'.
    destruct (Hall j Hj) as (pv'' & Hpv).
    apply (opening_tag_at_drop t j tag') in Ht'; [|lia].
    rewrite (match_at_opening_tag _ pv'' _ tag' Ht') in Hpv. discriminate Hpv.
Qed.

Lemma contains_spec (sub s : str) :
  Py.contains sub s = true <-> exists i, occurs_at sub s i.
Proof.
  unfold Py.contains. rewrite negb_true_iff, Z.eqb_neq.
  split.
  - intros H. unfold Py.find in H.
    destruct (find_from_spec sub s 0) as [[Hf _] | (i & _ & Ho & _)];
      [congruence | eauto].
  - intros (i & Hi) Hf. exact (proj1 (find_absent sub s) Hf i Hi).
Qed.

(** The story pages go, between blank lines, right after the first opening
    tag of the story container in the template, when there is one and the
    analytics tag occurs in the template too; when either is missing, the
    template is kept and a warning is given. *)
Theorem story_pages_go_after_opening_tag (fragment template : str) :
  fragment <> [] ->
  (forall i tag k,
     opening_tag_at template i tag ->
     (forall j tag', j < i -> ~ opening_tag_at template j tag') ->
     occurs_at analytics_tag template k ->
     insert_amp_story fragment template
     = ([], Ok (take (i + length tag) template ++ nl ++ nl ++ fragment
                ++ nl ++ nl ++ drop (i + length tag) template)))
  /\ ((forall i tag, ~ opening_tag_at template i tag)
      \/ (forall k, ~ occurs_at analytics_tag template k) ->
      insert_amp_story fragment template
      = ([UiWarning
            (lit "Could not find insertion points in the HTML template.")],
         Ok template)).
Proof.
  intros Hne. unfold insert_amp_story.
  destruct fragment as [|c0 fragment]; [congruence|]. cbn [Py.truthy].
  change (Re.search Re.no_flags amp_story_opening_pattern template)
    with (Ok (Re.search_from Re.no_flags amp_story_opening_pattern 0 None
                template) : result (option Re.mtch)).
  unfold mbind, M_bind, bind, lift.
  destruct (search_opening_tag template)
    as [[Hs Hno] | (i0 & tag0 & Hs & Ht0 & Hfirst0)]; rewrite Hs.
  - split.
    + intros i tag k Ht. destruct (Hno i tag Ht).
    + intros _. reflexivity.
  - split.
    + intros i tag k Ht Hfirst Hk.
      assert (Hi : i = i0).
      { destruct (Nat.lt_trichotomy i i0) as [Hlt | [Heq | Hgt]];
          [destruct (Hfirst0 i tag Hlt Ht) | exact Heq
          | destruct (Hfirst i0 tag0 Hgt Ht0)]. }
      subst i0.
      assert (Hbound : i + length tag <= length template).
      { destruct Ht as (attrs & _ & Ho & _). apply occurs_at_bound in Ho.
        exact Ho. }
      assert (Hlen : length tag0 = length tag).
      { assert (Hile : i <= length template) by lia.
        apply (opening_tag_at_drop template i _ Hile) in Ht, Ht0.
        pose proof (match_at_opening_tag 0 None _ _ Ht) as E.
        rewrite (match_at_opening_tag 0 None _ _ Ht0) in E.
        injection E as E. lia. }
      replace (Py.contains analytics_tag template) with true
        by (symmetry; apply contains_spec; eauto).
      unfold ret. cbn [app Re.m_end]. do 2 f_equal.
      unfold Py.slice_to, Py.slice_from. rewrite clamp_nat, Hlen.
      rewrite Nat.min_l by exact Hbound. reflexivity.
    + intros [Hno | Hno]; [destruct (Hno i0 tag0 Ht0)|].
      replace (Py.contains analytics_tag template) with false; [reflexivity|].
      symmetry. apply not_true_is_false. intros Hc.
      apply contains_spec in Hc as (k & Hk). exact (Hno k Hk).
Qed.

Lemma story_pages_go_after_opening_tag_witness :
  (forall i tag k,
     opening_tag_at demo_template i tag ->
     (forall j tag', j < i -> ~ opening_tag_at demo_template j tag') ->
     occurs_at analytics_tag demo_template k ->
     insert_amp_story (lit "<amp-story-page>") demo_template
     = ([], Ok (take (i + length tag) demo_template ++ nl ++ nl
                ++ lit "<amp-story-page>" ++ nl ++ nl
                ++ drop (i + length tag) demo_template)))
  /\ ((forall i tag, ~ opening_tag_at demo_template i tag)
      \/ (forall k, ~ occurs_at analytics_tag demo_template k) ->
      insert_amp_story (lit "<amp-story-page>") demo_template
      = ([UiWarning
            (lit "Could not find insertion points in the HTML template.")],
         Ok demo_template)).
Proof.
  apply (story_pages_go_after_opening_tag (lit "<amp-story-page>")
           demo_template).
  discriminate.
Defined.

(** The tag of the example template stands at index 53, and the pages go
    after it. *)
Example story_pages_in_demo_template :
  opening_tag_at demo_template 53 (lit "<amp-story standalone>")
  /\ insert_amp_story (lit "<amp-story-page>") demo_template
     = ([], Ok (take 75 demo_template ++ nl ++ nl ++ lit "<amp-story-page>"
                ++ nl ++ nl ++ drop 75 demo_template)).
Proof.
  split; [|vm_compute; reflexivity].
  exists (lit " standalone"). split; [reflexivity|]. split.
  - apply startswith_occurs; [vm_compute; reflexivity | vm_compute; lia].
  - split; [apply not_char_in; reflexivity | reflexivity].
Qed.

Example story_pages_inserted :
  insert_amp_story (lit "<amp-story-page>")
    (lit "<body><amp-story standalone>" ++ analytics_tag ++ lit "</amp-story>")
  = ([], Ok (lit "<body><amp-story standalone>" ++ nl ++ nl
             ++ lit "<amp-story-page>" ++ nl ++ nl ++ analytics_tag
             ++ lit "</amp-story>")).
Proof. vm_compute. reflexivity. Qed.

Lemma dropwhile_nil_all (g : ascii -> bool) (s : str) :
  Py.dropwhile g s = [] -> Forall (fun c => g c = true) s.
Proof.
  induction s as [|c s IH]; simpl; [constructor|].
  destruct (g c) eqn:E; [|discriminate].
  intros H. constructor; [exact E|exact (IH H)].
Qed.

Lemma strip_by_nil_all (g : ascii -> bool) (s : str) :
  Py.strip_by g s = [] -> Forall (fun c => g c = true) s.
Proof.
  unfold Py.strip_by, Py.lstrip_by, Py.rstrip_by. intros H.
  assert (Hr : Py.dropwhile g (rev (Py.dropwhile g s)) = [])
    by (rewrite <- (rev_involutive (Py.dropwhile g _)), H; reflexivity).
  apply dropwhile_nil_all in Hr.
  destruct (dropwhile_split g s) as (p & Hp & Hall).
  rewrite Hp. apply Forall_app. split; [exact Hall|].
  apply Forall_forall. intros c Hc.
  rewrite Forall_forall in Hr. apply Hr.
  apply list_elem_of_In, in_rev, list_elem_of_In.
  rewrite rev_involutive. exact Hc.
Qed.

Lemma blank_spec (s : str) :
  blank s = true <-> Forall (fun c => Py.is_space c = true) s.
Proof.
  unfold blank, Py.strip. split.
  - intros H. apply strip_by_nil_all.
    destruct (Py.strip_by Py.is_space s); [reflexivity|discriminate].
  - intros H. rewrite strip_by_all by exact H. reflexivity.
Qed.

Lemma missing_if_nil (b : bool) (name : string) :
  missing_if b name = [] <-> b = false.
Proof. destruct b; simpl; split; intros H; congruence. Qed.

Lemma blank_false (s : str) :
  blank s = false <-> has_text s.
Proof.
  unfold has_text. split.
  - intros H.
    assert (Hex : Exists (fun c => Py.is_space c <> true) s).
    { apply not_Forall_Exists.
      - intros c. destruct (Py.is_space c); [left|right]; congruence.
      - intros F. apply blank_spec in F. congruence. }
    apply Exists_exists in Hex as (c & Hc & Hn).
    exists c. split; [exact Hc|]. destruct (Py.is_space c); congruence.
  - intros (c & Hc & Hn). destruct (blank s) eqn:E; [|reflexivity].
    apply blank_spec in E. rewrite Forall_forall in E.
    specialize (E c Hc). congruence.
Qed.

(** The validation reports nothing exactly when each of the eight text
    fields holds a character other than white space and a file was
    uploaded; the custom cover URL is never asked for. *)
Theorem nothing_missing_iff_all_filled (f : form) :
  missing_fields f = []
  <-> Forall has_text
        [story_title f; meta_description f; meta_keywords f; content_type f;
         language f; image_url f; tag_input f; categories f]
      /\ is_Some (html_file f).
Proof.
  unfold missing_fields.
  rewrite !app_nil, !missing_if_nil, !blank_false, negb_false_iff,
    bool_decide_eq_true, !Forall_cons, Forall_nil.
  tauto.
Qed.
